(** * WiPerf: feedback protocol, receiver handoff and configuration

    A shallow embedding of the data/feedback plane of WiPerf
    (src/dtransfer and src/util/configfile.cc) together with the
    properties of its feedback wire format, of the byte-counter handoff
    between [DataReceiver] and [FeedbackSender], of the configuration
    readers in [WiperfUtility], and of the socket life cycle in
    [DataTransfer] and [DataSender]. *)

From Stdlib Require Import ZArith Lia Bool.
From Stdlib Require Import Strings.Ascii Strings.Byte.
From Stdlib Require Strings.String.
From stdpp Require Import base option list gmap strings sorting pretty.

Local Open Scope Z_scope.

(** ** Part I: the program *)

(** *** Fixed-width integers *)

Definition wrap16 (z : Z) : Z := z mod 2^16.
Definition wrap32 (z : Z) : Z := z mod 2^32.
Definition wrap64 (z : Z) : Z := z mod 2^64.

(** [int] is a 32-bit two's complement integer: the value a conversion
    of [z] to [int] yields. *)
Definition to_int32 (z : Z) : Z := (z + 2^31) mod 2^32 - 2^31.

Definition INT_MIN : Z := - 2^31.
Definition INT_MAX : Z := 2^31 - 1.

(** *** Bytes and memory images of integers *)

Definition byte_of_Z (z : Z) : byte :=
  match Byte.of_N (Z.to_N (z mod 256)) with
  | Some b => b
  | None => x00
  end.

Definition Z_of_byte (b : byte) : Z := Z.of_N (Byte.to_N b).

(** The [n] low-order bytes of [v], least significant first. *)
Fixpoint le_bytes (n : nat) (v : Z) : list byte :=
  match n with
  | O => []
  | S k => byte_of_Z v :: le_bytes k (Z.shiftr v 8)
  end.

Fixpoint le_value (bs : list byte) : Z :=
  match bs with
  | [] => 0
  | b :: bs' => Z_of_byte b + 2^8 * le_value bs'
  end.

(** Most significant byte first: the network order. *)
Definition be_bytes (n : nat) (v : Z) : list byte := rev (le_bytes n v).
Definition be_value (bs : list byte) : Z := le_value (rev bs).

(** The machine running a component.  [*reinterpret_cast<const char*>(&num) == num]
    in [WiperfUtility::htonll] is true exactly on a little-endian host. *)
Inductive endianness : Set := LittleEndian | BigEndian.

Definition is_little (host : endianness) : bool :=
  match host with LittleEndian => true | BigEndian => false end.

(** [std::memcpy(dst, &v, n)] of an [n]-byte unsigned integer [v]: the
    bytes of [v] as the host keeps them in memory. *)
Definition host_bytes (host : endianness) (n : nat) (v : Z) : list byte :=
  if is_little host then le_bytes n v else be_bytes n v.

(** [std::memcpy(&v, src, n)]: the integer whose memory image is [bs]. *)
Definition host_value (host : endianness) (bs : list byte) : Z :=
  if is_little host then le_value bs else be_value bs.

(** Reversal of the four bytes of a 32-bit value. *)
Definition bswap32 (v : Z) : Z := le_value (rev (le_bytes 4 v)).

(** [htonl] and [ntohl] of <arpa/inet.h>. *)
Definition htonl (host : endianness) (v : Z) : Z :=
  if is_little host then bswap32 v else wrap32 v.
Definition ntohl (host : endianness) (v : Z) : Z := htonl host v.

(** [WiperfUtility::htonll]. *)
Definition htonll (host : endianness) (value : Z) : Z :=
  if is_little host then
    let high_part := htonl host (wrap32 (Z.shiftr value 32)) in
    let low_part := htonl host (wrap32 (Z.land value 0xFFFFFFFF)) in
    Z.lor (wrap64 (Z.shiftl low_part 32)) high_part
  else value.

(** [WiperfUtility::ntohll]. *)
Definition ntohll (host : endianness) (value : Z) : Z :=
  if is_little host then
    let high_part := ntohl host (wrap32 (Z.shiftr value 32)) in
    let low_part := ntohl host (wrap32 (Z.land value 0xFFFFFFFF)) in
    Z.lor (wrap64 (Z.shiftl low_part 32)) high_part
  else value.

(** *** Buffers *)

(** [n] bytes of [buf] from [off] on; [None] when the range leaves the
    buffer, which in the program is a read outside the array. *)
Definition read_at (buf : list byte) (off : Z) (n : nat) : option (list byte) :=
  if decide (0 <= off /\ off + Z.of_nat n <= Z.of_nat (length buf))
  then Some (take n (drop (Z.to_nat off) buf))
  else None.

(** [std::memcpy(&buf[off], src, length src)]. *)
Definition write_at (buf : list byte) (off : Z) (src : list byte) : option (list byte) :=
  if decide (0 <= off /\ off + Z.of_nat (length src) <= Z.of_nat (length buf))
  then Some (take (Z.to_nat off) buf ++ src ++ drop (Z.to_nat off + length src) buf)
  else None.

(** *** Outcomes of a run *)

(** The C++ exceptions the modelled code can raise. *)
Inductive exn : Type :=
  | runtime_error (what : string)
  | invalid_argument (what : string)
  | out_of_range (what : string)
  | bad_array_new_length
  | char_const_ptr (str : string).

(** How a piece of the program ends: with a value, with an exception
    leaving it, in undefined behaviour (a read or write outside an array,
    a dereferenced [end()] iterator, a division by zero), or in
    [exit(code)]. *)
Inductive outcome (A : Type) : Type :=
  | Ok (a : A)
  | Throw (e : exn)
  | Undefined
  | Exit (code : Z).
Arguments Ok {A} a.
Arguments Throw {A} e.
Arguments Undefined {A}.
Arguments Exit {A} code.

Definition obind {A B : Type} (c : outcome A) (k : A -> outcome B) : outcome B :=
  match c with
  | Ok a => k a
  | Throw e => Throw e
  | Undefined => Undefined
  | Exit code => Exit code
  end.

Notation "'do' x <- c ; k" := (obind c (fun x => k))
  (at level 10, x name, c at level 100, k at level 200).

(** A memory access that is only defined inside its array. *)
Definition defined {A : Type} (o : option A) : outcome A :=
  match o with Some a => Ok a | None => Undefined end.

(** *** Data model (WiperfUtility.hpp, FeedbackSender.hpp, DataReceiver.hpp) *)

Definition UNINITIALIZED_FD : Z := -1.
Definition FEEDBACK_INTERVAL_DEF : Z := 100.
Definition FEEDBACK_RCV_BUF_LEN : Z := 512.
Definition RCV_BUF_LEN : Z := 524288.
Definition PORT_CLI_DEF : Z := 44443.
Definition PORT_SRV_DEF : Z := 44444.
Definition PORT_FEED_CLI_DEF : Z := 44445.
Definition PORT_FEED_SRV_DEF : Z := 44446.
Definition IFACES_STR_DEF : string := "lo 127.0.0.1".

(** [struct sockaddr_in], kept as the address text and the port it was
    built from. *)
Record sockaddr_in : Type := MkSockaddr { sin_addr : string; sin_port : Z }.

(** [struct IfaceInfo]. *)
Record IfaceInfo : Type := MkIfaceInfo {
  addrSrv : string;
  addrCli : string;
  sockaddrSrv : option sockaddr_in;
  sockfd : Z;
  nbytesAcc : Z;
  ifaceId : Z
}.

(** [IfaceInfoMap] is a [std::map<std::string, IfaceInfo>]. *)
Abbreviation IfaceInfoMap := (gmap string IfaceInfo).

(** The value-initialised record that [std::map::operator[]] inserts for
    a key that is not in the map. *)
Definition IfaceInfo_zero : IfaceInfo :=
  MkIfaceInfo "" "" None 0 0 0.

(** [m[key]] used as an rvalue: the map afterwards. *)
Definition subscript (m : IfaceInfoMap) (key : string) : IfaceInfoMap :=
  match m !! key with
  | Some _ => m
  | None => <[key := IfaceInfo_zero]> m
  end.

(** A [std::map] iterates in the order of [std::string::operator<], the
    lexicographic order on unsigned characters. *)
Definition key_le {V : Type} (x y : string * V) : Prop :=
  String.leb x.1 y.1 = true.

Global Instance key_le_dec {V : Type} (x y : string * V) : Decision (key_le x y).
Proof. unfold key_le. apply _. Defined.

Definition in_order {V : Type} (m : gmap string V) : list (string * V) :=
  merge_sort key_le (map_to_list m).

(** [struct FeedbackMessageStruct]; [fm_message] is the [uint8_t[12]]. *)
Record FeedbackMessageStruct : Type := MkFeedbackMessage {
  fm_timestamp : Z;
  fm_throughput : Z;
  fm_ifaceName : string;
  fm_message : list byte
}.

(** What [FeedbackSender::commThread] keeps from one cycle to the next. *)
Record FeedbackSenderState : Type := MkFeedbackSenderState {
  tm2Info : gmap string FeedbackMessageStruct;
  tm1Info : gmap string FeedbackMessageStruct;
  tInfo : gmap string FeedbackMessageStruct;
  sleepingInterval : Z
}.

(** What [DataReceiver] shares with [FeedbackSender]: its interface
    table and the public [nbytes_reset_value]. *)
Record DataReceiverShared : Type := MkDataReceiverShared {
  ifaceMap : IfaceInfoMap;
  nbytes_reset_value : gmap string Z
}.

(** *** FeedbackSender::commThread, one cycle *)

(** [feedbackInterval - (millis % feedbackInterval)], lines 151 and 266:
    the [int] is converted to [uint64_t]. *)
Definition sleepingIntervalOf (feedbackInterval millis : Z) : outcome Z :=
  let interval := wrap64 feedbackInterval in
  if decide (interval = 0) then Undefined
  else Ok (wrap64 (interval - millis mod interval)).

(** [timestamp - (timestamp % feedbackInterval)], line 159. *)
Definition alignedTimestamp (feedbackInterval timestamp : Z) : outcome Z :=
  let interval := wrap64 feedbackInterval in
  if decide (interval = 0) then Undefined
  else Ok (wrap64 (timestamp - timestamp mod interval)).

(** Lines 162-168: [nbytesMap], the counters narrowed to [uint32_t]. *)
Definition snapshot (m : IfaceInfoMap) : gmap string Z :=
  (fun info => wrap32 (nbytesAcc info)) <$> m.

(** Lines 172-175: every entry of [nbytes_reset_value] receives the
    snapshot of its interface; [find] on a missing name gives [end()]. *)
Definition publish (nbytesMap reset : gmap string Z) : outcome (gmap string Z) :=
  if decide (dom reset ⊆ dom nbytesMap)
  then Ok (map_imap (fun name _ => nbytesMap !! name) reset)
  else Undefined.

(** Line 210: [(nbytes * 8) / sleepingInterval], a [uint32_t] product
    divided as [uint64_t] and stored in a [uint32_t]. *)
Definition throughputOf (nbytes sleepingInterval : Z) : Z :=
  wrap32 (wrap32 (nbytes * 8) / sleepingInterval).

(** Lines 205-243, the body of the loop over [dataReceiverIfnames]. *)
Definition fillBlock (host : endianness) (nbytesMap : gmap string Z)
    (sleepingInterval timestamp netTimestamp : Z)
    (tm1Info tm2Info : gmap string FeedbackMessageStruct)
    (i : Z) (ifaceName : string)
    (acc : list byte * gmap string FeedbackMessageStruct)
  : outcome (list byte * gmap string FeedbackMessageStruct) :=
  let '(buffer, tInfo) := acc in
  let sizePerRat := 40 in
  let offset := wrap32 (4 + wrap32 (sizePerRat * i)) in
  do nbytes <- defined (nbytesMap !! ifaceName);
  if decide (sleepingInterval = 0) then Undefined else
  let throughput := throughputOf nbytes sleepingInterval in
  let netThroughput := htonl host throughput in
  let currInfo := host_bytes host 8 netTimestamp ++ host_bytes host 4 netThroughput in
  do buffer <- defined (write_at buffer offset (host_bytes host 4 i));
  do buffer <- defined (write_at buffer (wrap32 (offset + 4)) currInfo);
  do buffer <-
    match tm1Info !! ifaceName with
    | Some message1 =>
        do buffer <- defined (write_at buffer (wrap32 (offset + 4 + 12)) (fm_message message1));
        match tm2Info !! ifaceName with
        | Some message2 =>
            defined (write_at buffer (wrap32 (offset + 4 + 24)) (fm_message message2))
        | None => Ok buffer
        end
    | None => Ok buffer
    end;
  let feedbackMsg := MkFeedbackMessage timestamp throughput ifaceName currInfo in
  Ok (buffer,
      match tInfo !! ifaceName with
      | Some _ => tInfo
      | None => <[ifaceName := feedbackMsg]> tInfo
      end).

(** Lines 202-244, the loop with its counter [i]. *)
Fixpoint fillBlocks (host : endianness) (nbytesMap : gmap string Z)
    (sleepingInterval timestamp netTimestamp : Z)
    (tm1Info tm2Info : gmap string FeedbackMessageStruct)
    (ifnames : list string) (i : Z)
    (acc : list byte * gmap string FeedbackMessageStruct)
  : outcome (list byte * gmap string FeedbackMessageStruct) :=
  match ifnames with
  | [] => Ok acc
  | ifname :: rest =>
      do acc' <- fillBlock host nbytesMap sleepingInterval timestamp netTimestamp
                   tm1Info tm2Info i ifname acc;
      fillBlocks host nbytesMap sleepingInterval timestamp netTimestamp
        tm1Info tm2Info rest (wrap32 (i + 1)) acc'
  end.

(** Lines 191-244: the buffer handed to [sendto], and the new [tInfo]. *)
Definition buildReport (host : endianness) (dataReceiverIfnames : list string)
    (nbytesMap : gmap string Z) (sleepingInterval timestamp netTimestamp : Z)
    (tm1Info tm2Info : gmap string FeedbackMessageStruct)
  : outcome (list byte * gmap string FeedbackMessageStruct) :=
  let numRats := wrap32 (Z.of_nat (length dataReceiverIfnames)) in
  let netNumRats := htonl host numRats in
  let sizePerRat := 40 in
  let bufferSize := to_int32 (wrap32 (4 + wrap32 (numRats * sizePerRat))) in
  if decide (bufferSize < 0) then Throw bad_array_new_length else
  let buffer := replicate (Z.to_nat bufferSize) x00 in
  do buffer <- defined (write_at buffer 0 (host_bytes host 4 netNumRats));
  fillBlocks host nbytesMap sleepingInterval timestamp netTimestamp
    tm1Info tm2Info dataReceiverIfnames 0 (buffer, ∅).

(** Lines 156-244: one pass of the [while] loop up to the [sendto];
    [now] is the clock read at line 156.  The result is the datagram, the
    state for the next pass and the receiver's shared data. *)
Definition feedbackCycle (host : endianness) (feedbackInterval : Z)
    (dataReceiverIfnames : list string)
    (st : FeedbackSenderState) (now : Z) (dreceiver : DataReceiverShared)
  : outcome (list byte * FeedbackSenderState * DataReceiverShared) :=
  do timestamp <- alignedTimestamp feedbackInterval now;
  let nbytesMap := snapshot (ifaceMap dreceiver) in
  do reset <- publish nbytesMap (nbytes_reset_value dreceiver);
  let netTimestamp := htonll host timestamp in
  let tm2 := tm1Info st in
  let tm1 := tInfo st in
  do built <- buildReport host dataReceiverIfnames nbytesMap
                 (sleepingInterval st) timestamp netTimestamp tm1 tm2;
  Ok (built.1,
      MkFeedbackSenderState tm2 tm1 built.2 (sleepingInterval st),
      MkDataReceiverShared (ifaceMap dreceiver) reset).

(** Lines 262-267: the wait computed from the clock read after the send. *)
Definition endOfCycle (feedbackInterval : Z) (st : FeedbackSenderState)
    (endTimestamp : Z) : outcome FeedbackSenderState :=
  do s <- sleepingIntervalOf feedbackInterval endTimestamp;
  Ok (MkFeedbackSenderState (tm2Info st) (tm1Info st) (tInfo st) s).

(** Lines 138-152: the state in which the loop is entered. *)
Definition startOfLoop (feedbackInterval currentMillis : Z) : outcome FeedbackSenderState :=
  do s <- sleepingIntervalOf feedbackInterval currentMillis;
  Ok (MkFeedbackSenderState ∅ ∅ ∅ s).

(** *** FeedbackReceiver::readFeedbackMessage *)

Section Receiver.

(** [double] and the comparison [speed > 0.5] are the machine's. *)
Variable double : Type.
Variable gt_half : double -> bool.

(** The fix copied by [WiperfUtility::getCurrentGps], after the casts of
    lines 137-140. *)
Record GpsFix : Type := MkGpsFix {
  gps_lat : double;
  gps_lon : double;
  gps_speed : double;
  gps_head : double
}.

(** [struct DatabaseInfo]. *)
Record DatabaseInfo : Type := MkDatabaseInfo {
  latitude : double;
  longitude : double;
  speed : double;
  orientation : double;
  moving : Z;
  throughput : Z;
  numBits : Z;
  channelInfo : string;
  scanInfo : string;
  rat : string;
  timestamp : Z;
  tx_bitrate : Z;
  signal_strength : Z
}.

(** Lines 164-193, the body of the loop over the three entries. *)
Definition readEntry (host : endianness) (feedbackInterval : Z) (currentInfo : GpsFix)
    (buffer : list byte) (ifaceName : string) (offset j : Z)
  : outcome (list DatabaseInfo) :=
  let entryOffset := wrap32 (offset + 4 + wrap32 (j * 12)) in
  do raw <- defined (read_at buffer entryOffset 8);
  let timestamp := ntohll host (host_value host raw) in
  if decide (timestamp > 0) then
    do raw <- defined (read_at buffer (entryOffset + 8) 4);
    let throughput := ntohl host (host_value host raw) in
    Ok [ MkDatabaseInfo
           (gps_lat currentInfo) (gps_lon currentInfo)
           (gps_speed currentInfo) (gps_head currentInfo)
           (if gt_half (gps_speed currentInfo) then 1 else 0)
           throughput
           (wrap32 (throughput * wrap32 feedbackInterval))
           "" "" ifaceName timestamp 0 0 ]
  else Ok [].

(** Lines 163-194, the loop over the entries t, t-1 and t-2. *)
Definition readEntries (host : endianness) (feedbackInterval : Z) (currentInfo : GpsFix)
    (buffer : list byte) (ifaceName : string) (offset : Z)
  : outcome (list DatabaseInfo) :=
  do e0 <- readEntry host feedbackInterval currentInfo buffer ifaceName offset 0;
  do e1 <- readEntry host feedbackInterval currentInfo buffer ifaceName offset 1;
  do e2 <- readEntry host feedbackInterval currentInfo buffer ifaceName offset 2;
  Ok (e0 ++ e1 ++ e2).

(** Lines 152-195.  [names] is what is left of [dataSenderIfnames] from
    position [i] on, so that [dataSenderIfnames.at(i)] is its head and
    throws on the empty list. *)
Fixpoint readBlocks (host : endianness) (feedbackInterval : Z) (currentInfo : GpsFix)
    (buffer : list byte) (numberOfRats : Z) (names : list string) (i : Z)
    (ifaces : IfaceInfoMap) (feedbackInformation : list DatabaseInfo)
  : outcome (list DatabaseInfo * IfaceInfoMap) :=
  if decide (i < numberOfRats) then
    let offset := wrap32 (4 + wrap32 (i * 40)) in
    do raw <- defined (read_at buffer offset 4);
    let ifaceId := ntohl host (host_value host raw) in
    match names with
    | [] => Throw (out_of_range "vector::_M_range_check")
    | ifaceName :: rest =>
        let ifaces := subscript ifaces ifaceName in
        do entries <- readEntries host feedbackInterval currentInfo buffer ifaceName offset;
        readBlocks host feedbackInterval currentInfo buffer numberOfRats rest
          (wrap32 (i + 1)) ifaces (feedbackInformation ++ entries)
    end
  else Ok (feedbackInformation, ifaces).

(** [FeedbackReceiver::readFeedbackMessage]: the records, and the
    receiver's own interface table after the [operator[]] of line 160. *)
Definition readFeedbackMessage (host : endianness) (feedbackInterval : Z)
    (dataSenderIfnames : list string) (ifaces : IfaceInfoMap)
    (buffer : list byte) (currentInfo : GpsFix)
  : outcome (list DatabaseInfo * IfaceInfoMap) :=
  do raw <- defined (read_at buffer 0 4);
  let numberOfRats := ntohl host (host_value host raw) in
  readBlocks host feedbackInterval currentInfo buffer numberOfRats
    dataSenderIfnames 0 ifaces [].

(** The record of line 174-192 for a sample ([ts], [tput]). *)
Definition sampleRecord (feedbackInterval : Z) (currentInfo : GpsFix)
    (ifaceName : string) (ts tput : Z) : DatabaseInfo :=
  MkDatabaseInfo
    (gps_lat currentInfo) (gps_lon currentInfo)
    (gps_speed currentInfo) (gps_head currentInfo)
    (if gt_half (gps_speed currentInfo) then 1 else 0)
    tput (wrap32 (tput * wrap32 feedbackInterval))
    "" "" ifaceName ts 0 0.

(** What a 12-byte entry and a 40-byte block stand for. *)
Definition entryRecords (feedbackInterval : Z) (currentInfo : GpsFix)
    (ifaceName : string) (entry : list byte) : list DatabaseInfo :=
  let ts := be_value (take 8 entry) in
  if decide (ts > 0)
  then [sampleRecord feedbackInterval currentInfo ifaceName ts (be_value (drop 8 entry))]
  else [].

Definition blockRecords (feedbackInterval : Z) (currentInfo : GpsFix)
    (ifaceName : string) (block : list byte) : list DatabaseInfo :=
  entryRecords feedbackInterval currentInfo ifaceName (take 12 (drop 4 block))
  ++ entryRecords feedbackInterval currentInfo ifaceName (take 12 (drop 16 block))
  ++ entryRecords feedbackInterval currentInfo ifaceName (take 12 (drop 28 block)).

(** The triple a record is compared by. *)
Definition recordKey (r : DatabaseInfo) : string * Z * Z :=
  (rat r, timestamp r, throughput r).

End Receiver.

Arguments recordKey {double}.
Arguments sampleRecord {double}.
Arguments entryRecords {double}.
Arguments blockRecords {double}.
Arguments MkGpsFix {double}.
Arguments gps_lat {double}.
Arguments gps_lon {double}.
Arguments gps_speed {double}.
Arguments gps_head {double}.
Arguments MkDatabaseInfo {double}.
Arguments latitude {double}.
Arguments longitude {double}.
Arguments speed {double}.
Arguments orientation {double}.
Arguments moving {double}.
Arguments throughput {double}.
Arguments numBits {double}.
Arguments channelInfo {double}.
Arguments scanInfo {double}.
Arguments rat {double}.
Arguments timestamp {double}.
Arguments tx_bitrate {double}.
Arguments signal_strength {double}.
Arguments readEntry {double}.
Arguments readEntries {double}.
Arguments readBlocks {double}.
Arguments readFeedbackMessage {double}.

(** *** Vocabulary of the wire format *)

(** A 12-byte sample: the timestamp and the throughput in network order. *)
Definition sampleBytes (ts tput : Z) : list byte := be_bytes 8 ts ++ be_bytes 4 tput.

Definition zeroSample : list byte := replicate 12 x00.

(** The t-1 and t-2 entries of an interface's block, as the nested tests
    of lines 222-232 fill them. *)
Definition slot1 (tm1 : gmap string FeedbackMessageStruct) (name : string) : list byte :=
  match tm1 !! name with
  | Some m => fm_message m
  | None => zeroSample
  end.

Definition slot2 (tm1 tm2 : gmap string FeedbackMessageStruct) (name : string) : list byte :=
  match tm1 !! name, tm2 !! name with
  | Some _, Some m => fm_message m
  | _, _ => zeroSample
  end.

(** The 40 bytes of the block of [name], the [i]-th configured name. *)
Definition blockImage (host : endianness) (nbytesMap : gmap string Z)
    (sleepingInterval timestamp : Z) (tm1 tm2 : gmap string FeedbackMessageStruct)
    (i : Z) (name : string) : list byte :=
  host_bytes host 4 i
  ++ sampleBytes timestamp (throughputOf (default 0 (nbytesMap !! name)) sleepingInterval)
  ++ slot1 tm1 name ++ slot2 tm1 tm2 name.

Fixpoint blockImages (host : endianness) (nbytesMap : gmap string Z)
    (sleepingInterval timestamp : Z) (tm1 tm2 : gmap string FeedbackMessageStruct)
    (i : Z) (names : list string) : list byte :=
  match names with
  | [] => []
  | name :: rest =>
      blockImage host nbytesMap sleepingInterval timestamp tm1 tm2 i name
      ++ blockImages host nbytesMap sleepingInterval timestamp tm1 tm2 (i + 1) rest
  end.

Fixpoint blockList (host : endianness) (nbytesMap : gmap string Z)
    (sleepingInterval timestamp : Z) (tm1 tm2 : gmap string FeedbackMessageStruct)
    (i : Z) (names : list string) : list (list byte) :=
  match names with
  | [] => []
  | name :: rest =>
      blockImage host nbytesMap sleepingInterval timestamp tm1 tm2 i name
      :: blockList host nbytesMap sleepingInterval timestamp tm1 tm2 (i + 1) rest
  end.

(** The message kept for the next two cycles. *)
Definition currentMessage (nbytesMap : gmap string Z) (sleepingInterval timestamp : Z)
    (name : string) : FeedbackMessageStruct :=
  let tput := throughputOf (default 0 (nbytesMap !! name)) sleepingInterval in
  MkFeedbackMessage timestamp tput name (sampleBytes timestamp tput).

Fixpoint recorded (nbytesMap : gmap string Z) (sleepingInterval timestamp : Z)
    (names : list string) (t : gmap string FeedbackMessageStruct)
  : gmap string FeedbackMessageStruct :=
  match names with
  | [] => t
  | name :: rest =>
      recorded nbytesMap sleepingInterval timestamp rest
        (match t !! name with
         | Some _ => t
         | None => <[name := currentMessage nbytesMap sleepingInterval timestamp name]> t
         end)
  end.

(** A stored message is well formed when its bytes are the image of its
    fields; every message the sender stores is. *)
Definition message_wf (m : FeedbackMessageStruct) : Prop :=
  0 <= fm_timestamp m < 2^64 /\ 0 <= fm_throughput m < 2^32 /\
  fm_message m = sampleBytes (fm_timestamp m) (fm_throughput m).

Definition history_wf (t : gmap string FeedbackMessageStruct) : Prop :=
  forall name m, t !! name = Some m -> message_wf m.

Definition state_wf (st : FeedbackSenderState) : Prop :=
  history_wf (tm2Info st) /\ history_wf (tm1Info st) /\ history_wf (tInfo st).

(** The samples a report carries for an interface, read off the state
    the sender is left in: entry t from [tInfo], entry t-1 from [tm1Info],
    entry t-2 from [tm2Info]; an entry without history is (0, 0). *)
Definition sampleOf (o : option FeedbackMessageStruct) : Z * Z :=
  match o with
  | Some m => (fm_timestamp m, fm_throughput m)
  | None => (0, 0)
  end.

Definition carriedSamples (st : FeedbackSenderState) (name : string) : list (Z * Z) :=
  [ sampleOf (tInfo st !! name);
    sampleOf (tm1Info st !! name);
    match tm1Info st !! name with
    | Some _ => sampleOf (tm2Info st !! name)
    | None => (0, 0)
    end ].

(** The samples that are present, in the order of the report, each with
    the name the receiver has at the block's position. *)
Definition presentSamples (st : FeedbackSenderState)
    (namesRx namesTx : list string) : list (string * Z * Z) :=
  concat (zip_with
    (fun nameRx nameTx =>
       (fun s : Z * Z => (nameRx, s.1, s.2))
         <$> filter (fun s : Z * Z => s.1 <> 0) (carriedSamples st nameTx))
    namesRx namesTx).

(** The conditions under which a cycle runs to its [sendto]: the
    interval is not zero, the report fits an [int] size, every configured
    name is tracked by the receiver, [nbytes_reset_value] has no key
    outside the receiver's table, and the history is well formed. *)
Definition cycle_ready (feedbackInterval : Z) (names : list string)
    (st : FeedbackSenderState) (rx : DataReceiverShared) : Prop :=
  wrap64 feedbackInterval <> 0 /\
  sleepingInterval st <> 0 /\
  4 + 40 * Z.of_nat (length names) < 2^31 /\
  (forall name, name ∈ names -> is_Some (ifaceMap rx !! name)) /\
  dom (nbytes_reset_value rx) ⊆ dom (ifaceMap rx) /\
  state_wf st.

(** *** The counter handoff (DataReceiver.cc 156-180, FeedbackSender.cc 162-175) *)

(** The data the two components share, and [nbytesMap], which
    [FeedbackSender] holds between its read of the counters and its write
    of [nbytes_reset_value].  Neither component takes a lock around these
    accesses, so the steps of the worker threads and of the feedback
    thread interleave freely. *)
Record HandoffState : Type := MkHandoffState {
  hs_shared : DataReceiverShared;
  hs_nbytesMap : option (gmap string Z)
}.

Inductive HandoffEvent : Type :=
  | Receive (ifname : string) (nbytes : Z)
      (** DataReceiver.cc 176-177: one [recv] of [nbytes > 0] bytes. *)
  | ApplyDrain (ifname : string)
      (** DataReceiver.cc 168-173, by the worker of [ifname]. *)
  | Snapshot
      (** FeedbackSender.cc 162-168, the counters are copied. *)
  | Publish.
      (** FeedbackSender.cc 172-175, the copy is written to [nbytes_reset_value]. *)

Definition setAcc (info : IfaceInfo) (acc : Z) : IfaceInfo :=
  MkIfaceInfo (addrSrv info) (addrCli info) (sockaddrSrv info) (sockfd info) acc (ifaceId info).

(** One step; [None] when the event cannot happen in the state: a worker
    exists only for an interface of the table, a [recv] returns between 1
    and [RCV_BUF_LEN] bytes, and the feedback thread alternates between
    its read and its write. *)
Definition handoffStep (st : HandoffState) (ev : HandoffEvent) : option HandoffState :=
  let sh := hs_shared st in
  match ev with
  | Receive ifname nbytes =>
      info ← ifaceMap sh !! ifname;
      if decide (0 < nbytes <= RCV_BUF_LEN) then
        Some (MkHandoffState
                (MkDataReceiverShared
                   (<[ifname := setAcc info (wrap64 (nbytesAcc info + nbytes))]> (ifaceMap sh))
                   (nbytes_reset_value sh))
                (hs_nbytesMap st))
      else None
  | ApplyDrain ifname =>
      info ← ifaceMap sh !! ifname;
      pending ← nbytes_reset_value sh !! ifname;
      if decide (pending > 0) then
        Some (MkHandoffState
                (MkDataReceiverShared
                   (<[ifname := setAcc info (wrap64 (nbytesAcc info - pending))]> (ifaceMap sh))
                   (<[ifname := 0]> (nbytes_reset_value sh)))
                (hs_nbytesMap st))
      else Some st
  | Snapshot =>
      match hs_nbytesMap st with
      | None => Some (MkHandoffState sh (Some (snapshot (ifaceMap sh))))
      | Some _ => None
      end
  | Publish =>
      nbytesMap ← hs_nbytesMap st;
      match publish nbytesMap (nbytes_reset_value sh) with
      | Ok reset => Some (MkHandoffState (MkDataReceiverShared (ifaceMap sh) reset) None)
      | _ => None
      end
  end.

Fixpoint runHandoff (st : HandoffState) (evs : list HandoffEvent) : option HandoffState :=
  match evs with
  | [] => Some st
  | ev :: rest => st' ← handoffStep st ev; runHandoff st' rest
  end.

(** The bytes received on [ifname] in a run. *)
Fixpoint receivedBy (ifname : string) (evs : list HandoffEvent) : Z :=
  match evs with
  | [] => 0
  | Receive n nbytes :: rest =>
      (if decide (n = ifname) then nbytes else 0) + receivedBy ifname rest
  | _ :: rest => receivedBy ifname rest
  end.

(** The amounts the worker of [ifname] subtracts in a run from [st]. *)
Fixpoint drainedBy (ifname : string) (st : HandoffState) (evs : list HandoffEvent) : Z :=
  match evs with
  | [] => 0
  | ev :: rest =>
      (match ev with
       | ApplyDrain n =>
           if decide (n = ifname)
           then default 0 (nbytes_reset_value (hs_shared st) !! ifname)
           else 0
       | _ => 0
       end)
      + match handoffStep st ev with
        | Some st' => drainedBy ifname st' rest
        | None => 0
        end
  end.

Definition accOf (st : HandoffState) (ifname : string) : option Z :=
  nbytesAcc <$> (ifaceMap (hs_shared st) !! ifname).

Definition pendingOf (st : HandoffState) (ifname : string) : option Z :=
  nbytes_reset_value (hs_shared st) !! ifname.

(** The invariant of the specification: no pending drain exceeds its counter. *)
Definition pending_bounded (st : HandoffState) : Prop :=
  forall ifname acc pending,
    accOf st ifname = Some acc -> pendingOf st ifname = Some pending ->
    pending <= acc.

(** Schedules in which the feedback thread's read of the counters and
    its write of the pending drains are not separated by any other step,
    as one critical section would have them. *)
Inductive SerialEvent : Type :=
  | SReceive (ifname : string) (nbytes : Z)
  | SApplyDrain (ifname : string)
  | SHandoff.

Definition expand (evs : list SerialEvent) : list HandoffEvent :=
  evs ≫= fun ev =>
    match ev with
    | SReceive ifname nbytes => [Receive ifname nbytes]
    | SApplyDrain ifname => [ApplyDrain ifname]
    | SHandoff => [Snapshot; Publish]
    end.

(** Between two cycles of the feedback thread: every pending drain
    belongs to an interface of the table, counters and pending drains
    are in range, and no pending drain exceeds its counter. *)
Definition handoff_settled (st : HandoffState) : Prop :=
  hs_nbytesMap st = None /\
  (forall ifname pending, pendingOf st ifname = Some pending ->
     0 <= pending /\ is_Some (accOf st ifname)) /\
  (forall ifname acc, accOf st ifname = Some acc -> 0 <= acc < 2^64) /\
  pending_bounded st.

(** A receiver with the single interface "lo", its counter and its
    pending drain at zero, and the feedback thread about to read. *)
Definition handoffStart : HandoffState :=
  MkHandoffState
    (MkDataReceiverShared
       (<["lo" := MkIfaceInfo "127.0.0.1" "127.0.0.1" None 3 0 0]> ∅)
       (<["lo" := 0]> ∅))
    None.

(** Two feedback cycles; the worker applies the drain of the first one
    between the read and the write of the second. *)
Definition staleDrainSchedule : list HandoffEvent :=
  [ Receive "lo" 100; Snapshot; Publish;
    Receive "lo" 50; Snapshot; ApplyDrain "lo"; Publish;
    ApplyDrain "lo" ].

(** *** Logging and exceptions in the configuration readers *)

(** [enum LogLevel] of logfile.hpp, without the count [NLOG_LEVELS]. *)
Inductive LogLevel : Set := FATAL | ERROR | WARN | MSG | VERBOSE.

Definition NLOG_LEVELS : Z := 5.
Definition LOG_LEVEL_DEF : LogLevel := ERROR.

Definition LogLevel_of_int (n : Z) : LogLevel :=
  if decide (n = 0) then FATAL
  else if decide (n = 1) then ERROR
  else if decide (n = 2) then WARN
  else if decide (n = 3) then MSG
  else VERBOSE.

Definition int_of_LogLevel (l : LogLevel) : Z :=
  match l with FATAL => 0 | ERROR => 1 | WARN => 2 | MSG => 3 | VERBOSE => 4 end.

(** A computation that calls [LogFile::writeLog] on its way: the calls
    made, in order, and how it ends. *)
Definition logged (A : Type) : Type := list (LogLevel * string) * outcome A.

Definition lret {A : Type} (a : A) : logged A := ([], Ok a).

Definition lift {A : Type} (o : outcome A) : logged A := ([], o).

Definition lbind {A B : Type} (c : logged A) (k : A -> logged B) : logged B :=
  match c.2 with
  | Ok a => let r := k a in (c.1 ++ r.1, r.2)
  | Throw e => (c.1, Throw e)
  | Undefined => (c.1, Undefined)
  | Exit code => (c.1, Exit code)
  end.

Notation "'dol' x <- c ; k" := (lbind c (fun x => k))
  (at level 10, x name, c at level 100, k at level 200).

Definition LOG (level : LogLevel) (msg : string) : logged unit := ([(level, msg)], Ok tt).

(** [LOG_FATAL_EXIT(msg)]: the message, then [exit(1)]. *)
Definition LOG_FATAL_EXIT {A : Type} (msg : string) : logged A := ([(FATAL, msg)], Exit 1).

(** [try { body } catch (char const* str) { handler }]: only a thrown
    [char const*] is caught; any other exception leaves the block. *)
Definition try_catch_char_ptr {A : Type} (body : logged A) (handler : string -> logged A)
  : logged A :=
  match body.2 with
  | Throw (char_const_ptr str) => let h := handler str in (body.1 ++ h.1, h.2)
  | _ => body
  end.

(** *** configfile.cc *)

(** [ConfigFile::content_], keyed by "section/entry". *)
Abbreviation ConfigFile := (gmap string string).

(** [ConfigFile::Value(section, entry)], lines 78-88. *)
Definition Value (cfile : ConfigFile) (section entry : string) : outcome string :=
  match cfile !! (section +:+ "/" +:+ entry) with
  | Some v => Ok v
  | None => Throw (runtime_error "does not exist")
  end.

(** *** Library functions the readers call *)

(** [isspace] in the "C" locale. *)
Definition isspace (c : ascii) : bool :=
  let n := nat_of_ascii c in
  (n =? 32)%nat || ((9 <=? n)%nat && (n <=? 13)%nat).

Definition digit_of (c : ascii) : option Z :=
  let n := Z.of_nat (nat_of_ascii c) in
  if decide (48 <= n <= 57) then Some (n - 48) else None.

(** [stream >> std::ws]: what is left after the leading white space. *)
Fixpoint ws (s : string) : string :=
  match s with
  | String c rest => if isspace c then ws rest else s
  | EmptyString => EmptyString
  end.

(** The characters up to the first [delim], and what follows it. *)
Fixpoint upto (delim : ascii) (s : string) : string * string :=
  match s with
  | EmptyString => (EmptyString, EmptyString)
  | String c rest =>
      if decide (c = delim) then (EmptyString, rest)
      else let r := upto delim rest in (String c r.1, r.2)
  end.

(** [std::getline(stream, line, delim)] on the input [s] that is left:
    it fails when there is nothing left to extract. *)
Definition getline (s : string) (delim : ascii) : option (string * string) :=
  match s with
  | EmptyString => None
  | _ => Some (upto delim s)
  end.

(** The value of the longest prefix of decimal digits, if it is not empty. *)
Fixpoint digits (s : string) (acc : option Z) : option Z :=
  match s with
  | String c rest =>
      match digit_of c with
      | Some d => digits rest (Some (10 * default 0 acc + d))
      | None => acc
      end
  | EmptyString => acc
  end.

(** [std::stoi(str)]: [strtol] in base 10, [std::invalid_argument] when
    no digit is found, [std::out_of_range] outside [int]. *)
Definition stoi (str : string) : outcome Z :=
  let s := ws str in
  let signed :=
    match s with
    | String "-" rest => (true, rest)
    | String "+" rest => (false, rest)
    | _ => (false, s)
    end in
  match digits signed.2 None with
  | None => Throw (invalid_argument "stoi")
  | Some v =>
      let v := if signed.1 then - v else v in
      if decide (INT_MIN <= v <= INT_MAX) then Ok v else Throw (out_of_range "stoi")
  end.

(** [inet_pton(AF_INET, src, dst) == 1] as the GNU C library decides it:
    four decimal fields of value at most 255, without a leading zero,
    separated by dots.  [octets] counts the fields begun, [cur] is the
    value of the field being read, if any. *)
Fixpoint inet_pton4_from (s : string) (octets : nat) (cur : option Z) : bool :=
  match s with
  | EmptyString => match cur with Some _ => (octets =? 4)%nat | None => false end
  | String c rest =>
      match digit_of c with
      | Some d =>
          match cur with
          | Some v =>
              if decide (v = 0) then false
              else if decide (10 * v + d > 255) then false
              else inet_pton4_from rest octets (Some (10 * v + d))
          | None =>
              if (4 <=? octets)%nat then false
              else inet_pton4_from rest (S octets) (Some d)
          end
      | None =>
          if decide (c = "."%char) then
            match cur with
            | Some _ => if (octets =? 4)%nat then false else inet_pton4_from rest octets None
            | None => false
            end
          else false
      end
  end.

Definition inet_pton4 (src : string) : bool := inet_pton4_from src 0 None.

(** *** WiperfUtility.cc: the configuration readers *)

Inductive AddrType : Set := CLIENT | SERVER.

Definition setAddrSrv (iaddr : string) (info : IfaceInfo) : IfaceInfo :=
  MkIfaceInfo iaddr (addrCli info) (sockaddrSrv info) (sockfd info)
    (nbytesAcc info) (ifaceId info).

Definition setAddrCli (iaddr : string) (info : IfaceInfo) : IfaceInfo :=
  MkIfaceInfo (addrSrv info) iaddr (sockaddrSrv info) (sockfd info)
    (nbytesAcc info) (ifaceId info).

(** [WiperfUtility::readAndSetLogLevel], lines 18-42: the level set. *)
Definition readAndSetLogLevel (cfile : ConfigFile) (secName : string) : logged LogLevel :=
  let logLevel := LOG_LEVEL_DEF in
  dol logLevel <-
    try_catch_char_ptr
      (dol logLevelInt <- lift (do v <- Value cfile secName "log-level"; stoi v);
       if decide (logLevelInt >= 0 /\ logLevelInt < NLOG_LEVELS)
       then lret (LogLevel_of_int logLevelInt)
       else
         dol _ <- LOG ERROR
           ("Config exception: section=, " +:+ secName +:+ " value=log-level, "
            +:+ "invalid value " +:+ pretty logLevelInt +:+ ". Acceptable range is (0, "
            +:+ pretty NLOG_LEVELS +:+ ". Reverting to default: "
            +:+ pretty (int_of_LogLevel logLevel));
         lret logLevel)
      (fun str =>
         dol _ <- LOG ERROR
           ("Config exception: section=, " +:+ secName +:+ " value=log-level, "
            +:+ str +:+ " using default value " +:+ pretty (int_of_LogLevel logLevel));
         lret logLevel);
  dol _ <- LOG MSG "Starting program...";
  lret logLevel.

(** [WiperfUtility::readPort], lines 44-66. *)
Definition readPort (cfile : ConfigFile) (secName : string) (defPort : Z) : logged Z :=
  let port := defPort in
  try_catch_char_ptr
    (dol portv <- lift (do v <- Value cfile secName "port"; stoi v);
     if decide (portv >= 1024 /\ portv <= 49151)
     then lret (wrap16 portv)
     else
       dol _ <- LOG ERROR
         ("Config exception: section=" +:+ secName +:+ ", value=port, "
          +:+ "invalid value " +:+ pretty portv +:+ ". Acceptable range is (1024, 49151)."
          +:+ " Reverting to default: " +:+ pretty defPort);
       lret port)
    (fun str =>
       dol _ <- LOG ERROR
         ("Config exception: section=" +:+ secName +:+ ", value=port:"
          +:+ str +:+ " using default value " +:+ pretty defPort);
       lret port).

(** The [ifaces] string of a section, lines 71-78 and 149-157. *)
Definition readIfacesStr (cfile : ConfigFile) (secName : string) : logged string :=
  let ifacesStr := IFACES_STR_DEF in
  try_catch_char_ptr
    (lift (Value cfile secName "ifaces"))
    (fun str =>
       dol _ <- LOG ERROR
         ("Config exception: section=" +:+ secName +:+ ", value=ifaces " +:+ str
          +:+ " using default value " +:+ ifacesStr);
       lret ifacesStr).

Section Readers.

(** [inet_pton(AF_INET, iaddr, ...) == 1]. *)
Variable inet_pton : string -> bool.

(** Line 108 declares [IfaceInfo ifaceInfo] without an initialiser, and
    lines 110-111 write [sockfd] and [ifaceId] only: the two strings are
    empty, [sockaddrSrv] is not set, and the counter [nbytesAcc] holds
    whatever the stack held.  [indeterminate iname] is that content for
    the record of [iname]. *)
Variable indeterminate : string -> Z.

(** Lines 98-134 of [readIfaces]: the address of an entry whose name was
    read; [esstream] is what follows the name. *)
Definition readAddress (secName : string) (addrType : AddrType)
    (iname esstream : string) (i : Z) (ifaceMap : IfaceInfoMap) : logged IfaceInfoMap :=
  match getline (ws esstream) " " with
  | Some (iaddr, _) =>
      if inet_pton iaddr then
        let ifaceMap :=
          match ifaceMap !! iname with
          | None =>
              <[iname := MkIfaceInfo "" "" None UNINITIALIZED_FD (indeterminate iname) i]>
                ifaceMap
          | Some _ => ifaceMap
          end in
        match addrType with
        | SERVER => lret (alter (setAddrSrv iaddr) iname ifaceMap)
        | CLIENT => lret (alter (setAddrCli iaddr) iname ifaceMap)
        end
      else
        dol _ <- LOG ERROR
          ("Config exception: section=" +:+ secName +:+ ", value=ifaces. "
           +:+ "Invalid IP address " +:+ iaddr +:+ " for interface " +:+ iname
           +:+ ". Ignoring entry.");
        lret ifaceMap
  | None =>
      dol _ <- LOG ERROR
        ("Config exception: section=" +:+ secName +:+ ", value=ifaces. "
         +:+ "Missing address for interface " +:+ iname +:+ ". Ignoring entry.");
      lret ifaceMap
  end.

(** Lines 85-137 of [readIfaces]: the loop over the entries; [sstream]
    is the input left and [i] the counter.  Every turn extracts at least
    one character, so a [fuel] above the length of the input is never
    used up. *)
Fixpoint readIfacesLoop (secName : string) (addrType : AddrType) (fuel : nat)
    (sstream : string) (i : Z) (ifaceMap : IfaceInfoMap) : logged IfaceInfoMap :=
  match fuel with
  | O => lret ifaceMap
  | S fuel =>
      match getline (ws sstream) "," with
      | None => lret ifaceMap
      | Some (ientry, sstream) =>
          match getline (ws ientry) " " with
          | None =>
              dol _ <- LOG ERROR
                ("Config exception: section=" +:+ secName +:+ ", value=ifaces. "
                 +:+ "Invalid interface entry " +:+ ientry +:+ ". Ignoring.");
              readIfacesLoop secName addrType fuel sstream i ifaceMap
          | Some (iname, esstream) =>
              dol ifaceMap <- readAddress secName addrType iname esstream i ifaceMap;
              readIfacesLoop secName addrType fuel sstream (i + 1) ifaceMap
          end
      end
  end.

(** [WiperfUtility::readIfaces], lines 68-145. *)
Definition readIfaces (cfile : ConfigFile) (secName : string) (addrType : AddrType)
    (ifaceMap : IfaceInfoMap) : logged IfaceInfoMap :=
  dol ifacesStr <- readIfacesStr cfile secName;
  dol ifaceMap <- readIfacesLoop secName addrType (S (String.length ifacesStr))
                    ifacesStr 0 ifaceMap;
  if decide (size ifaceMap = 0%nat) then
    LOG_FATAL_EXIT
      ("Config exception: section=" +:+ secName +:+ ", value=ifaces. "
       +:+ "No valid (interface name, address) pair provided")
  else lret ifaceMap.

(** Lines 163-178 of [readIfnames]. *)
Fixpoint readIfnamesLoop (secName : string) (fuel : nat) (sstream : string)
    (ifnames : list string) : logged (list string) :=
  match fuel with
  | O => lret ifnames
  | S fuel =>
      match getline (ws sstream) "," with
      | None => lret ifnames
      | Some (ientry, sstream) =>
          match getline (ws ientry) " " with
          | None =>
              dol _ <- LOG ERROR
                ("Config exception: section=" +:+ secName +:+ ", value=ifaces. "
                 +:+ "Invalid interface entry " +:+ ientry +:+ ". Ignoring.");
              readIfnamesLoop secName fuel sstream ifnames
          | Some (iname, _) =>
              readIfnamesLoop secName fuel sstream (ifnames ++ [iname])
          end
      end
  end.

(** [WiperfUtility::readIfnames], lines 147-188. *)
Definition readIfnames (cfile : ConfigFile) (secName : string) : logged (list string) :=
  dol ifacesStr <- readIfacesStr cfile secName;
  dol ifnames <- readIfnamesLoop secName (S (String.length ifacesStr)) ifacesStr [];
  match ifnames with
  | [] =>
      LOG_FATAL_EXIT
        ("Config exception: section=" +:+ secName +:+ ", value=ifaces. "
         +:+ "No valid interface name provided")
  | _ => lret ifnames
  end.

(** Both addresses are present. *)
Definition paired (entry : string * IfaceInfo) : Prop :=
  addrSrv entry.2 <> "" /\ addrCli entry.2 <> "".

Global Instance paired_dec entry : Decision (paired entry).
Proof. unfold paired. apply _. Defined.

(** What [DataReceiver::readConfig] leaves in the object. *)
Record DataReceiverConfig : Type := MkDataReceiverConfig {
  dr_logLevel : LogLevel;
  dr_portSrv : Z;
  dr_portCli : Z;
  dr_shared : DataReceiverShared
}.

(** [DataReceiver::readConfig], DataReceiver.cc 52-84, on the parsed file. *)
Definition DataReceiver_readConfig (cfile : ConfigFile) : logged DataReceiverConfig :=
  dol logLevel <- readAndSetLogLevel cfile "data-receiver";
  dol portSrv <- readPort cfile "data-receiver" PORT_SRV_DEF;
  dol ifaceMap <- readIfaces cfile "data-receiver" SERVER ∅;
  dol portCli <- readPort cfile "data-sender" PORT_CLI_DEF;
  dol ifaceMap <- readIfaces cfile "data-sender" CLIENT ifaceMap;
  let ifaceMap := filter paired ifaceMap in
  if decide (size ifaceMap = 0%nat) then
    LOG_FATAL_EXIT
      ("Config exception: section=data-receiver/data-sender, value=ifaces."
       +:+ " Don't have any matching receiver/sender interface pairs.")
  else
    lret (MkDataReceiverConfig logLevel portSrv portCli
            (MkDataReceiverShared ifaceMap ((fun _ => 0) <$> ifaceMap))).

End Readers.

(** *** DataSender::pickRandomIface (DataSender.cc 79-88) *)

(** [draw a b] stands for [intDistro(defEngine)]: the first value that a
    [std::uniform_int_distribution<int>(a, b)] takes from an engine
    seeded with 123123123.  The engine is built anew in every call, so
    the value depends on the bounds only; the library promises
    [a <= draw a b <= b]. *)
Definition pickRandomIface (draw : Z -> Z -> Z) (ifaces : IfaceInfoMap) : outcome string :=
  let idx := draw 0 (to_int32 (Z.of_nat (size ifaces))) in
  (* the iterator goes [idx] steps from [begin()] and is dereferenced *)
  match in_order ifaces !! Z.to_nat idx with
  | Some entry => Ok entry.1
  | None => Undefined
  end.

(** [std::minstd_rand0], which GNU libstdc++ takes as
    [std::default_random_engine]: the state after one step, also the
    value returned. *)
Definition minstd_rand0_next (x : Z) : Z := (16807 * x) mod 2147483647.

(** GNU libstdc++'s [uniform_int_distribution<int>(a, b)] on that engine
    (values 1 .. 2147483646): scale down, drawing again while the value
    falls in the incomplete last bucket. *)
Fixpoint libstdcxx_uniform_int (fuel : nat) (x a b : Z) : Z :=
  let urngrange := 2147483646 - 1 in
  let uerange := b - a + 1 in
  let scaling := urngrange / uerange in
  let past := uerange * scaling in
  let x' := minstd_rand0_next x in
  let ret := x' - 1 in
  if decide (ret < past) then a + ret / scaling
  else match fuel with
       | O => a
       | S fuel => libstdcxx_uniform_int fuel x' a b
       end.

Definition libstdcxx_draw (a b : Z) : Z := libstdcxx_uniform_int 64 123123123 a b.

(** *** Sockets (DataTransfer.cc 25-29 and 88-96) *)

(** The system calls of interest and what they returned. *)
Inductive Syscall : Type :=
  | sys_close (fd : Z) (ret : Z)
  | sys_eventfd_write (fd : Z) (value : Z).

(** The descriptors open in the process, the calls made so far and the
    messages handed to the log. *)
Record World : Type := MkWorld {
  open_fds : gset Z;
  calls : list Syscall;
  messages : list (LogLevel * string)
}.

(** [close(fd)]: 0 on an open descriptor, -1 ([EBADF]) otherwise. *)
Definition close (fd : Z) (w : World) : World :=
  if decide (fd ∈ open_fds w)
  then MkWorld (open_fds w ∖ {[fd]}) (calls w ++ [sys_close fd 0]) (messages w)
  else MkWorld (open_fds w) (calls w ++ [sys_close fd (-1)]) (messages w).

(** [DataTransfer::closeIfaceSocks]: the table itself is not written. *)
Definition closeIfaceSocks (ifaces : IfaceInfoMap) (w : World) : World :=
  foldl (fun w entry =>
           let sockfd := sockfd entry.2 in
           if decide (sockfd <> UNINITIALIZED_FD) then close sockfd w else w)
        w (in_order ifaces).

(** The fields of [DataTransfer] that [stopThread] touches, with the
    [stopFlag] of the two derived classes. *)
Record StopState : Type := MkStopState {
  endProgram_ : bool;
  wakefd_ : Z;
  stopFlag : bool
}.

(** [DataTransfer::stopThread]. *)
Definition DataTransfer_stopThread (st : StopState) (w : World) : StopState * World :=
  (MkStopState true (wakefd_ st) (stopFlag st),
   MkWorld (open_fds w) (calls w ++ [sys_eventfd_write (wakefd_ st) 1])
     (messages w ++ [(MSG, "program killed")])).

(** [DataReceiver::stopThread] and [DataSender::stopThread]. *)
Definition stopThread (st : StopState) (w : World) : StopState * World :=
  let r := DataTransfer_stopThread st w in
  (MkStopState (endProgram_ r.1) (wakefd_ r.1) true, r.2).

(** DataSender.cc 115-119 and 215-222: what [DataSender::commThread]
    does with the sockets once the sending has ended.  With decision
    level 0, [sendEveryInterface] has closed them before it returns. *)
Definition DataSender_cleanup (decisionLevel : Z) (ifaces : IfaceInfoMap) (w : World) : World :=
  let w := if decide (decisionLevel = 0) then closeIfaceSocks ifaces w else w in
  closeIfaceSocks ifaces w.

(** The descriptors on which a run called [close], in order. *)
Definition closedFds (cs : list Syscall) : list Z :=
  omap (fun c => match c with sys_close fd _ => Some fd | _ => None end) cs.

(** The handles of a table that were opened, in the order of the table. *)
Definition openedHandles (ifaces : IfaceInfoMap) : list Z :=
  filter (fun fd => fd <> UNINITIALIZED_FD) ((fun entry => sockfd entry.2) <$> in_order ifaces).

(** *** Example configurations *)

(** A configuration file for one interface, with every key that
    [DataReceiver::readConfig] reads. *)
Definition loopbackConfig : gmap string string :=
  <["data-receiver/log-level" := "1"]>
    (<["data-receiver/port" := "44444"]>
       (<["data-sender/port" := "44443"]>
          (<["data-receiver/ifaces" := "lo 127.0.0.1"]>
             (<["data-sender/ifaces" := "lo 127.0.0.1"]> ∅)))).


(** An example of what the counters hold before they are first written. *)
Definition staleCounter : string -> Z := fun _ => 3735928559.

(** What [DataReceiver::readConfig] makes of [loopbackConfig] then. *)
Definition loopbackReceiver : DataReceiverConfig :=
  MkDataReceiverConfig ERROR 44444 44443
    (MkDataReceiverShared
       (<["lo" := MkIfaceInfo "127.0.0.1" "127.0.0.1" None UNINITIALIZED_FD
                    (staleCounter "lo") 0]> ∅)
       (<["lo" := 0]> ∅)).

(** *** std::string operations used by configfile.cc *)

(** [std::string::npos], the largest [size_type]. *)
Definition npos : Z := 2^64 - 1.

(** The [size_type] a search returns: the position, or [npos]. *)
Definition size_type (r : option nat) : Z :=
  match r with Some i => Z.of_nat i | None => npos end.

Fixpoint str_mem (c : ascii) (chars : string) : bool :=
  match chars with
  | EmptyString => false
  | String x rest => if decide (x = c) then true else str_mem c rest
  end.

(** [s.find(c)]. *)
Fixpoint str_find (c : ascii) (s : string) : option nat :=
  match s with
  | EmptyString => None
  | String x rest => if decide (x = c) then Some 0%nat else S <$> str_find c rest
  end.

(** [s.find_first_not_of(delims)]. *)
Fixpoint find_first_not_of (delims s : string) : option nat :=
  match s with
  | EmptyString => None
  | String x rest =>
      if str_mem x delims then S <$> find_first_not_of delims rest else Some 0%nat
  end.

(** [s.find_last_not_of(delims)]. *)
Fixpoint find_last_not_of (delims s : string) : option nat :=
  match s with
  | EmptyString => None
  | String x rest =>
      match find_last_not_of delims rest with
      | Some i => Some (S i)
      | None => if str_mem x delims then None else Some 0%nat
      end
  end.

Fixpoint str_take (n : nat) (s : string) : string :=
  match n, s with
  | S n, String c rest => String c (str_take n rest)
  | _, _ => EmptyString
  end.

Fixpoint str_drop (n : nat) (s : string) : string :=
  match n, s with
  | S n, String _ rest => str_drop n rest
  | _, _ => s
  end.

(** [s.substr(pos, count)]; a call without [count] passes [npos]. *)
Definition substr (s : string) (pos count : Z) : outcome string :=
  let size := Z.of_nat (String.length s) in
  if decide (pos > size) then Throw (out_of_range "basic_string::substr")
  else Ok (str_take (Z.to_nat (Z.min count (size - pos))) (str_drop (Z.to_nat pos) s)).

(** [s.erase(index, count)]; a call without [count] passes [npos], and
    [s.erase()] is [s.erase(0, npos)]. *)
Definition erase (s : string) (index count : Z) : outcome string :=
  let size := Z.of_nat (String.length s) in
  if decide (index > size) then Throw (out_of_range "basic_string::erase")
  else Ok (str_take (Z.to_nat index) s
           +:+ str_drop (Z.to_nat (index + Z.min count (size - index))) s).

Fixpoint str_all (P : ascii -> bool) (s : string) : bool :=
  match s with
  | EmptyString => true
  | String c rest => P c && str_all P rest
  end.

Definition str_head (s : string) : option ascii :=
  match s with EmptyString => None | String c _ => Some c end.

(** *** configfile.cc: [trim] and the constructor *)

(** The default [delims] of [trim]: space, tab, carriage return, line feed. *)
Definition TRIM_DELIMS : string :=
  String " " (String "009" (String "013" (String "010" EmptyString))).

(** [trim(source, delims)], lines 17-30. *)
Definition trim (source delims : string) : outcome string :=
  let result := source in
  let index := size_type (find_last_not_of delims result) in
  do result <- (if decide (index <> npos)
                then erase result (wrap64 (index + 1)) npos
                else Ok result);
  let index := size_type (find_first_not_of delims result) in
  if decide (index <> npos) then erase result 0 index
  else erase result 0 npos.

(** The object under construction: [content_], [sections_] and the
    local [inSection] of the constructor. *)
Record ConfigParse : Type := MkConfigParse {
  content_ : gmap string string;
  sections_ : list string;
  inSection : string
}.

(** Lines 49-69, the body of the loop for one [line]. *)
Definition parseLine (line : string) (st : ConfigParse) : outcome ConfigParse :=
  match line with
  | EmptyString => Ok st
  | String c0 _ =>
      if decide (c0 = "#"%char) then Ok st
      else if decide (c0 = "["%char) then
        do sub <- substr line 1 (wrap64 (size_type (str_find "]" line) - 1));
        do sec <- trim sub TRIM_DELIMS;
        Ok (MkConfigParse (content_ st) (sections_ st ++ [sec]) sec)
      else
        let posHash := size_type (str_find "#" line) in
        do line <- (if decide (posHash <> npos) then substr line 0 posHash else Ok line);
        let posEqual := size_type (str_find "=" line) in
        do sub <- substr line 0 posEqual;
        do name <- trim sub TRIM_DELIMS;
        do sub <- substr line (wrap64 (posEqual + 1)) npos;
        do value <- trim sub TRIM_DELIMS;
        Ok (MkConfigParse (<[inSection st +:+ "/" +:+ name := value]> (content_ st))
              (sections_ st) (inSection st))
  end.

(** Lines 47-70: [while (std::getline(file, line))] on the text that is
    left of the file.  Every turn extracts at least one character, so a
    [fuel] above the length of the text is never used up. *)
Fixpoint ConfigFile_loop (fuel : nat) (file : string) (st : ConfigParse) : outcome ConfigParse :=
  match fuel with
  | O => Ok st
  | S fuel =>
      match getline file "010" with
      | None => Ok st
      | Some (line, file) =>
          do st <- parseLine line st;
          ConfigFile_loop fuel file st
      end
  end.

(** [ConfigFile::ConfigFile(configFile)], lines 32-71; [file] is the
    text of the file, if it can be opened. *)
Definition ConfigFile_new (configFile : string) (file : option string) : logged ConfigParse :=
  match file with
  | Some text =>
      lift (ConfigFile_loop (S (String.length text)) text (MkConfigParse ∅ [] ""))
  | None =>
      dol _ <- LOG ERROR ("Could not open config file " +:+ String "034" configFile
                          +:+ String "034" ". Will use defaults.");
      lret (MkConfigParse ∅ [] "")
  end.

(** [ConfigFile::GetSections]. *)
Definition GetSections (cf : ConfigParse) : list string := sections_ cf.

(** [ConfigFile::Value(section, entry, value)], lines 91-100: the map
    afterwards and the string returned. *)
Definition Value_default (cfile : gmap string string) (section entry value : string)
  : outcome (string * gmap string string) :=
  match Value cfile section entry with
  | Ok v => Ok (v, cfile)
  | Throw (char_const_ptr _) =>
      let key := section +:+ "/" +:+ entry in
      match cfile !! key with
      | Some v => Ok (v, cfile)
      | None => Ok (value, <[key := value]> cfile)
      end
  | Throw e => Throw e
  | Undefined => Undefined
  | Exit code => Exit code
  end.


(** *** Vocabulary for the configuration text *)

(** The shape of a trimmed string: empty, or with a first and a last
    character that are not among [delims]. *)
Definition trimmed (delims r : string) : Prop :=
  r = "" \/ exists c q d e, r = String c q /\ r = d +:+ String e "" /\
                            str_mem c delims = false /\ str_mem e delims = false.

(** A line feed, and the text of a file made of the given lines. *)
Definition LF : string := String "010" EmptyString.

(** Text that can stand for a section, a name or a value in a file: it
    has none of the characters [special], [trim] leaves it as it is, and
    it is far shorter than the longest [std::string]. *)
Definition plain (special s : string) : Prop :=
  Z.of_nat (String.length s) < 2^32 /\
  str_all (fun c => negb (str_mem c special)) s = true /\
  trim s TRIM_DELIMS = Ok s.

(** A value as the constructor stores them: without a comment and
    without white space at its ends. *)
Definition clean_value (v : string) : Prop :=
  str_find "#" v = None /\ trim v TRIM_DELIMS = Ok v.

(** A small configuration text. *)
Definition sampleConfigText : string :=
  "# WiPerf" +:+ LF +:+ "[data-receiver]" +:+ LF +:+ "port = 44444   # server port" +:+ LF
  +:+ "ifaces = lo 127.0.0.1 , wlan0 10.0.0.1" +:+ LF.

(** *** DataTransfer::createSockaddr (DataTransfer.cc 60-83) *)

(** [htons] of <arpa/inet.h>. *)
Definition htons (host : endianness) (v : Z) : Z :=
  if is_little host then le_value (rev (le_bytes 2 v)) else wrap16 v.

(** [inet_pton] answers 1 for an address it accepts and 0 for one it
    does not; the answer -1 is kept for an address family it does not
    know, which [AF_INET] is not, so that of the two fatal branches only
    the second is taken. *)
Definition createSockaddr (inet_pton : string -> bool) (host : endianness)
    (ifaces : IfaceInfoMap) (addrStr : string) (port : Z) (w : World)
  : World * outcome sockaddr_in :=
  let rv := if inet_pton addrStr then 1 else 0 in
  if decide (rv <> 1) then
    let w := closeIfaceSocks ifaces w in
    let str := "rthread inet_pton() addr " +:+ addrStr in
    (MkWorld (open_fds w) (calls w) (messages w ++ [(FATAL, str)]), Exit 1)
  else (w, Ok (MkSockaddr addrStr (htons host port))).

(** *** DataReceiver::commThread: attaching the interfaces (DataReceiver.cc 97-138) *)

(** What the system answers while an interface is attached: the results
    of [socket], of the outer [fcntl] and of [bind], and the text that
    [strerror(errno)] gives after a call that failed. *)
Record AttachAnswers : Type := MkAttachAnswers {
  socket_ret : Z;
  fcntl_ret : Z;
  bind_ret : Z;
  strerror_errno : string
}.

(** [LogFile::writeLog(level, msg, ...)] on the messages of the world. *)
Definition writeLog (level : LogLevel) (msg : string) (w : World) : World :=
  MkWorld (open_fds w) (calls w) (messages w ++ [(level, msg)]).

(** [LOG_FATAL_PERROR_EXIT(msg)]: the message with the text of [errno],
    then [exit(1)]. *)
Definition LOG_FATAL_PERROR_EXIT {A : Type} (msg : string) (answers : AttachAnswers)
    (w : World) : World * outcome A :=
  (writeLog FATAL (msg +:+ ": " +:+ strerror_errno answers) w, Exit 1).

(** Lines 133-134: the handle is stored and the counter is set to zero. *)
Definition attached (sockfd : Z) (ifaceInfo : IfaceInfo) : IfaceInfo :=
  MkIfaceInfo (addrSrv ifaceInfo) (addrCli ifaceInfo) (sockaddrSrv ifaceInfo)
    sockfd 0 (ifaceId ifaceInfo).

(** Lines 97-136, the loop over the table: [entries] are the elements
    still to visit, [ifaces] is the table as the turns before have left
    it, which is the table that [closeIfaceSocks] walks through. *)
Fixpoint attachLoop (inet_pton : string -> bool) (host : endianness)
    (sys : string -> AttachAnswers) (portSrv : Z)
    (entries : list (string * IfaceInfo)) (ifaces : IfaceInfoMap) (w : World)
  : World * outcome IfaceInfoMap :=
  match entries with
  | [] => (w, Ok ifaces)
  | (iname, ifaceInfo) :: entries =>
      let iaddrStr := addrSrv ifaceInfo in
      let w := writeLog MSG ("Attaching interface " +:+ iname +:+ " @ " +:+ iaddrStr
                             +:+ ":" +:+ pretty portSrv) w in
      let answers := sys iname in
      let sockfd := socket_ret answers in
      if decide (sockfd < 0) then LOG_FATAL_PERROR_EXIT "rthread socket()" answers w
      else
        let w := MkWorld (open_fds w ∪ {[sockfd]}) (calls w) (messages w) in
        if decide (fcntl_ret answers < 0) then
          LOG_FATAL_PERROR_EXIT "rthread fcntl()" answers (closeIfaceSocks ifaces w)
        else
          let r := createSockaddr inet_pton host ifaces iaddrStr portSrv w in
          match r.2 with
          | Ok _ =>
              if decide (bind_ret answers < 0) then
                LOG_FATAL_PERROR_EXIT ("rthread bind() addr " +:+ iaddrStr) answers
                  (closeIfaceSocks ifaces r.1)
              else
                attachLoop inet_pton host sys portSrv entries
                  (alter (attached sockfd) iname ifaces) r.1
          | Throw e => (r.1, Throw e)
          | Undefined => (r.1, Undefined)
          | Exit code => (r.1, Exit code)
          end
  end.

(** [DataReceiver::commThread] up to line 138, before the workers start. *)
Definition DataReceiver_attach (inet_pton : string -> bool) (host : endianness)
    (sys : string -> AttachAnswers) (portSrv : Z) (ifaces : IfaceInfoMap) (w : World)
  : World * outcome IfaceInfoMap :=
  let r := attachLoop inet_pton host sys portSrv (in_order ifaces) ifaces w in
  match r.2 with
  | Ok ifaces => (writeLog MSG "program up and running" r.1, Ok ifaces)
  | _ => r
  end.

(** *** Vocabulary for the interface lists *)

(** A word of an interface list: not empty, without white space and
    without a comma. *)
Definition token (s : string) : Prop :=
  s <> "" /\ str_all (fun c => negb (isspace c) && negb (bool_decide (c = ","%char))) s = true.

(** The text of an entry and of a list of entries. *)
Definition ifacesEntry (e : string * string) : string := e.1 +:+ " " +:+ e.2.

Definition ifacesValue (entries : list (string * string)) : string :=
  String.concat ", " (ifacesEntry <$> entries).

(** What is left of the text of a list after its first entry and the
    comma that follows it. *)
Definition afterEntry (entries : list (string * string)) : string :=
  match entries with [] => "" | _ => " " +:+ ifacesValue entries end.

(** What the readers keep true of a table: no handle is set, and an
    address that is set is one that [inet_pton] accepts. *)
Definition table_fresh (inet_pton : string -> bool) (m : IfaceInfoMap) : Prop :=
  forall name info, m !! name = Some info ->
    sockfd info = UNINITIALIZED_FD /\
    (addrSrv info = "" \/ inet_pton (addrSrv info) = true) /\
    (addrCli info = "" \/ inet_pton (addrCli info) = true).

(** *** FeedbackReceiver::commThread: the receive loop (FeedbackReceiver.cc 296-322) *)

(** [recv(sockfd, buf, len, 0)] on the non-blocking datagram socket, with
    [queue] the datagrams that wait on it: the first datagram is taken,
    at most [len] of its bytes are copied to the start of [buf] and their
    number is returned; with no datagram waiting the answer is -1. *)
Definition recv (queue : list (list byte)) (buf : list byte) (len : Z)
  : outcome (Z * list byte * list (list byte)) :=
  match queue with
  | [] => Ok (-1, buf, [])
  | datagram :: queue =>
      let n := Z.min len (Z.of_nat (length datagram)) in
      do buf <- defined (write_at buf 0 (take (Z.to_nat n) datagram));
      Ok (n, buf, queue)
  end.

(** Lines 302-304: [while ((nbytes = recv(sockfd, rcvBuf, size-total-1, 0)) > 0)
    total += nbytes;].  Every turn takes a datagram, so a [fuel] above
    the length of the queue is never used up. *)
Fixpoint recvLoop (fuel : nat) (queue : list (list byte)) (rcvBuf : list byte) (total : Z)
  : outcome (list byte * Z * list (list byte)) :=
  match fuel with
  | O => Ok (rcvBuf, total, queue)
  | S fuel =>
      let size := FEEDBACK_RCV_BUF_LEN in
      do r <- recv queue rcvBuf (wrap64 (size - total - 1));
      let nbytes := to_int32 r.1.1 in
      if decide (nbytes > 0)
      then recvLoop fuel r.2 r.1.2 (wrap64 (total + nbytes))
      else Ok (r.1.2, total, r.2)
  end.

Section Reception.

Variable double : Type.
Variable gt_half : double -> bool.

(** Lines 259 and 296-322: one pass of the loop of [commThread] after
    [select] has reported the socket readable; the records handed to the
    database, the table afterwards and the datagrams left. *)
Definition receiveFeedback (host : endianness) (feedbackInterval : Z)
    (dataSenderIfnames : list string) (ifaces : IfaceInfoMap)
    (queue : list (list byte)) (currentInfo : GpsFix double)
  : outcome (list (DatabaseInfo double) * IfaceInfoMap * list (list byte)) :=
  let rcvBuf := replicate (Z.to_nat FEEDBACK_RCV_BUF_LEN) x00 in
  do r <- recvLoop (S (length queue)) queue rcvBuf 0;
  let total := r.1.2 in
  do rcvBuf <- defined (write_at r.1.1 total [x00]);
  if decide (total > 0) then
    do d <- readFeedbackMessage gt_half host feedbackInterval dataSenderIfnames ifaces
              rcvBuf currentInfo;
    Ok (d.1, d.2, r.2)
  else Ok ([], ifaces, r.2).

End Reception.

Arguments receiveFeedback {double}.

(** *** DataSender::sendOneInterface (DataSender.cc 122-149) *)

(** The table, the fields [decision] and [decisionExpiresAt], and the key
    of the element of the table that the reference [iinfo] is bound to. *)
Record OneInterface : Type := MkOneInterface {
  oi_ifaceMap : IfaceInfoMap;
  oi_decision : string;
  oi_decisionExpiresAt : Z;
  oi_iinfo : string
}.

(** Lines 129-131: the first pick; [ifaceMap[decision]] binds [iinfo]. *)
Definition sendOneInterface_start (draw : Z -> Z -> Z) (ifaces : IfaceInfoMap)
  : outcome OneInterface :=
  do decision <- pickRandomIface draw ifaces;
  Ok (MkOneInterface (subscript ifaces decision) decision 0 decision).

(** Lines 135-146, one turn of the loop: the state afterwards and the
    handle given to [sendto].  [now] is the clock as read at line 123,
    before the loop.  The assignment [iinfo = ifaceMap[decision]] copies
    the record of the new pick into the element [iinfo] is bound to. *)
Definition sendOneInterface_turn (draw : Z -> Z -> Z) (now : Z) (st : OneInterface)
  : outcome (OneInterface * Z) :=
  do st <- (if decide (now > oi_decisionExpiresAt st) then
              do decision <- pickRandomIface draw (oi_ifaceMap st);
              let ifaceMap := subscript (oi_ifaceMap st) decision in
              do picked <- defined (ifaceMap !! decision);
              Ok (MkOneInterface (<[oi_iinfo st := picked]> ifaceMap) decision
                    (wrap64 (now + 333)) (oi_iinfo st))
            else Ok st);
  do iinfo <- defined (oi_ifaceMap st !! oi_iinfo st);
  Ok (st, sockfd iinfo).

(** [turns] turns of the loop, after which [endProgram_] is found set:
    the handles given to [sendto], in order. *)
Fixpoint sendOneInterface_loop (draw : Z -> Z -> Z) (now : Z) (turns : nat)
    (st : OneInterface) : outcome (OneInterface * list Z) :=
  match turns with
  | O => Ok (st, [])
  | S turns =>
      do r <- sendOneInterface_turn draw now st;
      do rest <- sendOneInterface_loop draw now turns r.1;
      Ok (rest.1, r.2 :: rest.2)
  end.

(** [DataSender::sendOneInterface]. *)
Definition sendOneInterface (draw : Z -> Z -> Z) (now : Z) (turns : nat)
    (ifaces : IfaceInfoMap) : outcome (OneInterface * list Z) :=
  do st <- sendOneInterface_start draw ifaces;
  sendOneInterface_loop draw now turns st.

(** *** The RAT enumeration (WiperfUtility.hpp 44, WiperfUtility.cc 333-370) *)

Inductive RAT : Set := RAT_invalid | loopback | n80211 | ac80211 | ad80211 | g5nr.

Global Instance RAT_eq_dec : EqDecision RAT.
Proof. solve_decision. Defined.

(** [WiperfUtility::ifaceToRat]. *)
Definition ifaceToRat (ifaceName : string) : RAT :=
  if decide (ifaceName = "lo") then loopback
  else if decide (ifaceName = "802.11n") then n80211
  else if decide (ifaceName = "802.11ad") then ad80211
  else if decide (ifaceName = "802.11ac") then ac80211
  else RAT_invalid.

(** [WiperfUtility::ratToIface]. *)
Definition ratToIface (rat : RAT) : string :=
  if decide (rat = RAT_invalid) then "invalid"
  else if decide (rat = loopback) then "lo"
  else if decide (rat = n80211) then "802.11n"
  else if decide (rat = ac80211) then "802.11ac"
  else if decide (rat = ad80211) then "802.11ad"
  else "invalid".

(** ** Part II: properties *)

Section ByteFacts.

Lemma Z_of_byte_range b : 0 <= Z_of_byte b < 256.
Proof.
  unfold Z_of_byte. pose proof (Byte.to_N_bounded b). lia.
Qed.

Lemma Z_of_byte_of_Z z : Z_of_byte (byte_of_Z z) = z mod 256.
Proof.
  unfold Z_of_byte, byte_of_Z.
  assert (Hr : 0 <= z mod 256 < 256) by (apply Z.mod_pos_bound; lia).
  destruct (Byte.of_N (Z.to_N (z mod 256))) as [b|] eqn:E.
  - apply Byte.to_of_N in E. rewrite E. lia.
  - apply Byte.of_N_None_iff in E. lia.
Qed.

Lemma byte_of_Z_of_byte b : byte_of_Z (Z_of_byte b) = b.
Proof.
  unfold byte_of_Z. pose proof (Z_of_byte_range b) as Hr.
  rewrite Z.mod_small by lia. unfold Z_of_byte. rewrite N2Z.id.
  by rewrite Byte.of_to_N.
Qed.

Lemma byte_of_Z_mod z : byte_of_Z (z mod 256) = byte_of_Z z.
Proof. unfold byte_of_Z. by rewrite Z.mod_mod by lia. Qed.

Lemma length_le_bytes n v : length (le_bytes n v) = n.
Proof. revert v. induction n as [|n IH]; intros v; simpl; [done|by rewrite IH]. Qed.

Lemma length_be_bytes n v : length (be_bytes n v) = n.
Proof. unfold be_bytes. by rewrite length_rev, length_le_bytes. Qed.

Lemma le_value_range bs : 0 <= le_value bs < 2 ^ (8 * Z.of_nat (length bs)).
Proof.
  induction bs as [|b bs IH]; simpl length.
  - simpl. lia.
  - cbn [le_value]. pose proof (Z_of_byte_range b).
    replace (8 * Z.of_nat (S (length bs))) with (8 + 8 * Z.of_nat (length bs)) by lia.
    rewrite Z.pow_add_r by lia. change (2^8) with 256 in *. nia.
Qed.

Lemma le_value_le_bytes n v : le_value (le_bytes n v) = v mod 2 ^ (8 * Z.of_nat n).
Proof.
  revert v. induction n as [|n IH]; intros v.
  - simpl. by rewrite Z.mod_1_r.
  - cbn [le_bytes le_value]. rewrite IH, Z_of_byte_of_Z, Z.shiftr_div_pow2 by lia.
    replace (8 * Z.of_nat (S n)) with (8 + 8 * Z.of_nat n) by lia.
    rewrite Z.pow_add_r by lia. change (2^8) with 256.
    rewrite (Z.rem_mul_r v 256) by lia. lia.
Qed.

Lemma le_bytes_le_value bs : le_bytes (length bs) (le_value bs) = bs.
Proof.
  induction bs as [|b bs IH]; [done|].
  cbn [length le_bytes le_value]. pose proof (Z_of_byte_range b) as Hb.
  f_equal.
  - rewrite <- byte_of_Z_mod. change (2^8) with 256.
    replace ((Z_of_byte b + 256 * le_value bs) mod 256) with (Z_of_byte b).
    + apply byte_of_Z_of_byte.
    + rewrite (Z.mul_comm 256), Z.mod_add by lia. by rewrite Z.mod_small by lia.
  - rewrite Z.shiftr_div_pow2 by lia. change (2^8) with 256.
    replace ((Z_of_byte b + 256 * le_value bs) / 256) with (le_value bs); [done|].
    rewrite (Z.mul_comm 256), Z.div_add by lia.
    by rewrite (Z.div_small (Z_of_byte b)) by lia.
Qed.

Lemma le_value_app a b :
  le_value (a ++ b) = le_value a + 2 ^ (8 * Z.of_nat (length a)) * le_value b.
Proof.
  induction a as [|x a IH]; cbn [app le_value length].
  - change (8 * Z.of_nat 0) with 0. lia.
  - rewrite IH.
    replace (8 * Z.of_nat (S (length a))) with (8 + 8 * Z.of_nat (length a)) by lia.
    rewrite Z.pow_add_r by lia. lia.
Qed.

Lemma be_value_be_bytes n v : be_value (be_bytes n v) = v mod 2 ^ (8 * Z.of_nat n).
Proof. unfold be_value, be_bytes. by rewrite rev_involutive, le_value_le_bytes. Qed.

Lemma be_bytes_be_value bs : be_bytes (length bs) (be_value bs) = bs.
Proof.
  unfold be_value, be_bytes. rewrite <- (length_rev bs).
  by rewrite le_bytes_le_value, rev_involutive.
Qed.

Lemma be_value_range bs : 0 <= be_value bs < 2 ^ (8 * Z.of_nat (length bs)).
Proof. unfold be_value. rewrite <- (length_rev bs). apply le_value_range. Qed.

Lemma be_value_app a b :
  be_value (a ++ b) = be_value a * 2 ^ (8 * Z.of_nat (length b)) + be_value b.
Proof. unfold be_value. rewrite rev_app_distr, le_value_app, length_rev. lia. Qed.

Lemma le_bytes_mod n v : le_bytes n (v mod 2 ^ (8 * Z.of_nat n)) = le_bytes n v.
Proof.
  rewrite <- le_value_le_bytes.
  rewrite <- (length_le_bytes n v) at 1. apply le_bytes_le_value.
Qed.

Lemma be_bytes_mod n v : be_bytes n (v mod 2 ^ (8 * Z.of_nat n)) = be_bytes n v.
Proof. unfold be_bytes. by rewrite le_bytes_mod. Qed.

Lemma le_bytes_app n m v :
  le_bytes (n + m) v = le_bytes n v ++ le_bytes m (Z.shiftr v (8 * Z.of_nat n)).
Proof.
  revert v. induction n as [|n IH]; intros v.
  - simpl. by rewrite Z.shiftr_0_r.
  - cbn [Nat.add le_bytes app]. rewrite IH.
    rewrite Z.shiftr_shiftr by lia.
    by replace (8 + 8 * Z.of_nat n) with (8 * Z.of_nat (S n)) by lia.
Qed.

Lemma be_bytes_app n m v :
  be_bytes (n + m) v = be_bytes m (Z.shiftr v (8 * Z.of_nat n)) ++ be_bytes n v.
Proof. unfold be_bytes. by rewrite le_bytes_app, rev_app_distr. Qed.

Lemma lor_shifted_small hi lo :
  0 <= lo < 2^32 -> 0 <= hi -> Z.lor (Z.shiftl hi 32) lo = hi * 2^32 + lo.
Proof.
  intros Hlo Hhi. rewrite <- Z.shiftl_mul_pow2 by lia.
  rewrite <- Z.lxor_lor, <- Z.add_nocarry_lxor; try done.
  all: apply Z.bits_inj'; intros n Hn; rewrite Z.land_spec, Z.bits_0.
  all: destruct (decide (n < 32)) as [Hlt|Hge].
  all: try (rewrite Z.shiftl_spec_low by lia; done).
  all: rewrite <- (Z.mod_small lo (2^32)) by lia.
  all: rewrite Z.mod_pow2_bits_high by lia; apply andb_false_r.
Qed.

Lemma bswap32_range v : 0 <= bswap32 v < 2^32.
Proof.
  unfold bswap32.
  pose proof (le_value_range (rev (le_bytes 4 v))) as H.
  by rewrite length_rev, length_le_bytes in H.
Qed.

Lemma bswap32_le_value bs : length bs = 4%nat -> bswap32 (le_value bs) = be_value bs.
Proof.
  intros Hlen. unfold bswap32, be_value.
  by rewrite <- Hlen, le_bytes_le_value.
Qed.

Lemma le_bytes_bswap32 v : le_bytes 4 (bswap32 v) = be_bytes 4 v.
Proof.
  unfold bswap32, be_bytes.
  rewrite <- (length_le_bytes 4 v) at 1. rewrite <- length_rev.
  apply le_bytes_le_value.
Qed.

(** What [htonl] leaves in memory is the big-endian image, on either host. *)
Lemma host_bytes_htonl host v : host_bytes host 4 (htonl host v) = be_bytes 4 v.
Proof.
  destruct host; unfold host_bytes, htonl; cbn [is_little].
  - apply le_bytes_bswap32.
  - apply (be_bytes_mod 4).
Qed.

Lemma ntohl_host_value host bs :
  length bs = 4%nat -> ntohl host (host_value host bs) = be_value bs.
Proof.
  intros Hlen. destruct host; unfold ntohl, htonl, host_value; cbn [is_little].
  - by apply bswap32_le_value.
  - unfold wrap32. pose proof (be_value_range bs) as H. rewrite Hlen in H.
    apply Z.mod_small. exact H.
Qed.

Lemma host_bytes_htonll host v : host_bytes host 8 (htonll host v) = be_bytes 8 v.
Proof.
  destruct host; unfold host_bytes, htonll; cbn [is_little]; [|done].
  unfold htonl; cbn [is_little].
  set (hi := bswap32 (wrap32 (Z.shiftr v 32))).
  set (lo := bswap32 (wrap32 (Z.land v 4294967295))).
  pose proof (bswap32_range (wrap32 (Z.shiftr v 32))) as Hhi. fold hi in Hhi.
  pose proof (bswap32_range (wrap32 (Z.land v 4294967295))) as Hlo. fold lo in Hlo.
  assert (Hw : wrap64 (Z.shiftl lo 32) = Z.shiftl lo 32).
  { unfold wrap64. rewrite Z.shiftl_mul_pow2 by lia. apply Z.mod_small. lia. }
  rewrite Hw, lor_shifted_small by lia.
  change (be_bytes 8 v) with (be_bytes (4 + 4) v). rewrite be_bytes_app.
  change (8 * Z.of_nat 4) with 32.
  replace (lo * 2^32 + hi) with (le_value (be_bytes 4 (Z.shiftr v 32) ++ be_bytes 4 v)).
  - rewrite <- (le_bytes_le_value (be_bytes 4 (Z.shiftr v 32) ++ be_bytes 4 v)) at 2.
    by rewrite length_app, !length_be_bytes.
  - rewrite le_value_app, length_be_bytes. change (8 * Z.of_nat 4) with 32.
    subst hi lo. unfold bswap32, wrap32.
    change 4294967295 with (Z.ones 32). rewrite Z.land_ones by lia.
    change (2^32) with (2 ^ (8 * Z.of_nat 4)). rewrite !le_bytes_mod.
    unfold be_bytes. lia.
Qed.

Lemma ntohll_host_value host bs :
  length bs = 8%nat -> ntohll host (host_value host bs) = be_value bs.
Proof.
  intros Hlen. destruct host; unfold ntohll, host_value; cbn [is_little]; [|done].
  rewrite <- (take_drop 4 bs).
  set (a := take 4 bs). set (b := drop 4 bs).
  assert (Ha : length a = 4%nat) by (subst a; rewrite length_take; lia).
  assert (Hb : length b = 4%nat) by (subst b; rewrite length_drop; lia).
  pose proof (le_value_range a) as Ra. rewrite Ha in Ra. change (8 * Z.of_nat 4) with 32 in Ra.
  pose proof (le_value_range b) as Rb. rewrite Hb in Rb. change (8 * Z.of_nat 4) with 32 in Rb.
  rewrite le_value_app, be_value_app, Ha, Hb. change (8 * Z.of_nat 4) with 32.
  assert (Hhigh : wrap32 (Z.shiftr (le_value a + 2^32 * le_value b) 32) = le_value b).
  { unfold wrap32. rewrite Z.shiftr_div_pow2 by lia.
    rewrite (Z.mul_comm (2^32)), Z.div_add by lia.
    rewrite (Z.div_small (le_value a)) by lia. apply Z.mod_small. lia. }
  assert (Hlow : wrap32 (Z.land (le_value a + 2^32 * le_value b) 4294967295) = le_value a).
  { unfold wrap32. change 4294967295 with (Z.ones 32). rewrite Z.land_ones by lia.
    rewrite Z.mod_mod by lia.
    rewrite (Z.mul_comm (2^32)), Z.mod_add by lia. apply Z.mod_small. lia. }
  rewrite Hhigh, Hlow. unfold ntohl, htonl; cbn [is_little].
  rewrite !bswap32_le_value by done.
  pose proof (be_value_range a) as Ba. rewrite Ha in Ba. change (8 * Z.of_nat 4) with 32 in Ba.
  pose proof (be_value_range b) as Bb. rewrite Hb in Bb. change (8 * Z.of_nat 4) with 32 in Bb.
  assert (Hw : wrap64 (Z.shiftl (be_value a) 32) = Z.shiftl (be_value a) 32).
  { unfold wrap64. rewrite Z.shiftl_mul_pow2 by lia. apply Z.mod_small. lia. }
  rewrite Hw. apply lor_shifted_small; lia.
Qed.

End ByteFacts.

(** *** Reading and writing inside a buffer *)

Section BufferFacts.

Lemma wrap32_small z : 0 <= z < 2^32 -> wrap32 z = z.
Proof. intros H. unfold wrap32. by apply Z.mod_small. Qed.

Lemma wrap64_small z : 0 <= z < 2^64 -> wrap64 z = z.
Proof. intros H. unfold wrap64. by apply Z.mod_small. Qed.

Lemma to_int32_small z : - 2^31 <= z < 2^31 -> to_int32 z = z.
Proof. intros H. unfold to_int32. rewrite Z.mod_small; lia. Qed.

Lemma read_at_length buf off n bs : read_at buf off n = Some bs -> length bs = n.
Proof.
  unfold read_at. case_decide as H; [|done]. intros [= <-].
  rewrite length_take, length_drop. lia.
Qed.

Lemma write_at_length buf off src buf' :
  write_at buf off src = Some buf' -> length buf' = length buf.
Proof.
  unfold write_at. case_decide as H; [|done]. intros [= <-].
  rewrite !length_app, length_take, length_drop. lia.
Qed.

End BufferFacts.

Ltac unwrap :=
  repeat match goal with
  | |- context [wrap32 ?z] => rewrite (wrap32_small z) by lia
  | |- context [wrap64 ?z] => rewrite (wrap64_small z) by lia
  end.

Section SkipFacts.

Lemma read_at_skip (pre rest : list byte) off k n :
  off = Z.of_nat (length pre) + k -> 0 <= k ->
  read_at (pre ++ rest) off n = read_at rest k n.
Proof.
  intros -> Hk. unfold read_at. rewrite length_app.
  destruct (decide (0 <= k /\ k + Z.of_nat n <= Z.of_nat (length rest))) as [H|H].
  - rewrite decide_True by lia. f_equal.
    rewrite drop_app_ge by lia. do 2 f_equal. lia.
  - by rewrite decide_False by lia.
Qed.

Lemma read_at_prefix (x post : list byte) n :
  n = length x -> read_at (x ++ post) 0 n = Some x.
Proof.
  intros ->. unfold read_at. rewrite decide_True by (rewrite length_app; lia).
  change (Z.to_nat 0) with 0%nat. rewrite drop_0. by rewrite take_app_length.
Qed.

Lemma write_at_skip (pre rest src : list byte) off k :
  off = Z.of_nat (length pre) + k -> 0 <= k ->
  write_at (pre ++ rest) off src = (fun r => pre ++ r) <$> write_at rest k src.
Proof.
  intros -> Hk. unfold write_at. rewrite length_app.
  destruct (decide (0 <= k /\ k + Z.of_nat (length src) <= Z.of_nat (length rest))) as [H|H].
  - rewrite decide_True by lia. simpl. f_equal.
    rewrite take_app_ge, drop_app_ge by lia. rewrite <- app_assoc.
    replace (Z.to_nat (Z.of_nat (length pre) + k) - length pre)%nat
      with (Z.to_nat k) by lia.
    by replace (Z.to_nat (Z.of_nat (length pre) + k) + length src - length pre)%nat
      with (Z.to_nat k + length src)%nat by lia.
  - by rewrite decide_False by lia.
Qed.

Lemma write_at_prefix (x post src : list byte) :
  length src = length x -> write_at (x ++ post) 0 src = Some (src ++ post).
Proof.
  intros Hlen. unfold write_at. rewrite decide_True by (rewrite length_app; lia).
  change (Z.to_nat 0) with 0%nat. rewrite take_0, Nat.add_0_l, Hlen, drop_app_length.
  done.
Qed.

Lemma length_host_bytes host n v : length (host_bytes host n v) = n.
Proof. destruct host; unfold host_bytes; simpl; [apply length_le_bytes|apply length_be_bytes]. Qed.

Lemma length_sampleBytes ts tput : length (sampleBytes ts tput) = 12%nat.
Proof. unfold sampleBytes. by rewrite length_app, !length_be_bytes. Qed.

Lemma length_slot1 tm1 name : history_wf tm1 -> length (slot1 tm1 name) = 12%nat.
Proof.
  intros Hwf. unfold slot1. destruct (tm1 !! name) as [m|] eqn:E; [|done].
  destruct (Hwf _ _ E) as (_ & _ & ->). apply length_sampleBytes.
Qed.

Lemma length_slot2 tm1 tm2 name : history_wf tm2 -> length (slot2 tm1 tm2 name) = 12%nat.
Proof.
  intros Hwf. unfold slot2. destruct (tm1 !! name); [|done].
  destruct (tm2 !! name) as [m|] eqn:E; [|done].
  destruct (Hwf _ _ E) as (_ & _ & ->). apply length_sampleBytes.
Qed.

Lemma length_blockImage host nbytesMap si ts tm1 tm2 i name :
  history_wf tm1 -> history_wf tm2 ->
  length (blockImage host nbytesMap si ts tm1 tm2 i name) = 40%nat.
Proof.
  intros H1 H2. unfold blockImage.
  rewrite !length_app, length_host_bytes, length_sampleBytes.
  by rewrite length_slot1, (length_slot2 tm1 tm2) by done.
Qed.

Lemma length_blockImages host nbytesMap si ts tm1 tm2 i names :
  history_wf tm1 -> history_wf tm2 ->
  length (blockImages host nbytesMap si ts tm1 tm2 i names) = (40 * length names)%nat.
Proof.
  intros H1 H2. revert i. induction names as [|name rest IH]; intros i; [done|].
  cbn [blockImages]. rewrite length_app, length_blockImage, IH by done. simpl. lia.
Qed.

End SkipFacts.

Section SenderFacts.

Lemma currInfo_image host ts tput :
  host_bytes host 8 (htonll host ts) ++ host_bytes host 4 (htonl host tput)
  = sampleBytes ts tput.
Proof. unfold sampleBytes. by rewrite host_bytes_htonll, host_bytes_htonl. Qed.

Lemma fillBlock_spec host nbytesMap si ts tm1 tm2 i name pre post t nbytes :
  nbytesMap !! name = Some nbytes ->
  si <> 0 -> 0 <= i -> 4 + 40 * i + 40 < 2^32 ->
  Z.of_nat (length pre) = 4 + 40 * i ->
  history_wf tm1 -> history_wf tm2 ->
  fillBlock host nbytesMap si ts (htonll host ts) tm1 tm2 i name
    (pre ++ replicate 40 x00 ++ post, t)
  = Ok (pre ++ blockImage host nbytesMap si ts tm1 tm2 i name ++ post,
        match t !! name with
        | Some _ => t
        | None => <[name := currentMessage nbytesMap si ts name]> t
        end).
Proof.
  intros Hn Hsi Hi Hfit Hpre Hwf1 Hwf2.
  unfold fillBlock, blockImage, currentMessage. rewrite Hn. cbn [defined obind default].
  rewrite decide_False by done. unwrap.
  rewrite currInfo_image.
  set (tput := throughputOf nbytes si).
  change (replicate 40 x00) with
    (replicate 4 x00 ++ replicate 12 x00 ++ replicate 12 x00 ++ replicate 12 x00).
  rewrite <- !app_assoc.
  (* the index *)
  rewrite (write_at_skip pre _ _ _ 0) by lia.
  rewrite write_at_prefix by (by rewrite length_host_bytes).
  cbn [fmap option_fmap option_map defined obind].
  (* entry t *)
  rewrite (write_at_skip pre _ _ _ 4) by lia.
  rewrite (write_at_skip (host_bytes host 4 i) _ _ _ 0) by (rewrite ?length_host_bytes; lia).
  rewrite write_at_prefix by (by rewrite length_sampleBytes).
  cbn [fmap option_fmap option_map defined obind].
  (* entries t-1 and t-2 *)
  unfold slot1, slot2.
  destruct (tm1 !! name) as [m1|] eqn:E1; [|done].
  destruct (Hwf1 _ _ E1) as (_ & _ & Hm1).
  rewrite (write_at_skip pre _ _ _ 16) by lia.
  rewrite (write_at_skip (host_bytes host 4 i) _ _ _ 12) by (rewrite ?length_host_bytes; lia).
  rewrite (write_at_skip (sampleBytes ts tput) _ _ _ 0) by (rewrite ?length_sampleBytes; lia).
  rewrite write_at_prefix by (by rewrite Hm1, length_sampleBytes).
  cbn [fmap option_fmap option_map defined obind].
  destruct (tm2 !! name) as [m2|] eqn:E2; [|done].
  destruct (Hwf2 _ _ E2) as (_ & _ & Hm2).
  rewrite (write_at_skip pre _ _ _ 28) by lia.
  rewrite (write_at_skip (host_bytes host 4 i) _ _ _ 24) by (rewrite ?length_host_bytes; lia).
  rewrite (write_at_skip (sampleBytes ts tput) _ _ _ 12) by (rewrite ?length_sampleBytes; lia).
  rewrite (write_at_skip (fm_message m1) _ _ _ 0) by (rewrite ?Hm1, ?length_sampleBytes; lia).
  rewrite write_at_prefix by (by rewrite Hm2, length_sampleBytes).
  done.
Qed.

Lemma fillBlocks_spec host nbytesMap si ts tm1 tm2 names :
  forall i pre post t,
  (forall name, name ∈ names -> is_Some (nbytesMap !! name)) ->
  si <> 0 -> 0 <= i -> 4 + 40 * (i + Z.of_nat (length names)) < 2^32 ->
  Z.of_nat (length pre) = 4 + 40 * i ->
  history_wf tm1 -> history_wf tm2 ->
  fillBlocks host nbytesMap si ts (htonll host ts) tm1 tm2 names i
    (pre ++ replicate (40 * length names) x00 ++ post, t)
  = Ok (pre ++ blockImages host nbytesMap si ts tm1 tm2 i names ++ post,
        recorded nbytesMap si ts names t).
Proof.
  induction names as [|name rest IH]; intros i pre post t Hin Hsi Hi Hfit Hpre Hwf1 Hwf2.
  - done.
  - cbn [fillBlocks blockImages recorded length]. cbn [length] in Hfit.
    destruct (Hin name) as [nbytes Hn]; [by left|].
    replace (40 * S (length rest))%nat with (40 + 40 * length rest)%nat by lia.
    rewrite replicate_add, <- app_assoc.
    rewrite (fillBlock_spec _ _ _ _ _ _ _ _ _ _ _ nbytes) by (try done; lia).
    cbn [obind]. unwrap.
    rewrite (app_assoc pre), <- (app_assoc (blockImage _ _ _ _ _ _ _ _)).
    rewrite (app_assoc pre).
    apply IH; try done.
    + intros n' Hn'. apply Hin. by right.
    + lia.
    + lia.
    + rewrite length_app, length_blockImage by done. lia.
Qed.

Lemma buildReport_spec host names nbytesMap si ts tm1 tm2 :
  (forall name, name ∈ names -> is_Some (nbytesMap !! name)) ->
  si <> 0 -> 4 + 40 * Z.of_nat (length names) < 2^31 ->
  history_wf tm1 -> history_wf tm2 ->
  buildReport host names nbytesMap si ts (htonll host ts) tm1 tm2
  = Ok (be_bytes 4 (Z.of_nat (length names))
          ++ blockImages host nbytesMap si ts tm1 tm2 0 names,
        recorded nbytesMap si ts names ∅).
Proof.
  intros Hin Hsi Hfit Hwf1 Hwf2. unfold buildReport. unwrap.
  rewrite to_int32_small by lia. rewrite decide_False by lia.
  replace (Z.to_nat (4 + Z.of_nat (length names) * 40))
    with (4 + 40 * length names)%nat by lia.
  rewrite replicate_add, host_bytes_htonl.
  rewrite write_at_prefix by (by rewrite length_be_bytes).
  cbn [defined obind].
  rewrite <- (app_nil_r (replicate (40 * length names) x00)).
  rewrite fillBlocks_spec; try done; try lia.
  by rewrite app_nil_r.
Qed.

Lemma snapshot_lookup m name :
  snapshot m !! name = (fun info => wrap32 (nbytesAcc info)) <$> (m !! name).
Proof. unfold snapshot. apply lookup_fmap. Qed.

Lemma dom_snapshot m : dom (snapshot m) = dom m.
Proof. unfold snapshot. apply dom_fmap_L. Qed.

(** A ready cycle runs: the report it sends, the history it keeps and the
    drain it publishes. *)
Lemma feedbackCycle_spec host fi names st now rx :
  cycle_ready fi names st rx ->
  let ts := wrap64 (now - now mod wrap64 fi) in
  let nbytesMap := snapshot (ifaceMap rx) in
  feedbackCycle host fi names st now rx
  = Ok (be_bytes 4 (Z.of_nat (length names))
          ++ blockImages host nbytesMap (sleepingInterval st) ts (tInfo st) (tm1Info st) 0 names,
        MkFeedbackSenderState (tm1Info st) (tInfo st)
          (recorded nbytesMap (sleepingInterval st) ts names ∅) (sleepingInterval st),
        MkDataReceiverShared (ifaceMap rx)
          (map_imap (fun name _ => nbytesMap !! name) (nbytes_reset_value rx))).
Proof.
  intros (Hfi & Hsi & Hfit & Hin & Hdom & Hwf2 & Hwf1 & Hwf0) ts nbytesMap.
  unfold feedbackCycle, alignedTimestamp, publish.
  rewrite decide_False by done. cbn [obind].
  rewrite decide_True by (by rewrite dom_snapshot). cbn [obind].
  rewrite buildReport_spec; try done.
  intros name Hname. destruct (Hin name Hname) as [info Hinfo].
  rewrite snapshot_lookup, Hinfo. by eexists.
Qed.

End SenderFacts.

Section ReceiverFacts.

Context {double : Type} (gt_half : double -> bool).
Implicit Types (currentInfo : GpsFix double) (buffer block pre post : list byte).

Lemma read_at_inside pre block post off k n :
  off = Z.of_nat (length pre) + Z.of_nat k -> (k + n <= length block)%nat ->
  read_at (pre ++ block ++ post) off n = Some (take n (drop k block)).
Proof.
  intros Hoff Hkn. rewrite (read_at_skip pre _ off (Z.of_nat k)) by lia.
  unfold read_at. rewrite decide_True by (rewrite length_app; lia).
  rewrite Nat2Z.id, drop_app_le by lia.
  by rewrite take_app_le by (rewrite length_drop; lia).
Qed.

Lemma readEntry_inside host fi currentInfo pre block post name offset (j : nat) :
  length block = 40%nat -> Z.of_nat (length pre) = offset -> offset + 40 < 2^32 ->
  (j < 3)%nat ->
  readEntry gt_half host fi currentInfo (pre ++ block ++ post) name offset (Z.of_nat j)
  = Ok (entryRecords gt_half fi currentInfo name (take 12 (drop (4 + 12 * j) block))).
Proof.
  intros Hblock Hpre Hfit Hj. unfold readEntry, entryRecords. unwrap.
  rewrite (read_at_inside pre block post _ (4 + 12 * j) 8) by lia.
  cbn [defined obind].
  rewrite ntohll_host_value by (rewrite length_take, length_drop; lia).
  rewrite take_take. change (8 `min` 12)%nat with 8%nat.
  case_decide as Hts; [|done].
  rewrite (read_at_inside pre block post _ (4 + 12 * j + 8) 4) by lia.
  cbn [defined obind].
  rewrite ntohl_host_value by (rewrite length_take, length_drop; lia).
  assert (Htail : drop 8 (take 12 (drop (4 + 12 * j) block))
                  = take 4 (drop (4 + 12 * j + 8) block)).
  { change 12%nat with (8 + 4)%nat at 1. by rewrite <- take_drop_commute, drop_drop. }
  by rewrite Htail.
Qed.

Lemma readEntries_inside host fi currentInfo pre block post name offset :
  length block = 40%nat -> Z.of_nat (length pre) = offset -> offset + 40 < 2^32 ->
  readEntries gt_half host fi currentInfo (pre ++ block ++ post) name offset
  = Ok (blockRecords gt_half fi currentInfo name block).
Proof.
  intros Hblock Hpre Hfit. unfold readEntries, blockRecords.
  rewrite (readEntry_inside _ _ _ _ _ _ _ _ 0) by (done || lia). cbn [obind].
  rewrite (readEntry_inside _ _ _ _ _ _ _ _ 1) by (done || lia). cbn [obind].
  rewrite (readEntry_inside _ _ _ _ _ _ _ _ 2) by (done || lia). cbn [obind].
  done.
Qed.

(** Decoding a buffer made of whole blocks. *)
Lemma readBlocks_spec host fi currentInfo post numberOfRats :
  forall (blocks : list (list byte)) names i pre ifaces acc,
  Forall (fun b => length b = 40%nat) blocks ->
  (length blocks <= length names)%nat ->
  Z.of_nat (length pre) = 4 + 40 * i -> 0 <= i ->
  numberOfRats = i + Z.of_nat (length blocks) ->
  4 + 40 * numberOfRats < 2^32 ->
  readBlocks gt_half host fi currentInfo (pre ++ concat blocks ++ post)
    numberOfRats names i ifaces acc
  = Ok (acc ++ concat (zip_with (blockRecords gt_half fi currentInfo) names blocks),
        foldl subscript ifaces (take (length blocks) names)).
Proof.
  induction blocks as [|block blocks IH];
    intros names i pre ifaces acc Hall Hlen Hpre Hi HN Hfit.
  - destruct names; cbn [readBlocks]; rewrite decide_False by (simpl in HN; lia);
      simpl; by rewrite app_nil_r.
  - apply Forall_cons in Hall as [Hb Hall].
    destruct names as [|name names]; [simpl in Hlen; lia|].
    cbn [length] in HN, Hlen. cbn [readBlocks concat].
    rewrite decide_True by lia. unwrap.
    rewrite <- (app_assoc block).
    rewrite (read_at_inside pre block _ _ 0 4) by lia. cbn [defined obind].
    rewrite readEntries_inside by (done || lia). cbn [obind].
    rewrite (app_assoc pre block).
    rewrite IH; try done; try lia.
    + cbn [zip_with concat take foldl length]. by rewrite <- app_assoc.
    + rewrite length_app. lia.
Qed.

Lemma readFeedbackMessage_spec host fi currentInfo names ifaces (blocks : list (list byte)) post :
  Forall (fun b => length b = 40%nat) blocks ->
  (length blocks <= length names)%nat ->
  4 + 40 * Z.of_nat (length blocks) < 2^32 ->
  readFeedbackMessage gt_half host fi names ifaces
    (be_bytes 4 (Z.of_nat (length blocks)) ++ concat blocks ++ post) currentInfo
  = Ok (concat (zip_with (blockRecords gt_half fi currentInfo) names blocks),
        foldl subscript ifaces (take (length blocks) names)).
Proof.
  intros Hall Hlen Hfit. unfold readFeedbackMessage.
  rewrite read_at_prefix by (by rewrite length_be_bytes). cbn [defined obind].
  rewrite ntohl_host_value by apply length_be_bytes.
  rewrite be_value_be_bytes. change (2 ^ (8 * Z.of_nat 4)) with (2^32).
  rewrite Z.mod_small by lia.
  rewrite (readBlocks_spec host fi currentInfo post _ blocks names 0
             (be_bytes 4 (Z.of_nat (length blocks))) ifaces []); try done; try lia.
Qed.

End ReceiverFacts.

Section RoundTrip.

Context {double : Type} (gt_half : double -> bool).
Implicit Types (currentInfo : GpsFix double).

Lemma throughputOf_range nbytes si : 0 <= throughputOf nbytes si < 2^32.
Proof. unfold throughputOf, wrap32. apply Z.mod_pos_bound. lia. Qed.

Lemma blockImages_concat host nbm si ts tm1 tm2 i names :
  blockImages host nbm si ts tm1 tm2 i names
  = concat (blockList host nbm si ts tm1 tm2 i names).
Proof.
  revert i. induction names as [|name rest IH]; intros i; [done|].
  cbn [blockImages blockList concat]. by rewrite IH.
Qed.

Lemma length_blockList host nbm si ts tm1 tm2 i names :
  length (blockList host nbm si ts tm1 tm2 i names) = length names.
Proof.
  revert i. induction names as [|name rest IH]; intros i; [done|].
  cbn [blockList length]. by rewrite IH.
Qed.

Lemma blockList_whole host nbm si ts tm1 tm2 i names :
  history_wf tm1 -> history_wf tm2 ->
  Forall (fun b => length b = 40%nat) (blockList host nbm si ts tm1 tm2 i names).
Proof.
  intros H1 H2. revert i. induction names as [|name rest IH]; intros i; [by constructor|].
  cbn [blockList]. constructor; [by apply length_blockImage|apply IH].
Qed.

Lemma recorded_lookup nbm si ts names :
  forall t name,
  recorded nbm si ts names t !! name =
    match t !! name with
    | Some m => Some m
    | None => if decide (name ∈ names) then Some (currentMessage nbm si ts name) else None
    end.
Proof.
  induction names as [|n rest IH]; intros t name.
  - cbn [recorded]. destruct (t !! name); [done|].
    by rewrite decide_False by apply not_elem_of_nil.
  - cbn [recorded]. rewrite IH. destruct (t !! n) as [m|] eqn:En.
    + destruct (t !! name) as [m'|] eqn:E; [done|].
      assert (name <> n) by congruence.
      destruct (decide (name ∈ rest)) as [Hin|Hnin].
      * by rewrite decide_True by (by right).
      * rewrite decide_False; [done|]. by intros [->|?]%elem_of_cons.
    + destruct (decide (n = name)) as [->|Hne].
      * rewrite lookup_insert_eq, En. by rewrite decide_True by (by left).
      * rewrite lookup_insert_ne by done. destruct (t !! name); [done|].
        destruct (decide (name ∈ rest)) as [Hin|Hnin].
        -- by rewrite decide_True by (by right).
        -- rewrite decide_False; [done|]. intros [->|?]%elem_of_cons; done.
Qed.

Lemma entryRecords_sample fi currentInfo name ts tput :
  0 <= ts < 2^64 -> 0 <= tput < 2^32 ->
  entryRecords gt_half fi currentInfo name (sampleBytes ts tput)
  = if decide (ts > 0) then [sampleRecord gt_half fi currentInfo name ts tput] else [].
Proof.
  intros Hts Htput. unfold entryRecords, sampleBytes.
  rewrite take_app_length' by (by rewrite length_be_bytes).
  rewrite drop_app_length' by (by rewrite length_be_bytes).
  rewrite !be_value_be_bytes.
  change (2 ^ (8 * Z.of_nat 8)) with (2^64). change (2 ^ (8 * Z.of_nat 4)) with (2^32).
  by rewrite !Z.mod_small by lia.
Qed.

Lemma entryRecords_zero fi currentInfo name :
  entryRecords gt_half fi currentInfo name zeroSample = [].
Proof. done. Qed.

Lemma entryRecords_message fi currentInfo name (o : option FeedbackMessageStruct) :
  (forall m, o = Some m -> message_wf m) ->
  recordKey <$> entryRecords gt_half fi currentInfo name
                  (match o with Some m => fm_message m | None => zeroSample end)
  = (fun s : Z * Z => (name, s.1, s.2)) <$> filter (fun s : Z * Z => s.1 <> 0) [sampleOf o].
Proof.
  intros Hwf. destruct o as [m|]; [|done].
  destruct (Hwf m eq_refl) as (Hts & Htput & ->).
  rewrite entryRecords_sample by done. cbn [sampleOf].
  rewrite filter_cons, filter_nil. cbn [fst].
  destruct (decide (fm_timestamp m > 0)), (decide (fm_timestamp m <> 0)); try lia; done.
Qed.

Lemma blockRecords_blockImage hostS fi currentInfo nbm si ts tm1 tm2 i nameRx nameTx :
  history_wf tm1 -> history_wf tm2 -> 0 <= ts < 2^64 ->
  recordKey <$> blockRecords gt_half fi currentInfo nameRx
                  (blockImage hostS nbm si ts tm1 tm2 i nameTx)
  = (fun s : Z * Z => (nameRx, s.1, s.2)) <$>
      filter (fun s : Z * Z => s.1 <> 0)
        [ (ts, throughputOf (default 0 (nbm !! nameTx)) si);
          sampleOf (tm1 !! nameTx);
          match tm1 !! nameTx with
          | Some _ => sampleOf (tm2 !! nameTx)
          | None => (0, 0)
          end ].
Proof.
  intros Hwf1 Hwf2 Hts. unfold blockRecords, blockImage.
  set (tput := throughputOf (default 0 (nbm !! nameTx)) si).
  pose proof (throughputOf_range (default 0 (nbm !! nameTx)) si) as Htput. fold tput in Htput.
  pose proof (length_slot1 tm1 nameTx Hwf1) as L1.
  pose proof (length_slot2 tm1 tm2 nameTx Hwf2) as L2.
  assert (E0 : take 12 (drop 4 (host_bytes hostS 4 i ++ sampleBytes ts tput
                 ++ slot1 tm1 nameTx ++ slot2 tm1 tm2 nameTx)) = sampleBytes ts tput).
  { rewrite drop_app_length' by (by rewrite length_host_bytes).
    by rewrite take_app_length' by (by rewrite length_sampleBytes). }
  assert (E1 : take 12 (drop 16 (host_bytes hostS 4 i ++ sampleBytes ts tput
                 ++ slot1 tm1 nameTx ++ slot2 tm1 tm2 nameTx)) = slot1 tm1 nameTx).
  { rewrite (app_assoc (host_bytes hostS 4 i)).
    rewrite drop_app_length' by (rewrite length_app, length_host_bytes, length_sampleBytes; lia).
    by rewrite take_app_length' by done. }
  assert (E2 : take 12 (drop 28 (host_bytes hostS 4 i ++ sampleBytes ts tput
                 ++ slot1 tm1 nameTx ++ slot2 tm1 tm2 nameTx)) = slot2 tm1 tm2 nameTx).
  { rewrite (app_assoc (host_bytes hostS 4 i)), (app_assoc (_ ++ _)).
    rewrite drop_app_length'
      by (rewrite !length_app, length_host_bytes, length_sampleBytes, L1; lia).
    by rewrite take_ge by lia. }
  rewrite E0, E1, E2. rewrite !fmap_app.
  rewrite (entryRecords_sample fi currentInfo nameRx ts tput) by done.
  change (slot1 tm1 nameTx) with
    (match tm1 !! nameTx with Some m => fm_message m | None => zeroSample end).
  rewrite (entryRecords_message fi currentInfo nameRx (tm1 !! nameTx))
    by (intros m Hm; by apply (Hwf1 nameTx)).
  assert (S2 : slot2 tm1 tm2 nameTx =
               match (match tm1 !! nameTx with Some _ => tm2 !! nameTx | None => None end)
               with Some m => fm_message m | None => zeroSample end).
  { unfold slot2. by destruct (tm1 !! nameTx), (tm2 !! nameTx). }
  rewrite S2.
  rewrite (entryRecords_message fi currentInfo nameRx
             (match tm1 !! nameTx with Some _ => tm2 !! nameTx | None => None end)).
  2:{ intros m Hm. destruct (tm1 !! nameTx); [|done]. by apply (Hwf2 nameTx). }
  assert (S3 : sampleOf (match tm1 !! nameTx with Some _ => tm2 !! nameTx | None => None end)
               = match tm1 !! nameTx with Some _ => sampleOf (tm2 !! nameTx) | None => (0, 0) end).
  { by destruct (tm1 !! nameTx). }
  rewrite S3.
  rewrite !filter_cons, !filter_nil. cbn [fst].
  destruct (decide (ts > 0)), (decide (ts <> 0)); try lia; cbn [fmap list_fmap app];
    repeat case_decide; done.
Qed.

End RoundTrip.

Section RoundTripTheorem.

Context {double : Type} (gt_half : double -> bool).

Lemma records_of_blocks hostS fi (currentInfo : GpsFix double) nbm si ts
    (st' : FeedbackSenderState) :
  history_wf (tm1Info st') -> history_wf (tm2Info st') -> 0 <= ts < 2^64 ->
  forall namesTx i namesRx,
  (forall n, n ∈ namesTx -> tInfo st' !! n = Some (currentMessage nbm si ts n)) ->
  recordKey <$> concat (zip_with (blockRecords gt_half fi currentInfo) namesRx
                          (blockList hostS nbm si ts (tm1Info st') (tm2Info st') i namesTx))
  = presentSamples st' namesRx namesTx.
Proof.
  intros Hwf1 Hwf2 Hts. unfold presentSamples.
  induction namesTx as [|nameTx rest IH]; intros i namesRx Hcur.
  - destruct namesRx; done.
  - destruct namesRx as [|nameRx namesRx]; [done|].
    cbn [blockList zip_with concat]. rewrite fmap_app.
    rewrite blockRecords_blockImage by done.
    rewrite IH by (intros n Hn; apply Hcur; by right).
    f_equal. unfold carriedSamples.
    rewrite (Hcur nameTx) by (by left). done.
Qed.

(** The present samples depend on the samples of the sender's names
    only. *)
Lemma presentSamples_ext (st' : FeedbackSenderState) (sent : string -> list (Z * Z)) :
  forall namesTx namesRx,
  (forall nameTx, nameTx ∈ namesTx -> carriedSamples st' nameTx = sent nameTx) ->
  presentSamples st' namesRx namesTx
  = concat (zip_with
      (fun nameRx nameTx =>
         (fun s : Z * Z => (nameRx, s.1, s.2))
           <$> filter (fun s : Z * Z => s.1 <> 0) (sent nameTx))
      namesRx namesTx).
Proof.
  unfold presentSamples.
  induction namesTx as [|nameTx rest IH]; intros namesRx Hsent.
  - by destruct namesRx.
  - destruct namesRx as [|nameRx namesRx]; [done|].
    cbn [zip_with concat]. rewrite (Hsent nameTx) by (by left).
    f_equal. apply IH. intros n Hn. apply Hsent. by right.
Qed.

(** C1.  A cycle of [FeedbackSender] reports three samples for each of
    its names: for t the clock reading rounded down to the feedback
    interval with the throughput computed from the byte count of the
    interface, for t-1 the message kept from the cycle before, and for
    t-2 the message kept from the cycle before that.  [readFeedbackMessage]
    decodes the report into exactly one record for each of these samples
    whose timestamp is not zero, in the order of the report, carrying
    that sample's timestamp and throughput, and into no record for a
    sample whose timestamp is zero.  The receiver's name list must be at
    least as long as the sender's; the hosts may differ in byte order,
    and the receive buffer may extend beyond the report. *)
Theorem feedback_roundtrip hostS hostR fiS fiR namesTx namesRx st now rx ifaces
    (currentInfo : GpsFix double) pad :
  cycle_ready fiS namesTx st rx ->
  (length namesTx <= length namesRx)%nat ->
  let ts := wrap64 (now - now mod wrap64 fiS) in
  let sent := fun nameTx : string =>
    [ (ts, throughputOf (default 0 (snapshot (ifaceMap rx) !! nameTx)) (sleepingInterval st));
      sampleOf (tInfo st !! nameTx);
      match tInfo st !! nameTx with
      | Some _ => sampleOf (tm1Info st !! nameTx)
      | None => (0, 0)
      end ] in
  exists report st' rx' recs ifaces',
    feedbackCycle hostS fiS namesTx st now rx = Ok (report, st', rx') /\
    readFeedbackMessage gt_half hostR fiR namesRx ifaces (report ++ pad) currentInfo
      = Ok (recs, ifaces') /\
    recordKey <$> recs = presentSamples st' namesRx namesTx /\
    (forall nameTx, nameTx ∈ namesTx -> carriedSamples st' nameTx = sent nameTx) /\
    recordKey <$> recs
    = concat (zip_with
        (fun nameRx nameTx =>
           (fun s : Z * Z => (nameRx, s.1, s.2))
             <$> filter (fun s : Z * Z => s.1 <> 0) (sent nameTx))
        namesRx namesTx).
Proof.
  intros Hready Hlen ts sent.
  pose proof Hready as (Hfi & Hsi & Hfit & Hin & Hdom & Hwf2 & Hwf1 & Hwf0).
  rewrite (feedbackCycle_spec hostS fiS namesTx st now rx Hready). fold ts.
  set (st' := MkFeedbackSenderState (tm1Info st) (tInfo st)
                (recorded (snapshot (ifaceMap rx)) (sleepingInterval st) ts namesTx ∅)
                (sleepingInterval st)).
  assert (Hcur : forall n, n ∈ namesTx ->
            tInfo st' !! n
            = Some (currentMessage (snapshot (ifaceMap rx)) (sleepingInterval st) ts n)).
  { intros n Hn. cbn [st' tInfo]. rewrite recorded_lookup, lookup_empty.
    by rewrite decide_True. }
  assert (Hsent : forall nameTx, nameTx ∈ namesTx -> carriedSamples st' nameTx = sent nameTx).
  { intros nameTx Hn. unfold carriedSamples. rewrite (Hcur nameTx Hn). done. }
  exists (be_bytes 4 (Z.of_nat (length namesTx))
          ++ blockImages hostS (snapshot (ifaceMap rx)) (sleepingInterval st) ts
               (tInfo st) (tm1Info st) 0 namesTx), st'.
  do 3 eexists. split; [reflexivity|].
  rewrite blockImages_concat, <- app_assoc.
  rewrite <- (length_blockList hostS (snapshot (ifaceMap rx)) (sleepingInterval st)
                ts (tInfo st) (tm1Info st) 0 namesTx) at 1.
  rewrite readFeedbackMessage_spec.
  - split; [reflexivity|].
    assert (Hrecs : recordKey <$> concat (zip_with (blockRecords gt_half fiR currentInfo)
                      namesRx (blockList hostS (snapshot (ifaceMap rx)) (sleepingInterval st)
                                 ts (tInfo st) (tm1Info st) 0 namesTx))
                    = presentSamples st' namesRx namesTx).
    { apply (records_of_blocks hostS fiR currentInfo (snapshot (ifaceMap rx))
               (sleepingInterval st) ts st'); cbn [st' tm1Info tm2Info tInfo]; try done.
      unfold ts, wrap64. apply Z.mod_pos_bound. lia. }
    split; [exact Hrecs|]. split; [exact Hsent|].
    rewrite Hrecs. by apply presentSamples_ext.
  - by apply blockList_whole.
  - by rewrite length_blockList.
  - rewrite length_blockList. lia.
Qed.

End RoundTripTheorem.

Section ReadyFacts.

Lemma history_wf_empty : history_wf ∅.
Proof. intros name m H. by rewrite lookup_empty in H. Qed.

Lemma history_wf_insert name m t :
  message_wf m -> history_wf t -> history_wf (<[name := m]> t).
Proof.
  intros Hm Ht n m' H. destruct (decide (name = n)) as [->|Hne].
  - rewrite lookup_insert_eq in H. by injection H as <-.
  - rewrite lookup_insert_ne in H by done. by apply (Ht n).
Qed.

Lemma message_wf_current nbm si ts name :
  0 <= ts < 2^64 -> message_wf (currentMessage nbm si ts name).
Proof.
  intros Hts. unfold message_wf, currentMessage. cbn.
  split; [done|]. split; [apply throughputOf_range|done].
Qed.

Lemma history_wf_recorded nbm si ts names t :
  0 <= ts < 2^64 -> history_wf t -> history_wf (recorded nbm si ts names t).
Proof.
  intros Hts Ht name m. rewrite recorded_lookup.
  destruct (t !! name) as [m'|] eqn:E.
  - intros [= <-]. by apply (Ht name).
  - case_decide; [|done]. intros [= <-]. by apply message_wf_current.
Qed.

(** The wait computed by lines 151 and 266 is never zero. *)
Lemma sleepingIntervalOf_range fi millis s :
  0 < fi < 2^63 -> sleepingIntervalOf fi millis = Ok s -> 1 <= s <= fi.
Proof.
  intros Hfi. unfold sleepingIntervalOf. rewrite (wrap64_small fi) by lia.
  rewrite decide_False by lia. intros [= <-].
  pose proof (Z.mod_pos_bound millis fi ltac:(lia)).
  rewrite wrap64_small; lia.
Qed.

Lemma startOfLoop_wf fi millis st : startOfLoop fi millis = Ok st -> state_wf st.
Proof.
  unfold startOfLoop. destruct (sleepingIntervalOf fi millis); try done.
  cbn. intros [= <-].
  exact (conj history_wf_empty (conj history_wf_empty history_wf_empty)).
Qed.

(** A cycle and the computation of the next wait leave the sender ready
    for the next cycle. *)
Lemma cycle_ready_preserved host fi names st now rx report st' rx' endTimestamp st'' :
  0 < fi < 2^63 ->
  cycle_ready fi names st rx ->
  feedbackCycle host fi names st now rx = Ok (report, st', rx') ->
  endOfCycle fi st' endTimestamp = Ok st'' ->
  cycle_ready fi names st'' rx'.
Proof.
  intros Hfi Hready Hcycle Hend.
  pose proof Hready as (Hfi0 & Hsi & Hfit & Hin & Hdom & Hwf2 & Hwf1 & Hwf0).
  rewrite (feedbackCycle_spec host fi names st now rx Hready) in Hcycle.
  injection Hcycle as <- <- <-.
  unfold endOfCycle in Hend.
  destruct (sleepingIntervalOf fi endTimestamp) as [s| | |] eqn:Es; try done.
  cbn in Hend. injection Hend as <-.
  pose proof (sleepingIntervalOf_range fi endTimestamp s Hfi Es).
  refine (conj Hfi0 (conj _ (conj Hfit (conj Hin (conj _ (conj Hwf1 (conj Hwf0 _))))))).
  - cbn. lia.
  - cbn. intros name. rewrite !elem_of_dom, map_lookup_imap.
    intros [v Hv]. destruct (nbytes_reset_value rx !! name) eqn:E; [|done].
    apply elem_of_dom, Hdom, elem_of_dom. by eexists.
  - cbn. apply history_wf_recorded; [|apply history_wf_empty].
    unfold wrap64. apply Z.mod_pos_bound. lia.
Qed.

End ReadyFacts.

(** The example of the specification, with one sample of history for
    "lo", a little-endian sender, a big-endian receiver and the report
    lying in the zero-filled receive buffer. *)
Lemma feedback_roundtrip_witness :
  let st := MkFeedbackSenderState ∅ ∅
              (<["lo" := MkFeedbackMessage 900 400 "lo" (sampleBytes 900 400)]> ∅) 100 in
  let rx := MkDataReceiverShared
              (<["lo" := MkIfaceInfo "10.0.0.1" "10.0.0.2" None 3 6250 0]>
                 (<["802.11ac" := MkIfaceInfo "10.0.1.1" "10.0.1.2" None 4 15000 1]> ∅))
              (<["lo" := 0]> (<["802.11ac" := 0]> ∅)) in
  cycle_ready 100 ["lo"; "802.11ac"] st rx /\
  (length ["lo"; "802.11ac"] <= length ["lo"; "802.11ac"])%nat /\
  let ts := wrap64 (1000 - 1000 mod wrap64 100) in
  let sent := fun nameTx : string =>
    [ (ts, throughputOf (default 0 (snapshot (ifaceMap rx) !! nameTx)) (sleepingInterval st));
      sampleOf (tInfo st !! nameTx);
      match tInfo st !! nameTx with
      | Some _ => sampleOf (tm1Info st !! nameTx)
      | None => (0, 0)
      end ] in
  exists report st' rx' recs ifaces',
    feedbackCycle LittleEndian 100 ["lo"; "802.11ac"] st 1000 rx = Ok (report, st', rx') /\
    readFeedbackMessage (fun _ : unit => false) BigEndian 100 ["lo"; "802.11ac"] ∅
      (report ++ replicate (Z.to_nat FEEDBACK_RCV_BUF_LEN - 84) x00) (MkGpsFix tt tt tt tt)
      = Ok (recs, ifaces') /\
    recordKey <$> recs = presentSamples st' ["lo"; "802.11ac"] ["lo"; "802.11ac"] /\
    (forall nameTx, nameTx ∈ ["lo"; "802.11ac"] -> carriedSamples st' nameTx = sent nameTx) /\
    recordKey <$> recs
    = concat (zip_with
        (fun nameRx nameTx =>
           (fun s : Z * Z => (nameRx, s.1, s.2))
             <$> filter (fun s : Z * Z => s.1 <> 0) (sent nameTx))
        ["lo"; "802.11ac"] ["lo"; "802.11ac"]).
Proof.
  intros st rx.
  assert (Hready : cycle_ready 100 ["lo"; "802.11ac"] st rx).
  { refine (conj _ (conj _ (conj _ (conj _ (conj _ (conj _ (conj _ _))))))).
    - vm_compute. discriminate.
    - vm_compute. discriminate.
    - simpl. lia.
    - intros name Hn.
      repeat (apply elem_of_cons in Hn as [->|Hn]); [by vm_compute; eexists..|].
      by apply elem_of_nil in Hn.
    - apply (bool_decide_unpack _). by vm_compute.
    - apply history_wf_empty.
    - apply history_wf_empty.
    - apply history_wf_insert; [|apply history_wf_empty].
      refine (conj _ (conj _ _)); cbn; [lia|lia|reflexivity]. }
  assert (Hlen : (length ["lo"; "802.11ac"] <= length ["lo"; "802.11ac"])%nat) by (simpl; lia).
  split; [exact Hready|]. split; [exact Hlen|].
  exact (feedback_roundtrip (fun _ : unit => false) LittleEndian BigEndian 100 100
           ["lo"; "802.11ac"] ["lo"; "802.11ac"] st 1000 rx ∅ (MkGpsFix tt tt tt tt)
           (replicate (Z.to_nat FEEDBACK_RCV_BUF_LEN - 84) x00) Hready Hlen).
Defined.

Section Layout.

Lemma sampleBytes_zero : sampleBytes 0 0 = zeroSample.
Proof. reflexivity. Qed.

Lemma slot1_image tm1 name :
  history_wf tm1 ->
  slot1 tm1 name = sampleBytes (sampleOf (tm1 !! name)).1 (sampleOf (tm1 !! name)).2.
Proof.
  intros Hwf. unfold slot1. destruct (tm1 !! name) as [m|] eqn:E; [|done].
  by destruct (Hwf _ _ E) as (_ & _ & ->).
Qed.

Lemma slot2_image tm1 tm2 name :
  history_wf tm2 ->
  let s := match tm1 !! name with Some _ => sampleOf (tm2 !! name) | None => (0, 0) end in
  slot2 tm1 tm2 name = sampleBytes s.1 s.2.
Proof.
  intros Hwf. unfold slot2. destruct (tm1 !! name); [|done].
  destruct (tm2 !! name) as [m|] eqn:E; [|done].
  by destruct (Hwf _ _ E) as (_ & _ & ->).
Qed.

(** Where the block of the [i]-th name lies among the blocks. *)
Lemma blockImages_lookup host nbm si ts tm1 tm2 names :
  history_wf tm1 -> history_wf tm2 ->
  forall (i : nat) j name, names !! i = Some name ->
  exists pre post,
    blockImages host nbm si ts tm1 tm2 j names
      = pre ++ blockImage host nbm si ts tm1 tm2 (j + Z.of_nat i) name ++ post /\
    length pre = (40 * i)%nat.
Proof.
  intros Hwf1 Hwf2. induction names as [|n rest IH]; intros i j name Hi; [done|].
  destruct i as [|i].
  - injection Hi as ->. exists [], (blockImages host nbm si ts tm1 tm2 (j + 1) rest).
    split; [|done]. cbn [blockImages app]. by rewrite Z.add_0_r.
  - destruct (IH i (j + 1) name Hi) as (pre & post & Heq & Hlen).
    exists (blockImage host nbm si ts tm1 tm2 j n ++ pre), post. split.
    + cbn [blockImages]. rewrite Heq, <- app_assoc.
      by replace (j + 1 + Z.of_nat i) with (j + Z.of_nat (S i)) by lia.
    + rewrite length_app, length_blockImage, Hlen by done. lia.
Qed.

(** Any part of the block of the [i]-th name, read from the report. *)
Lemma report_read_block host nbm si ts tm1 tm2 names (i : nat) name (k n : nat) :
  history_wf tm1 -> history_wf tm2 ->
  names !! i = Some name -> (k + n <= 40)%nat ->
  read_at (be_bytes 4 (Z.of_nat (length names))
             ++ blockImages host nbm si ts tm1 tm2 0 names)
          (4 + 40 * Z.of_nat i + Z.of_nat k) n
  = Some (take n (drop k (blockImage host nbm si ts tm1 tm2 (Z.of_nat i) name))).
Proof.
  intros Hwf1 Hwf2 Hi Hkn.
  destruct (blockImages_lookup host nbm si ts tm1 tm2 names Hwf1 Hwf2 i 0 name Hi)
    as (pre & post & -> & Hpre).
  rewrite Z.add_0_l, app_assoc.
  apply read_at_inside.
  - rewrite length_app, length_be_bytes. lia.
  - rewrite length_blockImage by done. lia.
Qed.

(** C5.  The report of a cycle is [4 + 40 * N] bytes long for the [N]
    configured names; its first four bytes are [N] in network order; the
    block of the [i]-th name starts at [4 + 40 * i] and is the index [i]
    as the sending host keeps a [uint32_t] in memory, followed by three
    12-byte samples, each a timestamp and a throughput in network order
    whatever the host. *)
Theorem report_layout host fi names st now rx :
  cycle_ready fi names st rx ->
  exists report st' rx',
    feedbackCycle host fi names st now rx = Ok (report, st', rx') /\
    length report = (4 + 40 * length names)%nat /\
    read_at report 0 4 = Some (be_bytes 4 (Z.of_nat (length names))) /\
    forall (i : nat) name, names !! i = Some name ->
      read_at report (4 + 40 * Z.of_nat i) 40
      = Some (host_bytes host 4 (Z.of_nat i)
              ++ concat ((fun s : Z * Z => be_bytes 8 s.1 ++ be_bytes 4 s.2)
                           <$> carriedSamples st' name)).
Proof.
  intros Hready.
  pose proof Hready as (Hfi & Hsi & Hfit & Hin & Hdom & Hwf2 & Hwf1 & Hwf0).
  rewrite (feedbackCycle_spec host fi names st now rx Hready).
  do 3 eexists. split; [reflexivity|]. split; [|split].
  - rewrite length_app, length_be_bytes, length_blockImages by done. lia.
  - apply read_at_prefix. by rewrite length_be_bytes.
  - intros i name Hi.
    replace (4 + 40 * Z.of_nat i) with (4 + 40 * Z.of_nat i + Z.of_nat 0) by lia.
    rewrite (report_read_block _ _ _ _ _ _ _ i name 0 40) by (done || lia).
    rewrite drop_0, take_ge by (rewrite length_blockImage by done; lia).
    f_equal. unfold blockImage, carriedSamples. cbn [tInfo tm1Info tm2Info].
    f_equal.
    rewrite recorded_lookup, lookup_empty.
    rewrite decide_True by (by eapply list_elem_of_lookup_2).
    cbn [fmap list_fmap concat sampleOf currentMessage fm_timestamp fm_throughput fst snd].
    rewrite app_nil_r.
    rewrite (slot1_image (tInfo st) name Hwf0).
    rewrite (slot2_image (tInfo st) (tm1Info st) name Hwf1).
    done.
Qed.

Lemma report_layout_witness :
  let st := MkFeedbackSenderState ∅ ∅ ∅ 100 in
  let rx := MkDataReceiverShared
              (<["lo" := MkIfaceInfo "10.0.0.1" "10.0.0.2" None 3 6250 0]> ∅)
              (<["lo" := 0]> ∅) in
  cycle_ready 100 ["lo"] st rx /\
  exists report st' rx',
    feedbackCycle LittleEndian 100 ["lo"] st 1000 rx = Ok (report, st', rx') /\
    length report = (4 + 40 * length ["lo"])%nat /\
    read_at report 0 4 = Some (be_bytes 4 (Z.of_nat (length ["lo"]))) /\
    forall (i : nat) name, ["lo"] !! i = Some name ->
      read_at report (4 + 40 * Z.of_nat i) 40
      = Some (host_bytes LittleEndian 4 (Z.of_nat i)
              ++ concat ((fun s : Z * Z => be_bytes 8 s.1 ++ be_bytes 4 s.2)
                           <$> carriedSamples st' name)).
Proof.
  intros st rx.
  assert (Hready : cycle_ready 100 ["lo"] st rx).
  { refine (conj _ (conj _ (conj _ (conj _ (conj _ (conj _ (conj _ _))))))).
    - vm_compute. discriminate.
    - vm_compute. discriminate.
    - simpl. lia.
    - intros name Hn.
      repeat (apply elem_of_cons in Hn as [->|Hn]); [by vm_compute; eexists..|].
      by apply elem_of_nil in Hn.
    - apply (bool_decide_unpack _). by vm_compute.
    - apply history_wf_empty.
    - apply history_wf_empty.
    - apply history_wf_empty. }
  split; [exact Hready|].
  exact (report_layout LittleEndian 100 ["lo"] st 1000 rx Hready).
Defined.

(** C4, as the program has it.  The throughput written in entry t of an
    interface's block is the snapshot of its counter times 8, divided by
    the wait that preceded the cycle: [feedbackInterval] minus the
    remainder of the clock read [prevEnd] modulo [feedbackInterval], a
    value from 1 to [feedbackInterval].  Stated for snapshots whose
    product by 8 fits 32 bits. *)
Theorem report_throughput host fi names st now rx prevEnd (i : nat) name info :
  cycle_ready fi names st rx ->
  0 < fi < 2^31 ->
  sleepingIntervalOf fi prevEnd = Ok (sleepingInterval st) ->
  names !! i = Some name -> ifaceMap rx !! name = Some info ->
  0 <= nbytesAcc info -> nbytesAcc info * 8 < 2^32 ->
  exists report st' rx',
    feedbackCycle host fi names st now rx = Ok (report, st', rx') /\
    be_value <$> read_at report (4 + 40 * Z.of_nat i + 12) 4
      = Some (nbytesAcc info * 8 / (fi - prevEnd mod fi)) /\
    1 <= fi - prevEnd mod fi <= fi.
Proof.
  intros Hready Hfi Hsleep Hi Hinfo Hacc Hno.
  pose proof Hready as (_ & Hsi & Hfit & Hin & Hdom & Hwf2 & Hwf1 & Hwf0).
  rewrite (feedbackCycle_spec host fi names st now rx Hready).
  do 3 eexists. split; [reflexivity|].
  pose proof (Z.mod_pos_bound prevEnd fi ltac:(lia)) as Hmod.
  assert (Hsl : sleepingInterval st = fi - prevEnd mod fi).
  { unfold sleepingIntervalOf in Hsleep. rewrite (wrap64_small fi) in Hsleep by lia.
    rewrite decide_False in Hsleep by lia. injection Hsleep as <-.
    apply wrap64_small. lia. }
  split; [|lia].
  change 12 with (Z.of_nat 12).
  rewrite (report_read_block _ _ _ _ _ _ _ i name 12 4) by (done || lia).
  cbn [fmap option_fmap option_map]. f_equal.
  unfold blockImage, sampleBytes.
  rewrite <- !app_assoc. rewrite (app_assoc (host_bytes host 4 _)).
  rewrite drop_app_length'
    by (by rewrite !length_app, length_host_bytes, length_be_bytes).
  rewrite take_app_length' by (by rewrite length_be_bytes).
  rewrite be_value_be_bytes, snapshot_lookup, Hinfo. cbn [fmap option_fmap option_map default].
  change (2 ^ (8 * Z.of_nat 4)) with (2^32).
  unfold throughputOf. rewrite Hsl.
  assert (Hq : 0 <= nbytesAcc info * 8 / (fi - prevEnd mod fi) <= nbytesAcc info * 8).
  { split; [apply Z.div_pos; lia|]. apply Z.div_le_upper_bound; nia. }
  rewrite (wrap32_small (nbytesAcc info)) by lia. unfold id.
  rewrite (wrap32_small (nbytesAcc info * 8)) by lia.
  rewrite wrap32_small by lia. apply Z.mod_small. lia.
Qed.

Lemma report_throughput_witness :
  let st := MkFeedbackSenderState ∅ ∅ ∅ 50 in
  let info := MkIfaceInfo "10.0.0.1" "10.0.0.2" None 3 1000 0 in
  let rx := MkDataReceiverShared (<["lo" := info]> ∅) (<["lo" := 0]> ∅) in
  cycle_ready 100 ["lo"] st rx /\ 0 < 100 < 2^31 /\
  sleepingIntervalOf 100 1050 = Ok (sleepingInterval st) /\
  ["lo"] !! 0%nat = Some "lo" /\ ifaceMap rx !! "lo" = Some info /\
  0 <= nbytesAcc info /\ nbytesAcc info * 8 < 2^32 /\
  exists report st' rx',
    feedbackCycle LittleEndian 100 ["lo"] st 1100 rx = Ok (report, st', rx') /\
    be_value <$> read_at report (4 + 40 * Z.of_nat 0 + 12) 4
      = Some (nbytesAcc info * 8 / (100 - 1050 mod 100)) /\
    1 <= 100 - 1050 mod 100 <= 100.
Proof.
  intros st info rx.
  assert (Hready : cycle_ready 100 ["lo"] st rx).
  { refine (conj _ (conj _ (conj _ (conj _ (conj _ (conj _ (conj _ _))))))).
    - vm_compute. discriminate.
    - vm_compute. discriminate.
    - simpl. lia.
    - intros name Hn.
      repeat (apply elem_of_cons in Hn as [->|Hn]); [by vm_compute; eexists..|].
      by apply elem_of_nil in Hn.
    - apply (bool_decide_unpack _). by vm_compute.
    - apply history_wf_empty.
    - apply history_wf_empty.
    - apply history_wf_empty. }
  assert (H1 : 0 < 100 < 2^31) by lia.
  assert (H2 : sleepingIntervalOf 100 1050 = Ok (sleepingInterval st)) by reflexivity.
  assert (H3 : ["lo"] !! 0%nat = Some "lo") by reflexivity.
  assert (H4 : ifaceMap rx !! "lo" = Some info) by (by vm_compute).
  assert (H5 : 0 <= nbytesAcc info) by (simpl; lia).
  assert (H6 : nbytesAcc info * 8 < 2^32) by (simpl; lia).
  refine (conj Hready (conj H1 (conj H2 (conj H3 (conj H4 (conj H5 (conj H6 _))))))).
  exact (report_throughput LittleEndian 100 ["lo"] st 1100 rx 1050 0 "lo" info
           Hready H1 H2 H3 H4 H5 H6).
Defined.

(** C4 as it is written fails: with a 100 ms interval and the loop
    entered at clock 1050, the first cycle divides by the 50 ms it
    waited, and 1000 bytes are reported as 160, not as 1000 * 8 / 100. *)
Lemma throughput_divisor_counterexample :
  exists st report st' rx',
    startOfLoop 100 1050 = Ok st /\
    feedbackCycle LittleEndian 100 ["lo"] st 1100
      (MkDataReceiverShared
         (<["lo" := MkIfaceInfo "10.0.0.1" "10.0.0.2" None 3 1000 0]> ∅)
         (<["lo" := 0]> ∅))
      = Ok (report, st', rx') /\
    be_value <$> read_at report (4 + 40 * 0 + 12) 4 = Some 160 /\
    160 <> 1000 * 8 / 100.
Proof.
  do 4 eexists. split; [reflexivity|]. split; [by vm_compute|].
  split; [by vm_compute|]. by vm_compute.
Qed.

End Layout.

Section Positional.

Context {double : Type} (gt_half : double -> bool).
Implicit Types (currentInfo : GpsFix double) (buffer : list byte).

(** A read that does not meet an overwritten range sees the old bytes. *)
Lemma read_at_write_at_other buffer o src buffer' off n :
  write_at buffer o src = Some buffer' ->
  off + Z.of_nat n <= o \/ o + Z.of_nat (length src) <= off ->
  read_at buffer' off n = read_at buffer off n.
Proof.
  intros Hw Hdisj. pose proof (write_at_length _ _ _ _ Hw) as Hlen.
  unfold read_at. rewrite Hlen.
  case_decide as Hin; [|done]. f_equal.
  unfold write_at in Hw. case_decide as Ho; [|done]. injection Hw as <-.
  apply list_eq. intros j.
  destruct (decide (j < n)%nat) as [Hj|Hj].
  2:{ rewrite (lookup_take_ge (drop _ (_ ++ _)) n j) by lia.
      by rewrite (lookup_take_ge (drop _ buffer) n j) by lia. }
  rewrite (lookup_take_lt (drop _ (_ ++ _)) n j Hj), (lookup_take_lt (drop _ buffer) n j Hj).
  rewrite !lookup_drop.
  destruct Hdisj as [Hbefore|Hafter].
  - rewrite lookup_app_l by (rewrite length_take; lia).
    by rewrite lookup_take_lt by lia.
  - rewrite lookup_app_r by (rewrite length_take; lia).
    rewrite lookup_app_r by (rewrite length_take; lia).
    rewrite lookup_drop, length_take. f_equal. lia.
Qed.

Lemma read_at_write_at_defined buffer o src buffer' off n :
  write_at buffer o src = Some buffer' ->
  (exists raw, read_at buffer' off n = Some raw) <-> (exists raw, read_at buffer off n = Some raw).
Proof.
  intros Hw. pose proof (write_at_length _ _ _ _ Hw) as Hlen.
  unfold read_at. rewrite Hlen. case_decide; split; intros [raw H']; by eauto.
Qed.

Lemma readEntry_rat host fi currentInfo buffer name offset j entries :
  readEntry gt_half host fi currentInfo buffer name offset j = Ok entries ->
  forall r, r ∈ entries -> rat r = name.
Proof.
  unfold readEntry.
  destruct (read_at buffer _ 8) as [raw|]; [|done]. cbn [defined obind].
  case_decide.
  - destruct (read_at buffer _ 4) as [raw'|]; [|done]. cbn [defined obind].
    intros [= <-] r Hr. apply list_elem_of_singleton in Hr. by subst r.
  - intros [= <-] r Hr. by apply elem_of_nil in Hr.
Qed.

Lemma readEntries_rat host fi currentInfo buffer name offset entries :
  readEntries gt_half host fi currentInfo buffer name offset = Ok entries ->
  forall r, r ∈ entries -> rat r = name.
Proof.
  unfold readEntries.
  destruct (readEntry _ _ _ _ _ _ _ 0) as [e0| | |] eqn:E0; try done.
  destruct (readEntry _ _ _ _ _ _ _ 1) as [e1| | |] eqn:E1; try done.
  destruct (readEntry _ _ _ _ _ _ _ 2) as [e2| | |] eqn:E2; try done.
  cbn [obind]. intros [= <-] r Hr.
  apply elem_of_app in Hr as [Hr|Hr]; [exact (readEntry_rat _ _ _ _ _ _ _ _ E0 r Hr)|].
  apply elem_of_app in Hr as [Hr|Hr];
    [exact (readEntry_rat _ _ _ _ _ _ _ _ E1 r Hr)|exact (readEntry_rat _ _ _ _ _ _ _ _ E2 r Hr)].
Qed.

Lemma readBlocks_positional host fi currentInfo buffer numberOfRats :
  numberOfRats < 2^32 ->
  forall names i ifaces acc recs ifaces',
  0 <= i <= numberOfRats ->
  4 + 40 * (i + Z.of_nat (length names)) < 2^32 ->
  readBlocks gt_half host fi currentInfo buffer numberOfRats names i ifaces acc
    = Ok (recs, ifaces') ->
  exists per : list (list (DatabaseInfo double)),
    recs = acc ++ concat per /\
    Z.of_nat (length per) = numberOfRats - i /\
    forall (k : nat) entries, per !! k = Some entries ->
      exists name, names !! k = Some name /\
        readEntries gt_half host fi currentInfo buffer name (4 + 40 * (i + Z.of_nat k))
          = Ok entries /\
        forall r, r ∈ entries -> rat r = name.
Proof.
  intros HN. induction names as [|name rest IH]; intros i ifaces acc recs ifaces' Hi Hfit Hrun.
  - cbn [readBlocks] in Hrun. case_decide as Hlt.
    + destruct (read_at buffer _ 4); done.
    + injection Hrun as <- <-. exists []. rewrite app_nil_r.
      split; [done|]. split; [simpl; lia|]. intros k entries Hk. done.
  - cbn [readBlocks] in Hrun. cbn [length] in Hfit. case_decide as Hlt.
    + destruct (read_at buffer _ 4) as [raw|]; [|done]. cbn [defined obind] in Hrun.
      rewrite (wrap32_small (i * 40)), (wrap32_small (4 + i * 40)) in Hrun by lia.
      destruct (readEntries gt_half host fi currentInfo buffer name (4 + i * 40))
        as [entries| | |] eqn:Eent; try done.
      cbn [obind] in Hrun. rewrite (wrap32_small (i + 1)) in Hrun by lia.
      apply IH in Hrun as (per & -> & Hlen & Hper); [|lia|lia].
      exists (entries :: per). split; [by rewrite <- app_assoc|].
      split; [cbn [length]; lia|].
      intros [|k] ents Hk.
      * injection Hk as <-. exists name. split; [done|]. split.
        -- rewrite <- Eent. f_equal. simpl. lia.
        -- by eapply readEntries_rat.
      * destruct (Hper k ents Hk) as (n & Hn & Hread & Hrat).
        exists n. split; [done|]. split; [|done].
        rewrite <- Hread. f_equal. lia.
    + injection Hrun as <- <-. exists []. rewrite app_nil_r.
      split; [done|]. split; [simpl; lia|]. intros k entries Hk. done.
Qed.

Lemma readEntry_overwrite_index host fi currentInfo buffer buffer' idx name (k : nat) i j :
  write_at buffer (4 + 40 * Z.of_nat k) idx = Some buffer' -> length idx = 4%nat ->
  0 <= i -> 4 + 40 * i + 40 < 2^32 -> 0 <= j < 3 ->
  readEntry gt_half host fi currentInfo buffer' name (4 + 40 * i) j
  = readEntry gt_half host fi currentInfo buffer name (4 + 40 * i) j.
Proof.
  intros Hw Hidx Hi Hfit Hj. unfold readEntry.
  rewrite (wrap32_small (j * 12)) by lia.
  rewrite (wrap32_small (4 + 40 * i + 4 + j * 12)) by lia.
  rewrite (read_at_write_at_other _ _ _ _ _ 8 Hw) by lia.
  destruct (read_at buffer _ 8) as [raw|]; [|done]. cbn [defined obind].
  case_decide; [|done].
  by rewrite (read_at_write_at_other _ _ _ _ _ 4 Hw) by lia.
Qed.

Lemma readBlocks_overwrite_index host fi currentInfo buffer buffer' idx (k : nat) numberOfRats :
  write_at buffer (4 + 40 * Z.of_nat k) idx = Some buffer' -> length idx = 4%nat ->
  forall names i ifaces acc,
  0 <= i -> 4 + 40 * (i + Z.of_nat (length names)) < 2^32 ->
  readBlocks gt_half host fi currentInfo buffer' numberOfRats names i ifaces acc
  = readBlocks gt_half host fi currentInfo buffer numberOfRats names i ifaces acc.
Proof.
  intros Hw Hidx. induction names as [|name rest IH]; intros i ifaces acc Hi Hfit.
  - cbn [readBlocks]. case_decide; [|done].
    pose proof (read_at_write_at_defined _ _ _ _ (wrap32 (4 + wrap32 (i * 40))) 4 Hw) as Hdef.
    destruct (read_at buffer' _ 4) as [raw'|], (read_at buffer _ 4) as [raw|]; try done.
    + destruct Hdef as [[? ?] _]; [by eauto|done].
    + destruct Hdef as [_ [? ?]]; [by eauto|done].
  - cbn [readBlocks]. cbn [length] in Hfit. case_decide; [|done].
    pose proof (read_at_write_at_defined _ _ _ _ (wrap32 (4 + wrap32 (i * 40))) 4 Hw) as Hdef.
    destruct (read_at buffer' _ 4) as [raw'|], (read_at buffer _ 4) as [raw|].
    + cbn [defined obind].
      rewrite (wrap32_small (i * 40)), (wrap32_small (4 + i * 40)) by lia.
      replace (4 + i * 40) with (4 + 40 * i) by lia.
      unfold readEntries.
      rewrite !(readEntry_overwrite_index host fi currentInfo buffer buffer' idx name k)
        by (done || lia).
      destruct (readEntry _ _ _ _ buffer _ _ 0); cbn [obind]; try done.
      destruct (readEntry _ _ _ _ buffer _ _ 1); cbn [obind]; try done.
      destruct (readEntry _ _ _ _ buffer _ _ 2); cbn [obind]; try done.
      rewrite (wrap32_small (i + 1)) by lia. apply IH; lia.
    + destruct Hdef as [[? ?] _]; [by eauto|done].
    + destruct Hdef as [_ [? ?]]; [by eauto|done].
    + done.
Qed.

(** C10.  The records decoded from the block at position [i] carry the
    [i]-th name of the receiver's own list, and the four bytes of the
    index field play no part: overwriting the index field of any block
    with any four bytes leaves the outcome of the decoding unchanged. *)
Theorem decode_is_positional host fi names ifaces buffer currentInfo :
  4 + 40 * Z.of_nat (length names) < 2^32 ->
  (forall recs ifaces',
     readFeedbackMessage gt_half host fi names ifaces buffer currentInfo = Ok (recs, ifaces') ->
     exists (raw : list byte) (per : list (list (DatabaseInfo double))),
       read_at buffer 0 4 = Some raw /\
       Z.of_nat (length per) = be_value raw /\
       recs = concat per /\
       forall (i : nat) entries, per !! i = Some entries ->
         exists name, names !! i = Some name /\
           readEntries gt_half host fi currentInfo buffer name (4 + 40 * Z.of_nat i)
             = Ok entries /\
           forall r, r ∈ entries -> rat r = name) /\
  (forall (k : nat) idx buffer',
     length idx = 4%nat ->
     write_at buffer (4 + 40 * Z.of_nat k) idx = Some buffer' ->
     readFeedbackMessage gt_half host fi names ifaces buffer' currentInfo
     = readFeedbackMessage gt_half host fi names ifaces buffer currentInfo).
Proof.
  intros Hfit. split.
  - intros recs ifaces' Hrun. unfold readFeedbackMessage in Hrun.
    destruct (read_at buffer 0 4) as [raw|] eqn:Eraw; [|done]. cbn [defined obind] in Hrun.
    pose proof (read_at_length _ _ _ _ Eraw) as Hraw.
    rewrite ntohl_host_value in Hrun by done.
    pose proof (be_value_range raw) as Hrange. rewrite Hraw in Hrange.
    change (2 ^ (8 * Z.of_nat 4)) with (2^32) in Hrange.
    apply readBlocks_positional in Hrun as (per & -> & Hlen & Hper); [|lia|lia|lia].
    exists raw, per. split; [done|]. split; [lia|]. split; [done|].
    intros i entries Hi. destruct (Hper i entries Hi) as (name & Hn & Hread & Hrat).
    exists name. by rewrite Z.add_0_l in Hread.
  - intros k idx buffer' Hidx Hw. unfold readFeedbackMessage.
    rewrite (read_at_write_at_other _ _ _ _ 0 4 Hw) by lia.
    destruct (read_at buffer 0 4) as [raw|]; [|done]. cbn [defined obind].
    apply (readBlocks_overwrite_index host fi currentInfo buffer buffer' idx k); (done || lia).
Qed.

End Positional.

Lemma decode_is_positional_witness :
  let names := ["lo"; "802.11ac"] in
  let buffer := be_bytes 4 1 ++ le_bytes 4 7 ++ sampleBytes 1000 500
                  ++ zeroSample ++ zeroSample in
  let gps := MkGpsFix tt tt tt tt in
  let gt_half := fun _ : unit => false in
  4 + 40 * Z.of_nat (length names) < 2^32 /\
  (forall recs ifaces',
     readFeedbackMessage gt_half LittleEndian 100 names ∅ buffer gps = Ok (recs, ifaces') ->
     exists (raw : list byte) (per : list (list (DatabaseInfo unit))),
       read_at buffer 0 4 = Some raw /\
       Z.of_nat (length per) = be_value raw /\
       recs = concat per /\
       forall (i : nat) entries, per !! i = Some entries ->
         exists name, names !! i = Some name /\
           readEntries gt_half LittleEndian 100 gps buffer name (4 + 40 * Z.of_nat i)
             = Ok entries /\
           forall r, r ∈ entries -> rat r = name) /\
  (forall (k : nat) idx buffer',
     length idx = 4%nat ->
     write_at buffer (4 + 40 * Z.of_nat k) idx = Some buffer' ->
     readFeedbackMessage gt_half LittleEndian 100 names ∅ buffer' gps
     = readFeedbackMessage gt_half LittleEndian 100 names ∅ buffer gps).
Proof.
  intros names buffer gps gt_half.
  assert (Hfit : 4 + 40 * Z.of_nat (length names) < 2^32) by (simpl; lia).
  split; [exact Hfit|].
  exact (decode_is_positional gt_half LittleEndian 100 names ∅ buffer gps Hfit).
Defined.

(** *** The handoff *)

Section Handoff.

(** C2, evaluated on the program.  On the schedule above 150 bytes are
    received and 250 are subtracted; the counter ends at 2^64 - 100, not
    at 150 - 250. *)
Theorem handoff_counter_wraps :
  exists st,
    runHandoff handoffStart staleDrainSchedule = Some st /\
    accOf st "lo" = Some (2^64 - 100) /\
    receivedBy "lo" staleDrainSchedule = 150 /\
    drainedBy "lo" handoffStart staleDrainSchedule = 250.
Proof.
  eexists. split; [by vm_compute|]. split; [by vm_compute|]. split; by vm_compute.
Qed.

(** C3, evaluated on the program.  Before the last step of the schedule
    the pending drain of "lo" is 150 and its counter is 50. *)
Theorem handoff_pending_exceeds_counter :
  exists st,
    runHandoff handoffStart (take 7 staleDrainSchedule) = Some st /\
    accOf st "lo" = Some 50 /\ pendingOf st "lo" = Some 150 /\
    ~ pending_bounded st.
Proof.
  eexists. split; [by vm_compute|]. split; [by vm_compute|]. split; [by vm_compute|].
  intros Hinv. specialize (Hinv "lo" 50 150). vm_compute in Hinv.
  by specialize (Hinv eq_refl eq_refl eq_refl).
Qed.

End Handoff.

Section SerializedHandoff.

Lemma runHandoff_app st a b :
  runHandoff st (a ++ b) = runHandoff st a ≫= fun st1 => runHandoff st1 b.
Proof.
  revert st. induction a as [|ev a IH]; intros st; [done|].
  cbn [app runHandoff]. destruct (handoffStep st ev) as [st1|]; [|done].
  cbn. apply IH.
Qed.

Lemma receivedBy_app ifname a b :
  receivedBy ifname (a ++ b) = receivedBy ifname a + receivedBy ifname b.
Proof.
  induction a as [|ev a IH]; [done|].
  cbn [app receivedBy]. destruct ev; rewrite IH; lia.
Qed.

Lemma drainedBy_app ifname a b :
  forall st,
  drainedBy ifname st (a ++ b)
  = drainedBy ifname st a
    + match runHandoff st a with
      | Some st1 => drainedBy ifname st1 b
      | None => 0
      end.
Proof.
  induction a as [|ev a IH]; intros st; [done|].
  cbn [app drainedBy runHandoff]. destruct (handoffStep st ev) as [st1|]; cbn.
  - rewrite IH. lia.
  - lia.
Qed.

Lemma receivedBy_nonneg ifname evs :
  forall st st', runHandoff st evs = Some st' -> 0 <= receivedBy ifname evs.
Proof.
  induction evs as [|ev evs IH]; intros st st' Hrun; [done|].
  cbn [runHandoff] in Hrun.
  destruct (handoffStep st ev) as [st1|] eqn:Hstep; [|done]. cbn in Hrun.
  specialize (IH st1 st' Hrun).
  destruct ev as [n b| | |]; cbn [receivedBy]; try done.
  unfold handoffStep in Hstep.
  destruct (ifaceMap (hs_shared st) !! n); [|done]. cbn in Hstep.
  destruct (decide (0 < b <= RCV_BUF_LEN)) as [Hg|Hg]; [|done]. case_decide; lia.
Qed.

Lemma accOf_insert st ifname info acc name :
  accOf (MkHandoffState
           (MkDataReceiverShared (<[ifname := setAcc info acc]> (ifaceMap (hs_shared st)))
              (nbytes_reset_value (hs_shared st)))
           (hs_nbytesMap st)) name
  = if decide (ifname = name) then Some acc else accOf st name.
Proof.
  unfold accOf. cbn. rewrite lookup_insert. by case_decide.
Qed.

(** One step of a serialized schedule keeps the state settled and
    accounts for every byte. *)
Lemma serialized_step ev st st' :
  handoff_settled st ->
  runHandoff st (expand [ev]) = Some st' ->
  (forall name acc, accOf st name = Some acc ->
     acc + receivedBy name (expand [ev]) < 2^64) ->
  handoff_settled st' /\
  (forall name,
     accOf st' name
     = (fun acc => acc + receivedBy name (expand [ev]) - drainedBy name st (expand [ev]))
         <$> accOf st name) /\
  (forall name, 0 <= drainedBy name st (expand [ev])).
Proof.
  intros (Hnone & Hpend & Hacc & Hbound) Hrun Hroom.
  destruct st as [[m reset] nbm]. cbn in Hnone. subst nbm.
  destruct ev as [ifname nbytes|ifname|]; cbn in Hrun.
  - (* a receive *)
    destruct (m !! ifname) as [info|] eqn:Einfo; [|done]. cbn in Hrun.
    destruct (decide (0 < nbytes <= RCV_BUF_LEN)) as [Hn|Hn]; [|done]. injection Hrun as <-.
    assert (Hacc0 := Hacc ifname (nbytesAcc info)). unfold accOf in Hacc0. cbn in Hacc0.
    rewrite Einfo in Hacc0. specialize (Hacc0 eq_refl).
    assert (Hroom0 := Hroom ifname (nbytesAcc info)). unfold accOf in Hroom0.
    cbn in Hroom0. rewrite Einfo, decide_True in Hroom0 by done. specialize (Hroom0 eq_refl).
    rewrite (wrap64_small (nbytesAcc info + nbytes)) by lia.
    split; [|split].
    + split; [done|]. split; [|split].
      * intros name pending Hp. destruct (Hpend name pending Hp) as [H0 [a Ha]].
        split; [done|]. unfold accOf in *. cbn in *. rewrite lookup_insert.
        case_decide; [by eexists|by exists a].
      * intros name acc. unfold accOf. cbn. rewrite lookup_insert.
        case_decide; [cbn; intros [= <-]; lia|apply (Hacc name)].
      * intros name acc pending. unfold accOf, pendingOf. cbn. rewrite lookup_insert.
        case_decide as Hname.
        -- subst name. cbn. intros [= <-] Hp.
           pose proof (Hbound ifname (nbytesAcc info) pending) as Hb.
           unfold accOf, pendingOf in Hb. cbn in Hb. rewrite Einfo in Hb.
           specialize (Hb eq_refl Hp). lia.
        -- apply (Hbound name).
    + intros name. unfold accOf. cbn. rewrite lookup_insert, Einfo. cbn.
      rewrite (decide_True (P := 0 < nbytes <= RCV_BUF_LEN)) by done.
      case_decide as Hname.
      * subst name. rewrite Einfo. cbn. f_equal. lia.
      * destruct (m !! name); cbn; [f_equal; lia|done].
    + intros name. cbn. rewrite Einfo. cbn.
      by rewrite (decide_True (P := 0 < nbytes <= RCV_BUF_LEN)) by done.
  - (* the worker applies the pending drain *)
    destruct (m !! ifname) as [info|] eqn:Einfo; [|done]. cbn in Hrun.
    destruct (reset !! ifname) as [pending|] eqn:Epend; [|done]. cbn in Hrun.
    assert (Hacc0 := Hacc ifname (nbytesAcc info)). unfold accOf in Hacc0. cbn in Hacc0.
    rewrite Einfo in Hacc0. specialize (Hacc0 eq_refl).
    pose proof (Hbound ifname (nbytesAcc info) pending) as Hb.
    unfold accOf, pendingOf in Hb. cbn in Hb. rewrite Einfo in Hb.
    specialize (Hb eq_refl Epend).
    destruct (Hpend ifname pending Epend) as [Hp0 _].
    assert (Hdr : forall name,
              drainedBy name (MkHandoffState (MkDataReceiverShared m reset) None)
                (expand [SApplyDrain ifname])
              = if decide (ifname = name) then pending else 0).
    { intros name. cbn. rewrite Einfo, Epend. cbn.
      destruct (decide (pending > 0)); destruct (decide (ifname = name)) as [<-|Hname];
        rewrite ?Epend; cbn; lia. }
    split; [|split].
    + destruct (decide (pending > 0)) as [Hpos|Hpos]; injection Hrun as <-.
      2:{ done. }
      rewrite (wrap64_small (nbytesAcc info - pending)) by lia.
      split; [done|]. split; [|split].
      * intros name p. unfold pendingOf, accOf. cbn. rewrite !lookup_insert.
        case_decide; [intros [= <-]; split; [lia|by eexists]|].
        intros Hp. apply (Hpend name p Hp).
      * intros name acc. unfold accOf. cbn. rewrite lookup_insert.
        case_decide; [cbn; intros [= <-]; lia|apply (Hacc name)].
      * intros name acc p. unfold accOf, pendingOf. cbn. rewrite !lookup_insert.
        case_decide; [cbn; intros [= <-] [= <-]; lia|apply (Hbound name)].
    + intros name. rewrite Hdr. change (receivedBy name (expand [SApplyDrain ifname])) with 0.
      destruct (decide (pending > 0)) as [Hpos|Hpos]; injection Hrun as <-.
      * rewrite (wrap64_small (nbytesAcc info - pending)) by lia.
        unfold accOf. cbn. rewrite lookup_insert. case_decide as Hname.
        -- subst name. rewrite Einfo. cbn. f_equal. lia.
        -- destruct (m !! name); cbn; [f_equal; lia|done].
      * unfold accOf. cbn. case_decide as Hname.
        -- subst name. rewrite Einfo. cbn. f_equal. lia.
        -- destruct (m !! name); cbn; [f_equal; lia|done].
    + intros name. rewrite Hdr. destruct (decide (ifname = name)); lia.
  - (* the feedback thread reads and writes in one go *)
    unfold publish in Hrun. case_decide as Hdom; [|done]. cbn in Hrun.
    injection Hrun as <-.
    assert (Hlook : forall name p,
              map_imap (fun name _ => snapshot m !! name) reset !! name = Some p ->
              exists info, m !! name = Some info /\ p = wrap32 (nbytesAcc info)).
    { intros name p. rewrite map_lookup_imap.
      destruct (reset !! name) as [p0|] eqn:E; [|done]. cbn.
      rewrite snapshot_lookup. destruct (m !! name) as [info|]; [|done].
      cbn. intros [= <-]. by eauto. }
    split; [|split].
    + split; [done|]. split; [|split].
      * intros name p Hp. unfold pendingOf in Hp. cbn in Hp.
        destruct (Hlook name p Hp) as (info & Hinfo & ->).
        split; [unfold wrap32; apply Z.mod_pos_bound; lia|].
        unfold accOf. cbn. rewrite Hinfo. by eexists.
      * apply Hacc.
      * intros name acc p Ha Hp. unfold pendingOf in Hp. cbn in Hp.
        destruct (Hlook name p Hp) as (info & Hinfo & ->).
        unfold accOf in Ha. cbn in Ha. rewrite Hinfo in Ha. injection Ha as <-.
        pose proof (Hacc name (nbytesAcc info)) as Hr. unfold accOf in Hr. cbn in Hr.
        rewrite Hinfo in Hr. specialize (Hr eq_refl).
        unfold wrap32. apply Z.mod_le; lia.
    + intros name. cbn. unfold publish. rewrite decide_True by done.
      cbn. unfold accOf. cbn. destruct (m !! name); cbn; [f_equal; lia|done].
    + intros name. cbn. unfold publish. by rewrite decide_True by done.
Qed.

Lemma expand_cons ev evs : expand (ev :: evs) = expand [ev] ++ expand evs.
Proof. unfold expand. cbn. by rewrite app_nil_r. Qed.

(** Under serialized schedules the claim about the counter holds: the
    state stays settled, with no pending drain above its counter, and the
    counter is what was received minus what was drained, provided the
    bytes received fit the 64-bit counter. *)
Lemma serialized_handoff_exact evs :
  forall st st',
  handoff_settled st ->
  runHandoff st (expand evs) = Some st' ->
  (forall name acc, accOf st name = Some acc ->
     acc + receivedBy name (expand evs) < 2^64) ->
  handoff_settled st' /\
  forall name,
    accOf st' name
    = (fun acc => acc + receivedBy name (expand evs) - drainedBy name st (expand evs))
        <$> accOf st name.
Proof.
  induction evs as [|ev evs IH]; intros st st' Hset Hrun Hroom.
  - cbn in Hrun. injection Hrun as <-. split; [done|].
    intros name. cbn. destruct (accOf st name); cbn; [f_equal; lia|done].
  - rewrite expand_cons in Hrun, Hroom. rewrite expand_cons.
    pose proof (serialized_step ev st) as Hone.
    remember (expand [ev]) as e1 eqn:He1. remember (expand evs) as e2 eqn:He2.
    rewrite runHandoff_app in Hrun.
    destruct (runHandoff st e1) as [st1|] eqn:Hstep; [|done]. cbn [mbind option_bind] in Hrun.
    pose proof (receivedBy_nonneg) as Hnn.
    destruct (Hone st1 Hset eq_refl) as (Hset1 & Hled1 & Hdr1).
    { intros name acc Ha. specialize (Hroom name acc Ha).
      rewrite receivedBy_app in Hroom.
      pose proof (Hnn name _ _ _ Hrun). lia. }
    destruct (IH st1 st' Hset1 Hrun) as [Hset' Hled'].
    { intros name acc1 Ha1. rewrite Hled1 in Ha1.
      destruct (accOf st name) as [acc|] eqn:Ha; [|done].
      specialize (Hroom name acc Ha). rewrite receivedBy_app in Hroom.
      specialize (Hdr1 name).
      cbn [fmap option_fmap option_map] in Ha1. injection Ha1 as <-. lia. }
    split; [done|].
    intros name. rewrite Hled', Hled1, receivedBy_app, drainedBy_app, Hstep.
    destruct (accOf st name) as [acc|]; [|done].
    change (Some (acc + receivedBy name e1 - drainedBy name st e1
                  + receivedBy name e2 - drainedBy name st1 e2)
            = Some (acc + (receivedBy name e1 + receivedBy name e2)
                    - (drainedBy name st e1 + drainedBy name st1 e2))).
    f_equal. lia.
Qed.

End SerializedHandoff.

(** *** The configuration readers *)

Section ConfigFacts.

Lemma lbind_Ok {A B : Type} (c : logged A) (k : A -> logged B) r :
  (lbind c k).2 = Ok r -> exists a, c.2 = Ok a /\ (k a).2 = Ok r.
Proof.
  unfold lbind. destruct c as [l [a|e| |code]]; cbn; try done. by eauto.
Qed.

(** A numeric port outside 1024..49151 is replaced by the default, with
    one message at level [ERROR], and the reader returns. *)
Lemma readPort_out_of_range cfile secName defPort v portv :
  Value cfile secName "port" = Ok v -> stoi v = Ok portv ->
  ~ (1024 <= portv <= 49151) ->
  exists msg, readPort cfile secName defPort = ([(ERROR, msg)], Ok defPort).
Proof.
  intros Hv Hs Hrange. unfold readPort. rewrite Hv. cbn [obind]. rewrite Hs.
  unfold try_catch_char_ptr, lbind, lift. cbn [fst snd].
  rewrite decide_False by lia. cbn. by eexists.
Qed.

(** A port inside the range is taken. *)
Lemma readPort_in_range cfile secName defPort v portv :
  Value cfile secName "port" = Ok v -> stoi v = Ok portv ->
  1024 <= portv <= 49151 ->
  readPort cfile secName defPort = ([], Ok portv).
Proof.
  intros Hv Hs Hrange. unfold readPort. rewrite Hv. cbn [obind]. rewrite Hs.
  unfold try_catch_char_ptr, lbind, lift. cbn [fst snd].
  rewrite decide_True by lia. cbn. unfold wrap16. by rewrite Z.mod_small by lia.
Qed.

(** The exception of [ConfigFile::Value] is a [std::runtime_error], which
    the handler of the reader, written for a thrown C string, does not catch. *)
Lemma readPort_missing cfile secName defPort :
  cfile !! (secName +:+ "/" +:+ "port") = None ->
  readPort cfile secName defPort = ([], Throw (runtime_error "does not exist")).
Proof. intros H. unfold readPort, Value. by rewrite H. Qed.

(** C7, evaluated on the program.  With no [port] key in the section the
    exception of [ConfigFile::Value] leaves [readPort], and a value that
    is not a number makes [std::stoi] throw out of it as well; neither
    yields the default.  The out-of-range value 80 does. *)
Theorem readPort_missing_or_malformed_escapes :
  readPort ∅ "data-receiver" PORT_SRV_DEF
    = ([], Throw (runtime_error "does not exist")) /\
  readPort (<["data-receiver/port" := "abc"]> ∅) "data-receiver" PORT_SRV_DEF
    = ([], Throw (invalid_argument "stoi")) /\
  (forall indeterminate,
     (DataReceiver_readConfig inet_pton4 indeterminate
        (<["data-receiver/log-level" := "1"]>
           (<["data-receiver/ifaces" := "lo 127.0.0.1"]>
              (<["data-sender/ifaces" := "lo 127.0.0.1"]> ∅)))).2
     = Throw (runtime_error "does not exist")) /\
  (readPort (<["data-receiver/port" := "80"]> ∅) "data-receiver" PORT_SRV_DEF).2
    = Ok PORT_SRV_DEF.
Proof.
  refine (conj _ (conj _ (conj _ _))); [by vm_compute|by vm_compute| |by vm_compute].
  intros indeterminate. by vm_compute.
Qed.

End ConfigFacts.

Section IndexFacts.

Variable inet_pton : string -> bool.
Variable indeterminate : string -> Z.


Lemma length_ws s : (String.length (ws s) <= String.length s)%nat.
Proof. induction s as [|c s IH]; cbn; [lia|]. destruct (isspace c); cbn; lia. Qed.

Lemma length_upto delim s : (String.length (upto delim s).2 <= String.length s)%nat.
Proof. induction s as [|c s IH]; cbn; [lia|]. case_decide; cbn; lia. Qed.

(** A successful [getline] extracts at least one character. *)
Lemma getline_shorter s delim token rest :
  getline (ws s) delim = Some (token, rest) ->
  (String.length rest < String.length s)%nat.
Proof.
  pose proof (length_ws s) as Hws. unfold getline.
  destruct (ws s) as [|c s'] eqn:E; [done|]. intros Hu.
  assert (Hr : (upto delim (String c s')).2 = rest).
  { destruct (upto delim (String c s')) as [t r]. by injection Hu as _ ->. }
  rewrite <- Hr. clear Hu Hr.
  pose proof (length_upto delim s') as Hup.
  cbn [upto]. cbn [String.length] in Hws.
  destruct (decide (c = delim)); cbn [snd]; lia.
Qed.

Lemma lbind_ext {A B : Type} (c : logged A) (k k' : A -> logged B) :
  (forall a, k a = k' a) -> lbind c k = lbind c k'.
Proof. intros H. unfold lbind. destruct c as [l [a| | |]]; cbn; by rewrite ?H. Qed.

(** The loops never use up a fuel above the length of their input: any
    two such fuels give the same run. *)
Lemma readIfacesLoop_fuel secName addrType fuel :
  forall fuel' sstream i m,
  (String.length sstream < fuel)%nat -> (String.length sstream < fuel')%nat ->
  readIfacesLoop inet_pton indeterminate secName addrType fuel sstream i m
  = readIfacesLoop inet_pton indeterminate secName addrType fuel' sstream i m.
Proof.
  induction fuel as [|fuel IH]; intros fuel' sstream i m Hf Hf'; [lia|].
  destruct fuel' as [|fuel']; [lia|]. cbn [readIfacesLoop].
  destruct (getline (ws sstream) ",") as [[ientry rest]|] eqn:E; [|done].
  apply getline_shorter in E.
  destruct (getline (ws ientry) " ") as [[iname esstream]|].
  - apply lbind_ext. intros m'. apply IH; lia.
  - apply lbind_ext. intros _. apply IH; lia.
Qed.

Lemma readIfnamesLoop_fuel secName fuel :
  forall fuel' sstream names,
  (String.length sstream < fuel)%nat -> (String.length sstream < fuel')%nat ->
  readIfnamesLoop secName fuel sstream names = readIfnamesLoop secName fuel' sstream names.
Proof.
  induction fuel as [|fuel IH]; intros fuel' sstream names Hf Hf'; [lia|].
  destruct fuel' as [|fuel']; [lia|]. cbn [readIfnamesLoop].
  destruct (getline (ws sstream) ",") as [[ientry rest]|] eqn:E; [|done].
  apply getline_shorter in E.
  destruct (getline (ws ientry) " ") as [[iname esstream]|].
  - apply IH; lia.
  - apply lbind_ext. intros _. apply IH; lia.
Qed.

(** What [readAddress] does to the table: every entry was there before
    with the same index, or is the new entry of [iname] with index [i];
    reading client addresses leaves the server addresses as they are. *)
Lemma readAddress_Ok secName addrType iname esstream i m :
  exists m1,
    (readAddress inet_pton indeterminate secName addrType iname esstream i m).2 = Ok m1 /\
    forall name info1, m1 !! name = Some info1 ->
      (exists info, m !! name = Some info /\ ifaceId info1 = ifaceId info /\
                    (addrType = CLIENT -> addrSrv info1 = addrSrv info))
      \/ (m !! name = None /\ name = iname /\ ifaceId info1 = i /\
          (addrType = CLIENT -> addrSrv info1 = "")).
Proof.
  unfold readAddress.
  assert (Hid : forall name info1, m !! name = Some info1 ->
            (exists info, m !! name = Some info /\ ifaceId info1 = ifaceId info /\
                          (addrType = CLIENT -> addrSrv info1 = addrSrv info))
            \/ (m !! name = None /\ name = iname /\ ifaceId info1 = i /\
                (addrType = CLIENT -> addrSrv info1 = ""))).
  { intros name info1 H. left. by exists info1. }
  destruct (getline (ws esstream) " ") as [[iaddr rest]|]; [|by eexists].
  destruct (inet_pton iaddr); [|by eexists].
  set (f := match addrType with SERVER => setAddrSrv iaddr | CLIENT => setAddrCli iaddr end).
  set (m0 := match m !! iname with
             | None =>
                 <[iname := MkIfaceInfo "" "" None UNINITIALIZED_FD (indeterminate iname) i]> m
             | Some _ => m
             end).
  exists (alter f iname m0). split; [by destruct addrType|].
  intros name info1. rewrite lookup_alter.
  assert (Hf : forall x, ifaceId (f x) = ifaceId x /\ (addrType = CLIENT -> addrSrv (f x) = addrSrv x)).
  { intros x. subst f. by destruct addrType. }
  case_decide as Hname.
  - subst name. subst m0. destruct (m !! iname) as [info|] eqn:E.
    + rewrite E. cbn. intros [= <-]. left. exists info. by destruct (Hf info).
    + rewrite lookup_insert_eq. cbn. intros [= <-]. right.
      destruct (Hf (MkIfaceInfo "" "" None UNINITIALIZED_FD (indeterminate iname) i)) as [-> Hs].
      repeat split; try done; intros Hc; by rewrite Hs.
  - subst m0. destruct (m !! iname) as [info|] eqn:E.
    + apply Hid.
    + rewrite lookup_insert_ne by done. apply Hid.
Qed.

(** The server pass and [readIfnames] walk the same entries: an entry of
    the table carries the position of one of its name's occurrences. *)
Lemma readIfacesLoop_positions secName secName' fuel :
  forall sstream i m names m',
  (readIfacesLoop inet_pton indeterminate secName SERVER fuel sstream i m).2 = Ok m' ->
  i = Z.of_nat (length names) ->
  (forall name info, m !! name = Some info ->
     exists p : nat, names !! p = Some name /\ ifaceId info = Z.of_nat p) ->
  exists names',
    (readIfnamesLoop secName' fuel sstream names).2 = Ok names' /\
    forall name info, m' !! name = Some info ->
      exists p : nat, names' !! p = Some name /\ ifaceId info = Z.of_nat p.
Proof.
  induction fuel as [|fuel IH]; intros sstream i m names m' Hrun Hi Hinv.
  - cbn in Hrun. injection Hrun as <-. by exists names.
  - cbn [readIfacesLoop readIfnamesLoop] in *.
    destruct (getline (ws sstream) ",") as [[ientry rest]|].
    2:{ cbn in Hrun. injection Hrun as <-. by exists names. }
    destruct (getline (ws ientry) " ") as [[iname esstream]|].
    + apply lbind_Ok in Hrun as (m1 & Hm1 & Hrun).
      destruct (readAddress_Ok secName SERVER iname esstream i m) as (m1' & Hm1' & Hent).
      rewrite Hm1 in Hm1'. injection Hm1' as <-.
      apply (IH rest (i + 1) m1 (names ++ [iname]) m') in Hrun; [done| |].
      * rewrite length_app. simpl. lia.
      * intros name info1 Hl. destruct (Hent name info1 Hl) as
          [(info & Hm & Hid & _)|(Hnone & -> & Hid & _)].
        -- destruct (Hinv name info Hm) as (p & Hp & Hidp).
           exists p. split; [by apply lookup_app_l_Some|congruence].
        -- exists (length names). split; [|lia].
           by rewrite list_lookup_middle.
    + apply lbind_Ok in Hrun as ([] & _ & Hrun).
      destruct (IH rest i m names m' Hrun Hi Hinv) as (names' & Hn & Hpos).
      exists names'. split; [|done].
      unfold lbind, LOG. cbn [fst snd]. by rewrite Hn.
Qed.

(** The client pass keeps the index and the server address of every
    entry it finds, and the entries it adds have no server address. *)
Lemma readIfacesLoop_client secName fuel :
  forall sstream i m m',
  (readIfacesLoop inet_pton indeterminate secName CLIENT fuel sstream i m).2 = Ok m' ->
  forall name info', m' !! name = Some info' ->
    (exists info, m !! name = Some info /\ ifaceId info' = ifaceId info /\
                  addrSrv info' = addrSrv info)
    \/ (m !! name = None /\ addrSrv info' = "").
Proof.
  induction fuel as [|fuel IH]; intros sstream i m m' Hrun name info' Hl.
  - cbn in Hrun. injection Hrun as <-. left. by exists info'.
  - cbn [readIfacesLoop] in Hrun.
    destruct (getline (ws sstream) ",") as [[ientry rest]|].
    2:{ cbn in Hrun. injection Hrun as <-. left. by exists info'. }
    destruct (getline (ws ientry) " ") as [[iname esstream]|].
    + apply lbind_Ok in Hrun as (m1 & Hm1 & Hrun).
      destruct (readAddress_Ok secName CLIENT iname esstream i m) as (m1' & Hm1' & Hent).
      rewrite Hm1 in Hm1'. injection Hm1' as <-.
      destruct (IH rest (i + 1) m1 m' Hrun name info' Hl)
        as [(info1 & Hl1 & Hid1 & Hs1)|(Hnone1 & Hs1)].
      * destruct (Hent name info1 Hl1) as [(info & Hm & Hid & Hs)|(Hnone & _ & _ & Hs)].
        -- left. exists info. repeat split; [done|congruence|]. rewrite Hs1. by apply Hs.
        -- right. split; [done|]. rewrite Hs1. by apply Hs.
      * right. split; [|done].
        destruct (m !! name) as [info|] eqn:E; [|done].
        destruct (readAddress_Ok secName CLIENT iname esstream i m) as (m1' & Hm1' & _).
        rewrite Hm1 in Hm1'. injection Hm1' as <-.
        exfalso. clear - Hm1 E Hnone1.
        unfold readAddress in Hm1.
        destruct (getline (ws esstream) " ") as [[iaddr r]|];
          [|cbn in Hm1; injection Hm1 as <-; congruence].
        destruct (inet_pton iaddr); [|cbn in Hm1; injection Hm1 as <-; congruence].
        cbn in Hm1. injection Hm1 as <-.
        rewrite lookup_alter in Hnone1. case_decide as Hn.
        -- subst iname. rewrite E in Hnone1. by rewrite E in Hnone1.
        -- destruct (m !! iname); [congruence|].
           rewrite lookup_insert_ne in Hnone1 by done. congruence.
    + apply lbind_Ok in Hrun as ([] & _ & Hrun).
      by apply (IH rest i m m' Hrun).
Qed.

End IndexFacts.

Section InterfaceIndex.

Variable inet_pton : string -> bool.
Variable indeterminate : string -> Z.



End InterfaceIndex.



(** *** Picking an interface *)

Section Pick.

Lemma in_order_Permutation {V : Type} (m : gmap string V) : in_order m ≡ₚ map_to_list m.
Proof. unfold in_order. apply merge_sort_Permutation. Qed.

Lemma length_in_order {V : Type} (m : gmap string V) : length (in_order m) = size m.
Proof. rewrite in_order_Permutation. apply length_map_to_list. Qed.

(** A draw below the size of the table picks one of its names. *)
Lemma pickRandomIface_inside draw (ifaces : IfaceInfoMap) :
  0 <= draw 0 (to_int32 (Z.of_nat (size ifaces))) < Z.of_nat (size ifaces) ->
  exists name, pickRandomIface draw ifaces = Ok name /\ is_Some (ifaces !! name).
Proof.
  intros Hidx. unfold pickRandomIface.
  destruct (lookup_lt_is_Some_2 (in_order ifaces)
              (Z.to_nat (draw 0 (to_int32 (Z.of_nat (size ifaces))))))
    as [[name info] Hl]; [rewrite length_in_order; lia|].
  rewrite Hl. exists name. split; [done|]. exists info.
  apply elem_of_map_to_list. rewrite <- in_order_Permutation.
  by eapply list_elem_of_lookup_2.
Qed.

(** The draw equal to the size, which the distribution over
    [0 .. size] allows, leaves the iterator at [end()]. *)
Lemma pickRandomIface_at_size draw (ifaces : IfaceInfoMap) :
  draw 0 (to_int32 (Z.of_nat (size ifaces))) = Z.of_nat (size ifaces) ->
  pickRandomIface draw ifaces = Undefined.
Proof.
  intros Hidx. unfold pickRandomIface. rewrite Hidx, Nat2Z.id.
  by rewrite (lookup_ge_None_2 (in_order ifaces)) by (by rewrite length_in_order).
Qed.

(** C8, evaluated on the program.  For a table with the single interface
    "lo" the distribution ranges over 0 and 1; the draw 1 is not an
    element of the table, and it is the draw GNU libstdc++ makes from the
    seed 123123123. *)
Theorem pickRandomIface_past_the_end :
  let ifaces : IfaceInfoMap :=
    <["lo" := MkIfaceInfo "127.0.0.1" "127.0.0.1" None 3 0 0]> ∅ in
  pickRandomIface (fun a b => b) ifaces = Undefined /\
  libstdcxx_draw 0 (to_int32 (Z.of_nat (size ifaces))) = 1 /\
  pickRandomIface libstdcxx_draw ifaces = Undefined.
Proof. repeat split; by vm_compute. Qed.

End Pick.

(** *** Closing the sockets *)

Section Sockets.

Lemma closedFds_app cs1 cs2 : closedFds (cs1 ++ cs2) = closedFds cs1 ++ closedFds cs2.
Proof. unfold closedFds. apply omap_app. Qed.

Lemma closedFds_close fd w : closedFds (calls (close fd w)) = closedFds (calls w) ++ [fd].
Proof. unfold close. case_decide; cbn [calls]; by rewrite closedFds_app. Qed.

Lemma closedFds_fold (entries : list (string * IfaceInfo)) :
  forall w,
  closedFds (calls (foldl (fun w entry =>
                             let sockfd := sockfd entry.2 in
                             if decide (sockfd <> UNINITIALIZED_FD) then close sockfd w else w)
                          w entries))
  = closedFds (calls w)
    ++ filter (fun fd => fd <> UNINITIALIZED_FD) ((fun entry => sockfd entry.2) <$> entries).
Proof.
  induction entries as [|entry rest IH]; intros w.
  - cbn. by rewrite app_nil_r.
  - cbn [foldl fmap list_fmap]. rewrite IH, filter_cons. cbn zeta.
    case_decide; [|done]. by rewrite closedFds_close, <- app_assoc.
Qed.

(** In broadcast mode the sender's own clean-up closes every opened
    handle twice. *)
Lemma DataSender_cleanup_broadcast ifaces w :
  closedFds (calls (DataSender_cleanup 0 ifaces w))
  = closedFds (calls w) ++ openedHandles ifaces ++ openedHandles ifaces.
Proof.
  unfold DataSender_cleanup, closeIfaceSocks, openedHandles.
  rewrite decide_True by done. by rewrite !closedFds_fold, <- app_assoc.
Qed.

(** C9, as the program has it.  A call of [closeIfaceSocks] calls
    [close] once on every handle of the table that is not
    [UNINITIALIZED_FD], in the order of the table, and leaves the handles
    in the table as they are; a second call therefore calls [close] on the
    same handles again.  [stopThread] calls [close] on nothing, and a
    second [stopThread] changes neither the flags nor the open
    descriptors. *)
Theorem closeIfaceSocks_repeats_its_closes ifaces w st :
  let w1 := closeIfaceSocks ifaces w in
  let w2 := closeIfaceSocks ifaces w1 in
  let s1 := stopThread st w in
  let s2 := stopThread s1.1 s1.2 in
  closedFds (calls w1) = closedFds (calls w) ++ openedHandles ifaces /\
  closedFds (calls w2) = closedFds (calls w1) ++ openedHandles ifaces /\
  closedFds (calls s2.2) = closedFds (calls w) /\
  open_fds s2.2 = open_fds w /\
  s2.1 = s1.1 /\ endProgram_ s1.1 = true /\ stopFlag s1.1 = true.
Proof.
  cbn zeta. unfold closeIfaceSocks, openedHandles.
  rewrite !closedFds_fold. split; [done|]. split; [done|].
  unfold stopThread, DataTransfer_stopThread. cbn.
  rewrite !closedFds_app. cbn. by rewrite !app_nil_r.
Qed.

(** C9 as it is written fails: with the socket of "lo" open on
    descriptor 3, the second call closes descriptor 3 again, and the
    system answers -1. *)
Lemma second_close_counterexample :
  let ifaces : IfaceInfoMap :=
    <["lo" := MkIfaceInfo "127.0.0.1" "127.0.0.1" None 3 0 0]> ∅ in
  let w := MkWorld {[3]} [] [] in
  calls (closeIfaceSocks ifaces w) = [sys_close 3 0] /\
  calls (closeIfaceSocks ifaces (closeIfaceSocks ifaces w))
    = [sys_close 3 0; sys_close 3 (-1)].
Proof. split; by vm_compute. Qed.

End Sockets.

(** ** Part III: further properties of the program *)

(** *** Strings and [trim] *)

(** *** Strings *)

Section StringFacts.

Implicit Types (s t u : string) (c : ascii).

Lemma str_app_cons c s t : String c s +:+ t = String c (s +:+ t).
Proof. reflexivity. Qed.

Lemma str_app_nil_l s : "" +:+ s = s.
Proof. reflexivity. Qed.

Lemma str_app_nil_r s : s +:+ "" = s.
Proof. induction s as [|c s IH]; [done|]. by rewrite str_app_cons, IH. Qed.

Lemma str_app_assoc s t u : (s +:+ t) +:+ u = s +:+ t +:+ u.
Proof. induction s as [|c s IH]; [done|]. by rewrite !str_app_cons, IH. Qed.

Lemma str_length_app s t :
  String.length (s +:+ t) = (String.length s + String.length t)%nat.
Proof. induction s as [|c s IH]; [done|]. rewrite str_app_cons. cbn. by rewrite IH. Qed.

Lemma str_take_0 s : str_take 0 s = "".
Proof. by destruct s. Qed.

Lemma str_drop_0 s : str_drop 0 s = s.
Proof. by destruct s. Qed.

Lemma str_take_drop n s : str_take n s +:+ str_drop n s = s.
Proof.
  revert s. induction n as [|n IH]; intros [|c s]; try done.
  cbn [str_take str_drop]. by rewrite str_app_cons, IH.
Qed.

Lemma str_take_app_length s t : str_take (String.length s) (s +:+ t) = s.
Proof.
  induction s as [|c s IH]; [apply str_take_0|].
  rewrite str_app_cons. cbn. by rewrite IH.
Qed.

Lemma str_drop_app_length s t : str_drop (String.length s) (s +:+ t) = t.
Proof.
  induction s as [|c s IH]; [apply str_drop_0|].
  rewrite str_app_cons. cbn. by rewrite IH.
Qed.

Lemma str_take_all n s : (String.length s <= n)%nat -> str_take n s = s.
Proof.
  revert n. induction s as [|c s IH]; intros [|n] H; try done; [cbn in H; lia|].
  cbn in *. rewrite IH; [done|lia].
Qed.

Lemma str_drop_all n s : (String.length s <= n)%nat -> str_drop n s = "".
Proof.
  revert n. induction s as [|c s IH]; intros [|n] H; try done; [cbn in H; lia|].
  cbn in *. apply IH. lia.
Qed.

Lemma str_length_take n s : String.length (str_take n s) = (n `min` String.length s)%nat.
Proof.
  revert s. induction n as [|n IH]; intros [|c s]; try done. cbn. by rewrite IH.
Qed.

Lemma str_length_drop n s : String.length (str_drop n s) = (String.length s - n)%nat.
Proof.
  revert s. induction n as [|n IH]; intros [|c s]; try done. cbn. by rewrite IH.
Qed.

Lemma str_all_app P s t : str_all P (s +:+ t) = str_all P s && str_all P t.
Proof.
  induction s as [|c s IH]; [done|]. rewrite str_app_cons. cbn. by rewrite IH, andb_assoc.
Qed.

Lemma str_all_take P n s : str_all P s = true -> str_all P (str_take n s) = true.
Proof.
  revert s. induction n as [|n IH]; intros [|c s]; try done. cbn.
  intros [-> H]%andb_true_iff. by apply IH.
Qed.

Lemma str_all_drop P n s : str_all P s = true -> str_all P (str_drop n s) = true.
Proof.
  revert s. induction n as [|n IH]; intros [|c s]; try done. cbn.
  intros [_ H]%andb_true_iff. by apply IH.
Qed.

(** A character is found where it first occurs. *)
Lemma str_find_spec c s :
  match str_find c s with
  | Some i =>
      exists a b, s = a +:+ String c b /\ String.length a = i /\
                  str_all (fun x => negb (bool_decide (x = c))) a = true
  | None => str_all (fun x => negb (bool_decide (x = c))) s = true
  end.
Proof.
  induction s as [|x s IH]; [done|]. cbn [str_find].
  destruct (decide (x = c)) as [->|Hne].
  - by exists "", s.
  - destruct (str_find c s) as [i|]; cbn.
    + destruct IH as (a & b & -> & Hlen & Ha).
      exists (String x a), b. repeat split; [by cbn; rewrite Hlen|].
      cbn. by rewrite bool_decide_eq_false_2, Ha.
    + by rewrite bool_decide_eq_false_2, IH.
Qed.

Lemma str_find_app_None c s t :
  str_all (fun x => negb (bool_decide (x = c))) s = true ->
  str_find c (s +:+ t) = (fun i => (String.length s + i)%nat) <$> str_find c t.
Proof.
  induction s as [|x s IH]; intros H.
  - rewrite str_app_nil_l. by destruct (str_find c t).
  - cbn in H. apply andb_true_iff in H as [Hx H].
    rewrite str_app_cons. cbn [str_find].
    apply negb_true_iff, bool_decide_eq_false in Hx.
    rewrite decide_False by done. rewrite IH by done.
    by destruct (str_find c t).
Qed.

Lemma str_find_None c s :
  str_find c s = None <-> str_all (fun x => negb (bool_decide (x = c))) s = true.
Proof.
  split.
  - intros H. pose proof (str_find_spec c s) as Hs. by rewrite H in Hs.
  - intros H. rewrite <- (str_app_nil_r s). by rewrite str_find_app_None.
Qed.

End StringFacts.

(** *** [trim] *)

Section TrimFacts.

Variable delims : string.

Local Abbreviation is_delim := (fun c => str_mem c delims).

Lemma find_last_not_of_spec s :
  match find_last_not_of delims s with
  | Some i =>
      exists a c b, s = a +:+ String c b /\ String.length a = i /\
                    str_mem c delims = false /\ str_all is_delim b = true
  | None => str_all is_delim s = true
  end.
Proof.
  induction s as [|x s IH]; [done|]. cbn [find_last_not_of].
  destruct (find_last_not_of delims s) as [i|].
  - destruct IH as (a & c & b & -> & Hlen & Hc & Hb).
    exists (String x a), c, b. by rewrite <- Hlen.
  - destruct (str_mem x delims) eqn:Hx.
    + cbn. by rewrite Hx, IH.
    + by exists "", x, s.
Qed.

Lemma find_first_not_of_spec s :
  match find_first_not_of delims s with
  | Some i =>
      exists a c b, s = a +:+ String c b /\ String.length a = i /\
                    str_mem c delims = false /\ str_all is_delim a = true
  | None => str_all is_delim s = true
  end.
Proof.
  induction s as [|x s IH]; [done|]. cbn [find_first_not_of].
  destruct (str_mem x delims) eqn:Hx.
  - destruct (find_first_not_of delims s) as [i|]; cbn.
    + destruct IH as (a & c & b & -> & Hlen & Hc & Ha).
      exists (String x a), c, b. repeat split; [by cbn; rewrite Hlen|done|].
      cbn. by rewrite Hx, Ha.
    + by rewrite Hx, IH.
  - by exists "", x, s.
Qed.

Lemma find_last_not_of_end a c :
  str_mem c delims = false -> find_last_not_of delims (a +:+ String c "") = Some (String.length a).
Proof.
  intros Hc. induction a as [|x a IH].
  - rewrite str_app_nil_l. cbn. by rewrite Hc.
  - rewrite str_app_cons. cbn [find_last_not_of]. by rewrite IH.
Qed.

Lemma erase_to_end s (i : nat) :
  Z.of_nat (String.length s) < 2^64 -> (i <= String.length s)%nat ->
  erase s (Z.of_nat i) npos = Ok (str_take i s).
Proof.
  intros Hfit Hi. unfold erase, npos. rewrite decide_False by lia.
  rewrite Z.min_r by lia.
  replace (Z.to_nat (Z.of_nat i + (Z.of_nat (String.length s) - Z.of_nat i)))
    with (String.length s) by lia.
  by rewrite Nat2Z.id, str_drop_all, str_app_nil_r.
Qed.

Lemma erase_front s (i : nat) :
  (i <= String.length s)%nat -> erase s 0 (Z.of_nat i) = Ok (str_drop i s).
Proof.
  intros Hi. unfold erase. rewrite decide_False by lia.
  rewrite Z.min_l by lia. cbn [Z.to_nat]. rewrite Z.add_0_l, Nat2Z.id.
  by rewrite str_take_0.
Qed.

Lemma str_all_middle P a c b : str_all P (a +:+ String c b) = true -> P c = true.
Proof.
  rewrite str_all_app. cbn. intros [_ [H _]%andb_true_iff]%andb_true_iff. exact H.
Qed.

Lemma str_app_ends s : forall a c t,
  s +:+ t = a +:+ String c "" -> t <> "" -> exists d, t = d +:+ String c "".
Proof.
  induction s as [|x s IH]; intros a c t Heq Ht.
  - by exists a.
  - destruct a as [|y a].
    + rewrite str_app_cons in Heq. cbn in Heq. injection Heq as _ Heq.
      destruct s; [|done]. by rewrite str_app_nil_l in Heq.
    + rewrite !str_app_cons in Heq. injection Heq as _ Heq. by eapply IH.
Qed.

Lemma str_app_last_inj a b c d : a +:+ String c "" = b +:+ String d "" -> a = b /\ c = d.
Proof.
  revert b. induction a as [|x a IH]; intros [|y b] Heq.
  - by injection Heq as ->.
  - rewrite str_app_cons in Heq. cbn in Heq. injection Heq as _ Heq. by destruct b.
  - rewrite str_app_cons in Heq. cbn in Heq. injection Heq as _ Heq. by destruct a.
  - rewrite !str_app_cons in Heq. injection Heq as -> Heq.
    destruct (IH b Heq) as [-> ->]. done.
Qed.

Lemma trim_total source : exists r, trim source delims = Ok r.
Proof.
  unfold trim.
  assert (H1 : exists r1,
            (if decide (size_type (find_last_not_of delims source) <> npos)
             then erase source (wrap64 (size_type (find_last_not_of delims source) + 1)) npos
             else Ok source) = Ok r1).
  { case_decide as Hd; [|by eexists].
    destruct (find_last_not_of delims source) as [i|] eqn:E; [|done]. cbn [size_type].
    pose proof (find_last_not_of_spec source) as Hs. rewrite E in Hs.
    destruct Hs as (a & c & b & -> & Hlen & _).
    unfold erase. rewrite decide_False; [by eexists|].
    rewrite str_length_app. cbn [String.length].
    assert (Hw : wrap64 (Z.of_nat i + 1) <= Z.of_nat i + 1)
      by (unfold wrap64; apply Z.mod_le; lia).
    revert Hw. generalize (wrap64 (Z.of_nat i + 1)). intros w Hw. lia. }
  destruct H1 as [r1 ->]. cbn [obind].
  case_decide; unfold erase; rewrite decide_False by lia; by eexists.
Qed.

Lemma trim_shape source :
  Z.of_nat (String.length source) < 2^64 ->
  exists pre r post,
    trim source delims = Ok r /\ source = pre +:+ r +:+ post /\
    str_all is_delim pre = true /\ str_all is_delim post = true /\ trimmed delims r.
Proof.
  intros Hfit. unfold trim.
  pose proof (find_last_not_of_spec source) as Hlast.
  destruct (find_last_not_of delims source) as [i|]; cbn [size_type].
  - destruct Hlast as (a & c & b & Hsrc & Hlen & Hc & Hb).
    assert (Hi : (i < String.length source)%nat).
    { rewrite Hsrc, str_length_app. cbn. lia. }
    rewrite decide_True by (unfold npos; lia).
    rewrite wrap64_small by lia.
    replace (Z.of_nat i + 1) with (Z.of_nat (S i)) by lia.
    rewrite erase_to_end by (done || lia). cbn [obind].
    assert (Hr1 : str_take (S i) source = a +:+ String c "").
    { rewrite Hsrc, <- Hlen.
      change (a +:+ String c b) with (a +:+ String c ("" +:+ b)).
      rewrite <- str_app_cons, <- str_app_assoc.
      replace (S (String.length a)) with (String.length (a +:+ String c "")).
      - apply str_take_app_length.
      - rewrite str_length_app. cbn. lia. }
    rewrite Hr1.
    pose proof (find_first_not_of_spec (a +:+ String c "")) as Hfirst.
    destruct (find_first_not_of delims (a +:+ String c "")) as [j|]; cbn [size_type].
    + destruct Hfirst as (p & c' & q & Hr & Hlenp & Hc' & Hp).
      assert (Hj : (j < String.length (a +:+ String c ""))%nat).
      { rewrite Hr, str_length_app. cbn. lia. }
      assert (Hjs : (j < String.length source)%nat).
      { rewrite str_length_app in Hj. cbn in Hj. lia. }
      rewrite decide_True by (unfold npos; lia).
      rewrite erase_front by lia.
      exists p, (String c' q), b. split; [|split; [|split; [|split]]]; try done.
      * f_equal. rewrite Hr, <- Hlenp. apply str_drop_app_length.
      * rewrite Hsrc.
        change (a +:+ String c b) with (a +:+ String c ("" +:+ b)).
        rewrite <- str_app_cons, <- str_app_assoc, Hr. by rewrite !str_app_assoc.
      * right. destruct (str_app_ends p a c (String c' q)) as [d Hd]; [done..|].
        by exists c', q, d, c.
    + exfalso. apply str_all_middle in Hfirst. congruence.
  - rewrite decide_False by (by intros []). cbn [obind].
    pose proof (find_first_not_of_spec source) as Hfirst.
    destruct (find_first_not_of delims source) as [j|]; cbn [size_type].
    + exfalso. destruct Hfirst as (p & c' & q & Hr & _ & Hc' & _).
      rewrite Hr in Hlast. apply str_all_middle in Hlast. congruence.
    + rewrite decide_False by (by intros []).
      change 0 with (Z.of_nat 0). rewrite erase_to_end by (done || lia).
      rewrite str_take_0. exists source, "", "".
      rewrite !str_app_nil_r. repeat split; try done. by left.
Qed.

Lemma trim_trimmed r :
  Z.of_nat (String.length r) < 2^64 -> trimmed delims r -> trim r delims = Ok r.
Proof.
  intros Hfit [->|(c & q & d & e & Hc & He & Hmc & Hme)].
  - unfold trim. cbn [find_last_not_of size_type]. rewrite decide_False by (by intros []).
    cbn [obind find_first_not_of size_type]. by rewrite decide_False by (by intros []).
  - assert (Hl : find_last_not_of delims r = Some (String.length d))
      by (rewrite He; by apply find_last_not_of_end).
    assert (Hf : find_first_not_of delims r = Some 0%nat)
      by (rewrite Hc; cbn; by rewrite Hmc).
    assert (Hlen : String.length r = S (String.length d)).
    { rewrite He, str_length_app. cbn. lia. }
    unfold trim. rewrite Hl. cbn [size_type].
    rewrite decide_True by (unfold npos; lia).
    rewrite wrap64_small by lia.
    replace (Z.of_nat (String.length d) + 1) with (Z.of_nat (String.length r)) by lia.
    rewrite erase_to_end by (done || lia). cbn [obind].
    rewrite str_take_all by done. rewrite Hf. cbn [size_type].
    rewrite decide_True by done. change (Z.of_nat 0) with 0.
    change 0 with (Z.of_nat 0) at 2.
    rewrite erase_front by lia. by rewrite str_drop_0.
Qed.

End TrimFacts.

Section TrimMore.

Variable delims : string.

Local Abbreviation is_delim := (fun c => str_mem c delims).

Lemma find_last_not_of_app_delims s post :
  str_all is_delim post = true ->
  find_last_not_of delims (s +:+ post) = find_last_not_of delims s.
Proof.
  intros Hpost. induction s as [|x s IH].
  - rewrite str_app_nil_l. cbn.
    pose proof (find_last_not_of_spec delims post) as H.
    destruct (find_last_not_of delims post); [|done].
    destruct H as (a & c & b & -> & _ & Hc & _).
    apply str_all_middle in Hpost. congruence.
  - rewrite str_app_cons. cbn [find_last_not_of]. by rewrite IH.
Qed.

Lemma find_first_not_of_app_delims pre s :
  str_all is_delim pre = true ->
  find_first_not_of delims (pre +:+ s)
  = (fun i => (String.length pre + i)%nat) <$> find_first_not_of delims s.
Proof.
  induction pre as [|x pre IH]; intros Hpre.
  - rewrite str_app_nil_l. by destruct (find_first_not_of delims s).
  - cbn in Hpre. apply andb_true_iff in Hpre as [Hx Hpre].
    rewrite str_app_cons. cbn [find_first_not_of]. rewrite Hx, IH by done.
    by destruct (find_first_not_of delims s).
Qed.

(** Delimiters around a trimmed string are what [trim] removes. *)
Lemma trim_padded pre r post :
  Z.of_nat (String.length (pre +:+ r +:+ post)) < 2^64 ->
  str_all is_delim pre = true -> str_all is_delim post = true ->
  trimmed delims r ->
  trim (pre +:+ r +:+ post) delims = Ok r.
Proof.
  intros Hfit Hpre Hpost [->|(c & q & d & e & Hc & He & Hmc & Hme)].
  - rewrite str_app_nil_l.
    assert (Hall : str_all is_delim (pre +:+ post) = true)
      by (by rewrite str_all_app, Hpre, Hpost).
    rewrite str_app_nil_l in Hfit.
    pose proof (trim_shape delims (pre +:+ post) Hfit)
      as (p & r & q & -> & Heq & _ & _ & [->|(c & q' & _ & _ & Hr & _ & Hmc & _)]); [done|].
    rewrite Heq, Hr in Hall. rewrite (str_app_cons c q') in Hall.
    apply str_all_middle in Hall. congruence.
  - assert (Hl : find_last_not_of delims (pre +:+ r +:+ post)
                 = Some (String.length (pre +:+ d))).
    { rewrite <- str_app_assoc, find_last_not_of_app_delims by done.
      rewrite He, <- str_app_assoc. by apply find_last_not_of_end. }
    assert (Hlen : String.length (pre +:+ r) = S (String.length (pre +:+ d))).
    { rewrite He, <- str_app_assoc, (str_length_app (pre +:+ d)). cbn. lia. }
    assert (Hle : (String.length (pre +:+ r) <= String.length (pre +:+ r +:+ post))%nat).
    { rewrite <- str_app_assoc, (str_length_app (pre +:+ r)). lia. }
    unfold trim. rewrite Hl. cbn [size_type].
    rewrite decide_True by (unfold npos; lia).
    rewrite wrap64_small by lia.
    replace (Z.of_nat (String.length (pre +:+ d)) + 1)
      with (Z.of_nat (String.length (pre +:+ r))) by lia.
    rewrite erase_to_end by (done || lia). cbn [obind].
    rewrite <- str_app_assoc, str_take_app_length.
    rewrite find_first_not_of_app_delims by done.
    assert (Hf : find_first_not_of delims r = Some 0%nat)
      by (rewrite Hc; cbn; by rewrite Hmc).
    rewrite Hf.
    cbn [fmap option_fmap option_map size_type]. rewrite Nat.add_0_r.
    assert (String.length pre < String.length (pre +:+ r))%nat
      by (rewrite str_length_app, Hc; cbn; lia).
    rewrite decide_True by (unfold npos; lia).
    rewrite erase_front by lia. by rewrite str_drop_app_length.
Qed.

End TrimMore.

(** X1.  [trim] returns its argument without the delimiters at its two
    ends: what it removes in front and behind consists of delimiters
    only, what it returns neither begins nor ends with one, and it
    leaves its own result as it is. *)
Theorem trim_removes_the_delimiters source delims :
  Z.of_nat (String.length source) < 2^64 ->
  exists pre r post,
    trim source delims = Ok r /\ source = pre +:+ r +:+ post /\
    str_all (fun c => str_mem c delims) pre = true /\
    str_all (fun c => str_mem c delims) post = true /\
    (forall c rest, r = String c rest -> str_mem c delims = false) /\
    (forall init c, r = init +:+ String c "" -> str_mem c delims = false) /\
    trim r delims = Ok r.
Proof.
  intros Hfit.
  destruct (trim_shape delims source Hfit) as (pre & r & post & Ht & Hs & Hpre & Hpost & Hr).
  exists pre, r, post. repeat split; try done.
  - intros c rest ->. destruct Hr as [|(c' & q & _ & _ & [= <- <-] & _ & Hc & _)]; done.
  - intros init c ->. destruct Hr as [Hr|(_ & _ & d & e & _ & Heq & _ & He)].
    + by destruct init.
    + by apply str_app_last_inj in Heq as [_ ->].
  - apply trim_trimmed; [|done].
    rewrite Hs, !str_length_app in Hfit. lia.
Qed.

Lemma trim_removes_the_delimiters_witness :
  Z.of_nat (String.length "  lo 127.0.0.1 ") < 2^64 /\
  exists pre r post,
    trim "  lo 127.0.0.1 " TRIM_DELIMS = Ok r /\ "  lo 127.0.0.1 " = pre +:+ r +:+ post /\
    str_all (fun c => str_mem c TRIM_DELIMS) pre = true /\
    str_all (fun c => str_mem c TRIM_DELIMS) post = true /\
    (forall c rest, r = String c rest -> str_mem c TRIM_DELIMS = false) /\
    (forall init c, r = init +:+ String c "" -> str_mem c TRIM_DELIMS = false) /\
    trim r TRIM_DELIMS = Ok r.
Proof.
  assert (H : Z.of_nat (String.length "  lo 127.0.0.1 ") < 2^64) by (vm_compute; reflexivity).
  exact (conj H (trim_removes_the_delimiters "  lo 127.0.0.1 " TRIM_DELIMS H)).
Defined.


(** *** The configuration file *)

(** *** The constructor of [ConfigFile] *)

Section ParseFacts.

Lemma obind_Ok_r {A : Type} (c : outcome A) : (do x <- c; Ok x) = c.
Proof. by destruct c. Qed.

Lemma obind_assoc {A B C : Type} (c : outcome A) (f : A -> outcome B) (g : B -> outcome C) :
  (do y <- (do x <- c; f x); g y) = (do x <- c; do y <- f x; g y).
Proof. by destruct c. Qed.

(** What [upto] splits off. *)
Lemma upto_spec delim s :
  str_all (fun x => negb (bool_decide (x = delim))) (upto delim s).1 = true /\
  (s = (upto delim s).1 /\ (upto delim s).2 = ""
   \/ s = (upto delim s).1 +:+ String delim (upto delim s).2).
Proof.
  induction s as [|c s [IH1 IH2]]; [by split; [|left]|]. cbn [upto].
  destruct (decide (c = delim)) as [->|Hne]; cbn [fst snd].
  - split; [done|]. by right.
  - split; [cbn; by rewrite bool_decide_eq_false_2, IH1|].
    destruct IH2 as [[H1 H2]|H].
    + left. by rewrite <- H1.
    + right. rewrite str_app_cons. by rewrite <- H.
Qed.

Lemma upto_app delim a b :
  str_all (fun x => negb (bool_decide (x = delim))) a = true ->
  upto delim (a +:+ String delim b) = (a, b).
Proof.
  induction a as [|c a IH]; intros Ha.
  - rewrite str_app_nil_l. cbn. by rewrite decide_True.
  - cbn in Ha. apply andb_true_iff in Ha as [Hc Ha].
    apply negb_true_iff, bool_decide_eq_false in Hc.
    rewrite str_app_cons. cbn [upto]. rewrite decide_False by done. by rewrite IH.
Qed.

Lemma upto_whole delim a :
  str_all (fun x => negb (bool_decide (x = delim))) a = true -> upto delim a = (a, "").
Proof.
  induction a as [|c a IH]; intros Ha; [done|].
  cbn in Ha. apply andb_true_iff in Ha as [Hc Ha].
  apply negb_true_iff, bool_decide_eq_false in Hc.
  cbn [upto]. rewrite decide_False by done. by rewrite IH.
Qed.

Lemma getline_lengths s delim line rest :
  getline s delim = Some (line, rest) ->
  (String.length line <= String.length s)%nat /\
  (String.length rest < String.length s)%nat.
Proof.
  unfold getline. destruct s as [|c s]; [done|].
  destruct (upto_spec delim (String c s)) as [_ Hs].
  destruct (upto delim (String c s)) as [l r]. cbn [fst snd] in Hs.
  intros [= <- <-].
  destruct Hs as [[Hs ->]|Hs].
  - rewrite <- Hs. cbn. lia.
  - rewrite Hs, str_length_app. cbn. lia.
Qed.

(** [substr] returns a part of its string, and raises nothing from a
    position inside it. *)
Lemma substr_inside s pos count :
  pos <= Z.of_nat (String.length s) ->
  exists n m, substr s pos count = Ok (str_take n (str_drop m s)).
Proof. intros H. unfold substr. rewrite decide_False by lia. by eexists _, _. Qed.

Lemma wrap64_le z : 0 <= z -> 0 <= wrap64 z <= z.
Proof.
  intros Hz. unfold wrap64. split; [apply Z.mod_pos_bound; lia|apply Z.mod_le; lia].
Qed.

Lemma size_type_find_le c s :
  str_find c s <> None -> size_type (str_find c s) < Z.of_nat (String.length s).
Proof.
  pose proof (str_find_spec c s) as H. destruct (str_find c s) as [i|]; [|done].
  intros _. destruct H as (a & b & -> & <- & _). rewrite str_length_app. cbn. lia.
Qed.

(** The body of the loop raises nothing, whatever the line. *)
Lemma parseLine_total line st : exists st', parseLine line st = Ok st'.
Proof.
  unfold parseLine. destruct line as [|c0 line]; [by eexists|].
  destruct (decide (c0 = "#"%char)) as [?|Hhash]; [by eexists|].
  destruct (decide (c0 = "["%char)) as [?|Hbr].
  - destruct (substr_inside (String c0 line) 1
                (wrap64 (size_type (str_find "]" (String c0 line)) - 1)))
      as (k & m & ->); [cbn; lia|]. cbn [obind].
    destruct (trim_total TRIM_DELIMS (str_take k (str_drop m (String c0 line)))) as [sec ->].
    by eexists.
  - set (l1 := String c0 line).
    assert (H1 : exists n m,
              (if decide (size_type (str_find "#" l1) <> npos)
               then substr l1 0 (size_type (str_find "#" l1)) else Ok l1)
              = Ok (str_take n (str_drop m l1))).
    { case_decide.
      - apply substr_inside. lia.
      - exists (String.length l1), 0%nat. by rewrite str_drop_0, str_take_all. }
    destruct H1 as (n1 & m1 & ->). cbn [obind].
    set (l2 := str_take n1 (str_drop m1 l1)).
    destruct (substr_inside l2 0 (size_type (str_find "=" l2))) as (k & m & ->); [lia|].
    cbn [obind].
    destruct (trim_total TRIM_DELIMS (str_take k (str_drop m l2))) as [name ->]. cbn [obind].
    destruct (substr_inside l2 (wrap64 (size_type (str_find "=" l2) + 1)) npos)
      as (n' & m' & ->).
    { destruct (str_find "=" l2) as [i|] eqn:E.
      - assert (size_type (str_find "=" l2) < Z.of_nat (String.length l2))
          by (apply size_type_find_le; by rewrite E).
        rewrite E in *. cbn [size_type] in *.
        pose proof (wrap64_le (Z.of_nat i + 1) ltac:(lia)). lia.
      - cbn [size_type]. change (wrap64 (npos + 1)) with 0. lia. }
    cbn [obind].
    destruct (trim_total TRIM_DELIMS (str_take n' (str_drop m' l2))) as [value ->].
    by eexists.
Qed.

Lemma ConfigFile_loop_total fuel : forall file st, exists st', ConfigFile_loop fuel file st = Ok st'.
Proof.
  induction fuel as [|fuel IH]; intros file st; [by eexists|]. cbn [ConfigFile_loop].
  destruct (getline file "010") as [[line rest]|]; [|by eexists].
  destruct (parseLine_total line st) as [st1 ->]. cbn [obind]. apply IH.
Qed.

(** The loop never uses up a fuel above the length of the text. *)
Lemma ConfigFile_loop_fuel fuel :
  forall fuel' file st,
  (String.length file < fuel)%nat -> (String.length file < fuel')%nat ->
  ConfigFile_loop fuel file st = ConfigFile_loop fuel' file st.
Proof.
  induction fuel as [|fuel IH]; intros fuel' file st Hf Hf'; [lia|].
  destruct fuel' as [|fuel']; [lia|]. cbn [ConfigFile_loop].
  destruct (getline file "010") as [[line rest]|] eqn:E; [|done].
  apply getline_lengths in E as [_ E].
  destruct (parseLine line st); cbn [obind]; try done. apply IH; lia.
Qed.

End ParseFacts.

(** X2.  The constructor of [ConfigFile] raises nothing, whatever the
    text of the file, and also when the file cannot be opened: every
    position handed to [substr] and [erase] lies inside its string, also
    on a line without a closing bracket or an equals sign. *)
Theorem ConfigFile_new_never_throws configFile file :
  exists cf, (ConfigFile_new configFile file).2 = Ok cf.
Proof.
  unfold ConfigFile_new. destruct file as [text|]; [|by eexists].
  unfold lift. cbn [snd]. apply ConfigFile_loop_total.
Qed.

Section ParseValues.

Local Abbreviation no_hash := (fun x : ascii => negb (bool_decide (x = "#"%char))).

Lemma substr_prefix s (i : nat) :
  (i <= String.length s)%nat -> substr s 0 (Z.of_nat i) = Ok (str_take i s).
Proof.
  intros Hi. unfold substr. rewrite decide_False by lia.
  rewrite Z.min_l by lia. by rewrite Nat2Z.id, str_drop_0.
Qed.

Lemma substr_suffix s (i : nat) :
  Z.of_nat (String.length s) < 2^64 -> (i <= String.length s)%nat ->
  substr s (Z.of_nat i) npos = Ok (str_drop i s).
Proof.
  intros Hfit Hi. unfold substr, npos. rewrite decide_False by lia.
  rewrite Z.min_r by lia. rewrite Nat2Z.id.
  rewrite str_take_all; [done|]. rewrite str_length_drop. lia.
Qed.

(** The line without its comment. *)
Lemma strip_comment l1 :
  Z.of_nat (String.length l1) < 2^64 ->
  exists l2,
    (if decide (size_type (str_find "#" l1) <> npos)
     then substr l1 0 (size_type (str_find "#" l1)) else Ok l1) = Ok l2 /\
    str_all no_hash l2 = true /\ (String.length l2 <= String.length l1)%nat /\
    (str_find "#" l1 = None -> l2 = l1).
Proof.
  intros Hfit. pose proof (str_find_spec "#" l1) as Hs.
  destruct (str_find "#" l1) as [i|]; cbn [size_type].
  - destruct Hs as (a & b & -> & <- & Ha).
    rewrite str_length_app in Hfit. cbn [String.length] in Hfit.
    rewrite decide_True by (unfold npos; lia).
    rewrite substr_prefix by (rewrite str_length_app; lia).
    rewrite str_take_app_length. exists a. repeat split; try done.
    rewrite str_length_app. lia.
  - rewrite decide_False by (by intros []). by exists l1.
Qed.

Lemma parseLine_clean line st st' :
  Z.of_nat (String.length line) < 2^64 ->
  (forall k v, content_ st !! k = Some v -> clean_value v) ->
  parseLine line st = Ok st' ->
  forall k v, content_ st' !! k = Some v -> clean_value v.
Proof.
  intros Hfit Hinv. unfold parseLine. destruct line as [|c0 line]; [by intros [= <-]|].
  destruct (decide (c0 = "#"%char)) as [?|Hhash]; [by intros [= <-]|].
  destruct (decide (c0 = "["%char)) as [?|Hbr].
  - destruct (substr _ 1 _); cbn [obind]; try done.
    destruct (trim _ _); cbn [obind]; try done. by intros [= <-].
  - set (l1 := String c0 line) in *.
    destruct (strip_comment l1 Hfit) as (l2 & -> & Hno & Hlen & _). cbn [obind].
    destruct (substr l2 0 _); cbn [obind]; try done.
    destruct (trim _ TRIM_DELIMS) as [name| | |]; cbn [obind]; try done.
    destruct (substr l2 (wrap64 _) npos) as [sub| | |] eqn:Esub; cbn [obind]; try done.
    assert (Hsub : str_all no_hash sub = true /\ (String.length sub <= String.length l2)%nat).
    { unfold substr in Esub. case_decide; [done|]. injection Esub as <-.
      split; [by apply str_all_take, str_all_drop|].
      rewrite str_length_take, str_length_drop. lia. }
    destruct Hsub as [Hsub Hsublen].
    destruct (trim_shape TRIM_DELIMS sub ltac:(lia))
      as (pre & r & post & -> & Heq & _ & _ & Hr). cbn [obind].
    intros [= <-] k v. cbn [content_]. rewrite lookup_insert.
    case_decide; [|by apply Hinv]. intros [= <-]. split.
    + apply str_find_None. rewrite Heq, !str_all_app in Hsub.
      by apply andb_true_iff in Hsub as [_ [? _]%andb_true_iff].
    + apply trim_trimmed; [|done].
      rewrite Heq, !str_length_app in Hsublen. lia.
Qed.

Lemma ConfigFile_loop_clean fuel :
  forall file st st',
  Z.of_nat (String.length file) < 2^64 ->
  (forall k v, content_ st !! k = Some v -> clean_value v) ->
  ConfigFile_loop fuel file st = Ok st' ->
  forall k v, content_ st' !! k = Some v -> clean_value v.
Proof.
  induction fuel as [|fuel IH]; intros file st st' Hfit Hinv; [by intros [= <-]|].
  cbn [ConfigFile_loop].
  destruct (getline file "010") as [[line rest]|] eqn:E; [|by intros [= <-]].
  apply getline_lengths in E as [E1 E2].
  destruct (parseLine line st) as [st1| | |] eqn:Ep; cbn [obind]; try done.
  apply IH; [lia|]. by apply (parseLine_clean line st st1); [lia|..].
Qed.

End ParseValues.

(** X3.  Every value that the constructor of [ConfigFile] stores is free
    of comments and of white space at its ends: whatever the text of the
    file, no stored value holds a [#], and [trim] leaves each of them as
    it is. *)
Theorem ConfigFile_values_are_clean configFile text :
  Z.of_nat (String.length text) < 2^64 ->
  exists cf,
    (ConfigFile_new configFile (Some text)).2 = Ok cf /\
    forall k v, content_ cf !! k = Some v -> clean_value v.
Proof.
  intros Hfit. unfold ConfigFile_new, lift. cbn [snd].
  destruct (ConfigFile_loop_total (S (String.length text)) text (MkConfigParse ∅ [] ""))
    as [cf Hcf].
  exists cf. split; [done|].
  apply (ConfigFile_loop_clean _ _ _ _ Hfit) with (2 := Hcf).
  intros k v Hk. cbn [content_] in Hk. by rewrite lookup_empty in Hk.
Qed.

Lemma ConfigFile_values_are_clean_witness :
  Z.of_nat (String.length sampleConfigText) < 2^64 /\
  exists cf,
    (ConfigFile_new "/etc/wiperf.conf" (Some sampleConfigText)).2 = Ok cf /\
    forall k v, content_ cf !! k = Some v -> clean_value v.
Proof.
  assert (H1 : Z.of_nat (String.length sampleConfigText) < 2^64) by (by vm_compute).
  exact (conj H1 (ConfigFile_values_are_clean "/etc/wiperf.conf" sampleConfigText H1)).
Defined.

Section ParseLines.

Lemma obind_ext {A B : Type} (c : outcome A) (f g : A -> outcome B) :
  (forall a, f a = g a) -> obind c f = obind c g.
Proof. intros H. destruct c; cbn; by rewrite ?H. Qed.

Lemma ConfigFile_loop_empty fuel st : ConfigFile_loop fuel "" st = Ok st.
Proof. by destruct fuel. Qed.

Lemma str_app_LF text rest : text +:+ LF +:+ rest = text +:+ String "010" rest.
Proof. reflexivity. Qed.

Lemma ConfigFile_loop_S fuel file st :
  ConfigFile_loop (S fuel) file st
  = match getline file "010" with
    | None => Ok st
    | Some (line, file) => do st <- parseLine line st; ConfigFile_loop fuel file st
    end.
Proof. reflexivity. Qed.

Lemma getline_app delim a b :
  str_all (fun x => negb (bool_decide (x = delim))) a = true ->
  getline (a +:+ String delim b) delim = Some (a, b).
Proof.
  intros Ha. unfold getline. rewrite upto_app by done. by destruct a.
Qed.

Lemma getline_whole delim a :
  a <> "" -> str_all (fun x => negb (bool_decide (x = delim))) a = true ->
  getline a delim = Some (a, "").
Proof. intros Hne Ha. unfold getline. rewrite upto_whole by done. by destruct a. Qed.

(** Parsing a text, a line feed and more text is parsing the first and
    then the second. *)
Lemma ConfigFile_loop_app n :
  forall text rest st,
  (String.length text <= n)%nat ->
  ConfigFile_loop (S (String.length (text +:+ LF +:+ rest))) (text +:+ LF +:+ rest) st
  = do st1 <- ConfigFile_loop (S (String.length text)) text st;
    ConfigFile_loop (S (String.length rest)) rest st1.
Proof.
  assert (Hnil : forall rest st,
            ConfigFile_loop (S (String.length ("" +:+ LF +:+ rest))) ("" +:+ LF +:+ rest) st
            = do st1 <- ConfigFile_loop (S (String.length "")) "" st;
              ConfigFile_loop (S (String.length rest)) rest st1).
  { intros rest st. rewrite !str_app_nil_l.
    change (LF +:+ rest) with ("" +:+ String "010" rest).
    rewrite ConfigFile_loop_S, (getline_app "010" "" rest) by done.
    rewrite ConfigFile_loop_empty. cbn [parseLine obind].
    apply ConfigFile_loop_fuel; rewrite ?str_app_nil_l; cbn; lia. }
  induction n as [|n IH]; intros text rest st Hn.
  - destruct text; [apply Hnil|cbn in Hn; lia].
  - destruct text as [|c t]; [apply Hnil|].
    destruct (upto_spec "010" (String c t)) as [Hl Hs].
    remember (upto "010" (String c t)) as u eqn:Eu. destruct u as [l r]. clear Eu.
    cbn [fst snd] in Hl, Hs.
    destruct Hs as [[Hs ->]|Hs].
    + (* the text is one line *)
      assert (Hne : l <> "") by (by rewrite <- Hs).
      rewrite Hs. clear Hs.
      rewrite str_app_LF, ConfigFile_loop_S, getline_app by done.
      rewrite (ConfigFile_loop_S (String.length l)), getline_whole by done.
      rewrite obind_assoc. apply obind_ext. intros st1.
      rewrite ConfigFile_loop_empty. cbn [obind].
      apply ConfigFile_loop_fuel; [|lia].
      rewrite str_length_app. cbn. lia.
    + (* its first line, and more *)
      assert (Hr : (String.length r <= n)%nat).
      { rewrite Hs, str_length_app in Hn. cbn in Hn. lia. }
      rewrite Hs. clear Hs.
      rewrite str_app_LF, str_app_assoc, str_app_cons.
      rewrite ConfigFile_loop_S, getline_app by done.
      rewrite (ConfigFile_loop_S (String.length (l +:+ String "010" r))), getline_app by done.
      rewrite obind_assoc. apply obind_ext. intros st1.
      rewrite <- (str_app_LF r rest).
      rewrite (ConfigFile_loop_fuel _ (S (String.length (r +:+ LF +:+ rest)))).
      * rewrite (IH r rest st1 Hr). f_equal.
        apply ConfigFile_loop_fuel; [lia|].
        rewrite str_length_app. cbn. lia.
      * rewrite !str_length_app. cbn. rewrite !str_length_app. cbn. lia.
      * lia.
Qed.

(** A line without a line feed, followed by one. *)
Lemma ConfigFile_loop_line line rest st :
  str_all (fun x => negb (bool_decide (x = "010"%char))) line = true ->
  ConfigFile_loop (S (String.length (line +:+ LF +:+ rest))) (line +:+ LF +:+ rest) st
  = do st1 <- parseLine line st; ConfigFile_loop (S (String.length rest)) rest st1.
Proof.
  intros Hline. rewrite (ConfigFile_loop_app (String.length line)) by done.
  f_equal. destruct line as [|c l]; [done|].
  rewrite ConfigFile_loop_S, getline_whole by done.
  rewrite <- (obind_Ok_r (parseLine (String c l) st)) at 2.
  apply obind_ext. intros st1. apply ConfigFile_loop_empty.
Qed.

End ParseLines.

Section ParseExact.

Lemma str_all_impl (P Q : ascii -> bool) s :
  (forall c, P c = true -> Q c = true) -> str_all P s = true -> str_all Q s = true.
Proof.
  intros HPQ. induction s as [|c s IH]; [done|]. cbn.
  intros [Hc Hs]%andb_true_iff. by rewrite (HPQ c Hc), IH.
Qed.

(** A plain text has none of its special characters. *)
Lemma plain_without special s x :
  plain special s -> str_mem x special = true ->
  str_all (fun c => negb (bool_decide (c = x))) s = true.
Proof.
  intros (_ & Hall & _) Hx. revert Hall. apply str_all_impl.
  intros c Hc. apply negb_true_iff, bool_decide_eq_false. intros ->.
  by rewrite Hx in Hc.
Qed.

Lemma plain_trimmed special s : plain special s -> trimmed TRIM_DELIMS s.
Proof.
  intros (Hlen & _ & Htrim).
  destruct (trim_shape TRIM_DELIMS s ltac:(lia)) as (pre & r & post & Hr & _ & _ & _ & Ht).
  rewrite Htrim in Hr. by injection Hr as <-.
Qed.

Lemma plain_length special s : plain special s -> Z.of_nat (String.length s) < 2^32.
Proof. by intros (H & _). Qed.

(** A section header. *)
Lemma parseLine_header sec st :
  plain ("]" +:+ LF) sec ->
  parseLine ("[" +:+ sec +:+ "]") st
  = Ok (MkConfigParse (content_ st) (sections_ st ++ [sec]) sec).
Proof.
  intros Hsec.
  pose proof (plain_without _ _ "]"%char Hsec eq_refl) as Hno.
  pose proof (plain_length _ _ Hsec) as Hlen.
  change ("[" +:+ sec +:+ "]") with (String "[" (sec +:+ "]")).
  cbn [parseLine]. rewrite decide_False by done. rewrite decide_True by done.
  cbn [str_find]. rewrite decide_False by done.
  rewrite (str_find_app_None "]" sec "]") by done.
  cbn [str_find]. rewrite decide_True by done.
  cbn [fmap option_fmap option_map size_type].
  rewrite wrap64_small by lia.
  unfold substr. cbn [String.length]. rewrite decide_False by lia.
  rewrite str_length_app. cbn [String.length].
  rewrite Z.min_l by lia.
  replace (Z.to_nat (Z.of_nat (S (String.length sec + 0)) - 1)) with (String.length sec) by lia.
  change (Z.to_nat 1) with 1%nat. cbn [str_drop].
  rewrite str_take_app_length. cbn [obind].
  destruct Hsec as (_ & _ & ->). done.
Qed.

Lemma parseLine_entry line st c0 :
  str_head line = Some c0 -> c0 <> "#"%char -> c0 <> "["%char ->
  parseLine line st
  = let posHash := size_type (str_find "#" line) in
    do line <- (if decide (posHash <> npos) then substr line 0 posHash else Ok line);
    let posEqual := size_type (str_find "=" line) in
    do sub <- substr line 0 posEqual;
    do name <- trim sub TRIM_DELIMS;
    do sub <- substr line (wrap64 (posEqual + 1)) npos;
    do value <- trim sub TRIM_DELIMS;
    Ok (MkConfigParse (<[inSection st +:+ "/" +:+ name := value]> (content_ st))
          (sections_ st) (inSection st)).
Proof.
  destruct line as [|c l]; [done|]. intros [= ->] H1 H2.
  cbn [parseLine]. by rewrite !decide_False by done.
Qed.

Lemma str_head_app a b : str_head (a +:+ b) = match str_head a with Some c => Some c | None => str_head b end.
Proof. by destruct a. Qed.

Lemma str_head_in P s c : str_head s = Some c -> str_all P s = true -> P c = true.
Proof. destruct s; [done|]. intros [= ->]. cbn. by intros [? _]%andb_true_iff. Qed.

(** An assignment. *)
Lemma parseLine_assignment name value st :
  plain ("=#[" +:+ LF) name -> plain ("#" +:+ LF) value ->
  parseLine (name +:+ " = " +:+ value) st
  = Ok (MkConfigParse (<[inSection st +:+ "/" +:+ name := value]> (content_ st))
          (sections_ st) (inSection st)).
Proof.
  intros Hname Hvalue.
  pose proof (plain_length _ _ Hname) as Hln.
  pose proof (plain_length _ _ Hvalue) as Hlv.
  pose proof (plain_without _ _ "#"%char Hname eq_refl) as Hn1.
  pose proof (plain_without _ _ "="%char Hname eq_refl) as Hn2.
  pose proof (plain_without _ _ "["%char Hname eq_refl) as Hn3.
  pose proof (plain_without _ _ "#"%char Hvalue eq_refl) as Hv1.
  set (line := name +:+ " = " +:+ value).
  assert (Hlen : String.length line = (String.length name + 3 + String.length value)%nat).
  { subst line. rewrite !str_length_app. cbn. lia. }
  assert (Hhead : exists c0, str_head line = Some c0 /\ c0 <> "#"%char /\ c0 <> "["%char).
  { subst line. rewrite str_head_app. destruct (str_head name) as [c|] eqn:E.
    - exists c. split; [done|].
      pose proof (str_head_in _ _ _ E Hn1) as H1. pose proof (str_head_in _ _ _ E Hn3) as H3.
      apply negb_true_iff, bool_decide_eq_false in H1, H3. done.
    - by exists " "%char. }
  destruct Hhead as (c0 & Hc0 & H1 & H2).
  rewrite (parseLine_entry line st c0) by done. cbn zeta.
  assert (Hhash : str_find "#" line = None).
  { apply str_find_None. subst line. rewrite !str_all_app, Hn1, Hv1. done. }
  rewrite Hhash. cbn [size_type]. rewrite decide_False by (by intros []). cbn [obind].
  assert (Heq : str_find "=" line = Some (String.length name + 1)%nat).
  { subst line. rewrite str_find_app_None by done. done. }
  rewrite Heq. cbn [size_type].
  rewrite substr_prefix by lia.
  assert (Ht : str_take (String.length name + 1) line = "" +:+ name +:+ " ").
  { subst line. rewrite str_app_nil_l.
    change (name +:+ " = " +:+ value) with (name +:+ " " +:+ "= " +:+ value).
    rewrite <- (str_app_assoc name " ").
    replace (String.length name + 1)%nat with (String.length (name +:+ " "))
      by (rewrite str_length_app; cbn; lia).
    apply str_take_app_length. }
  rewrite Ht. cbn [obind]. rewrite trim_padded; try done.
  2:{ rewrite str_app_nil_l, str_length_app. cbn. lia. }
  2:{ by eapply plain_trimmed. }
  cbn [obind]. rewrite wrap64_small by lia.
  replace (Z.of_nat (String.length name + 1) + 1)
    with (Z.of_nat (String.length (name +:+ " ="))) by (rewrite str_length_app; cbn; lia).
  rewrite substr_suffix by (rewrite ?str_length_app; cbn; lia).
  assert (Hd : str_drop (String.length (name +:+ " =")) line = " " +:+ value +:+ "").
  { subst line. rewrite str_app_nil_r.
    change (name +:+ " = " +:+ value) with (name +:+ " =" +:+ " " +:+ value).
    rewrite <- (str_app_assoc name " ="). apply str_drop_app_length. }
  rewrite Hd. cbn [obind]. rewrite trim_padded; try done.
  - rewrite str_app_nil_r, str_length_app. cbn. lia.
  - by eapply plain_trimmed.
Qed.

(** A line that is a single word, without an equals sign. *)
Lemma parseLine_bare word st :
  word <> "" -> plain ("=#[" +:+ LF) word ->
  parseLine word st
  = Ok (MkConfigParse (<[inSection st +:+ "/" +:+ word := word]> (content_ st))
          (sections_ st) (inSection st)).
Proof.
  intros Hne Hword.
  pose proof (plain_length _ _ Hword) as Hlw.
  pose proof (plain_without _ _ "#"%char Hword eq_refl) as Hn1.
  pose proof (plain_without _ _ "="%char Hword eq_refl) as Hn2.
  pose proof (plain_without _ _ "["%char Hword eq_refl) as Hn3.
  destruct (str_head word) as [c0|] eqn:Hc0; [|by destruct word].
  pose proof (str_head_in _ _ _ Hc0 Hn1) as H1. pose proof (str_head_in _ _ _ Hc0 Hn3) as H3.
  apply negb_true_iff, bool_decide_eq_false in H1, H3.
  rewrite (parseLine_entry word st c0) by done. cbn zeta.
  apply str_find_None in Hn1, Hn2. rewrite Hn1. cbn [size_type].
  rewrite decide_False by (by intros []). cbn [obind]. rewrite Hn2. cbn [size_type].
  assert (Hsub : substr word 0 npos = Ok word).
  { change 0 with (Z.of_nat 0). rewrite substr_suffix by lia. by rewrite str_drop_0. }
  destruct Hword as (_ & _ & Htrim).
  rewrite Hsub. cbn [obind]. rewrite Htrim. cbn [obind].
  change (wrap64 (npos + 1)) with 0. rewrite Hsub. cbn [obind]. rewrite Htrim. done.
Qed.

End ParseExact.

Section ParseTheorems.

Lemma header_one_line sec :
  plain ("]" +:+ LF) sec ->
  str_all (fun x => negb (bool_decide (x = "010"%char))) ("[" +:+ sec +:+ "]") = true.
Proof.
  intros Hsec. pose proof (plain_without _ _ "010"%char Hsec eq_refl) as H.
  change ("[" +:+ sec +:+ "]") with (String "[" (sec +:+ "]")).
  cbn [str_all]. by rewrite str_all_app, H.
Qed.

(** The state in which the constructor reaches the end of a text that
    closes with a header for [sec] and one more [line]. *)
Lemma ConfigFile_new_tail configFile text sec line :
  plain ("]" +:+ LF) sec ->
  str_all (fun x => negb (bool_decide (x = "010"%char))) line = true ->
  exists st1,
    (ConfigFile_new configFile
       (Some (text +:+ LF +:+ "[" +:+ sec +:+ "]" +:+ LF +:+ line +:+ LF))).2
    = parseLine line (MkConfigParse (content_ st1) (sections_ st1 ++ [sec]) sec).
Proof.
  intros Hsec Hline.
  destruct (ConfigFile_loop_total (S (String.length text)) text (MkConfigParse ∅ [] ""))
    as [st1 Hst1].
  exists st1. unfold ConfigFile_new, lift. cbn [snd].
  assert (Hshape : text +:+ LF +:+ "[" +:+ sec +:+ "]" +:+ LF +:+ line +:+ LF
                   = text +:+ LF +:+ ("[" +:+ sec +:+ "]") +:+ LF +:+ line +:+ LF +:+ "").
  { by rewrite !str_app_assoc, str_app_nil_r. }
  rewrite Hshape.
  rewrite (ConfigFile_loop_app (String.length text)) by done.
  rewrite Hst1. cbn [obind].
  rewrite ConfigFile_loop_line by (by apply header_one_line).
  rewrite parseLine_header by done. cbn [obind].
  rewrite ConfigFile_loop_line by done.
  rewrite <- (obind_Ok_r (parseLine line _)) at 2.
  apply obind_ext. intros st3. apply ConfigFile_loop_empty.
Qed.

End ParseTheorems.

(** X4.  Reading back what was written: whatever the text before it, a
    section header followed by a line [name = value] makes the
    constructor store [value] under that section and name, so that
    [Value] returns it; an assignment at the end of the file overrides
    the earlier ones. *)
Theorem ConfigFile_last_assignment_wins configFile text sec name value :
  plain ("]" +:+ LF) sec -> plain ("=#[" +:+ LF) name -> plain ("#" +:+ LF) value ->
  exists cf,
    (ConfigFile_new configFile
       (Some (text +:+ LF +:+ "[" +:+ sec +:+ "]" +:+ LF
              +:+ (name +:+ " = " +:+ value) +:+ LF))).2 = Ok cf /\
    Value (content_ cf) sec name = Ok value.
Proof.
  intros Hsec Hname Hvalue.
  destruct (ConfigFile_new_tail configFile text sec (name +:+ " = " +:+ value) Hsec)
    as [st1 ->].
  { pose proof (plain_without _ _ "010"%char Hname eq_refl) as H1.
    pose proof (plain_without _ _ "010"%char Hvalue eq_refl) as H2.
    by rewrite !str_all_app, H1, H2. }
  rewrite parseLine_assignment by done. eexists. split; [done|].
  unfold Value. cbn [content_ inSection]. by rewrite lookup_insert_eq.
Qed.

Lemma ConfigFile_last_assignment_wins_witness :
  plain ("]" +:+ LF) "data-receiver" /\ plain ("=#[" +:+ LF) "port" /\
  plain ("#" +:+ LF) "44444" /\
  exists cf,
    (ConfigFile_new "/etc/wiperf.conf"
       (Some (sampleConfigText +:+ LF +:+ "[" +:+ "data-receiver" +:+ "]" +:+ LF
              +:+ ("port" +:+ " = " +:+ "44444") +:+ LF))).2 = Ok cf /\
    Value (content_ cf) "data-receiver" "port" = Ok "44444".
Proof.
  assert (H1 : plain ("]" +:+ LF) "data-receiver") by (repeat split; by vm_compute).
  assert (H2 : plain ("=#[" +:+ LF) "port") by (repeat split; by vm_compute).
  assert (H3 : plain ("#" +:+ LF) "44444") by (repeat split; by vm_compute).
  exact (conj H1 (conj H2 (conj H3
    (ConfigFile_last_assignment_wins "/etc/wiperf.conf" sampleConfigText
       "data-receiver" "port" "44444" H1 H2 H3)))).
Defined.

(** X5.  A line without an equals sign is not rejected: the position of
    the missing sign is [npos], [npos + 1] wraps to 0, and the whole line
    is stored as a name and as its own value. *)
Theorem ConfigFile_line_without_equals configFile text sec word :
  plain ("]" +:+ LF) sec -> word <> "" -> plain ("=#[" +:+ LF) word ->
  exists cf,
    (ConfigFile_new configFile
       (Some (text +:+ LF +:+ "[" +:+ sec +:+ "]" +:+ LF +:+ word +:+ LF))).2 = Ok cf /\
    Value (content_ cf) sec word = Ok word.
Proof.
  intros Hsec Hne Hword.
  destruct (ConfigFile_new_tail configFile text sec word Hsec) as [st1 ->].
  { by apply (plain_without _ _ "010"%char Hword). }
  rewrite parseLine_bare by done. eexists. split; [done|].
  unfold Value. cbn [content_ inSection]. by rewrite lookup_insert_eq.
Qed.

Lemma ConfigFile_line_without_equals_witness :
  plain ("]" +:+ LF) "data-sender" /\ "verbose" <> "" /\ plain ("=#[" +:+ LF) "verbose" /\
  exists cf,
    (ConfigFile_new "/etc/wiperf.conf"
       (Some (sampleConfigText +:+ LF +:+ "[" +:+ "data-sender" +:+ "]" +:+ LF
              +:+ "verbose" +:+ LF))).2 = Ok cf /\
    Value (content_ cf) "data-sender" "verbose" = Ok "verbose".
Proof.
  assert (H1 : plain ("]" +:+ LF) "data-sender") by (repeat split; by vm_compute).
  assert (H2 : "verbose" <> "") by done.
  assert (H3 : plain ("=#[" +:+ LF) "verbose") by (repeat split; by vm_compute).
  exact (conj H1 (conj H2 (conj H3
    (ConfigFile_line_without_equals "/etc/wiperf.conf" sampleConfigText
       "data-sender" "verbose" H1 H2 H3)))).
Defined.

(** X6.  The default handed to the three-argument [Value] is never used:
    its handler is written for a thrown C string, while the two-argument
    [Value] throws a [std::runtime_error]; a missing entry still raises,
    and the map is left as it was. *)
Theorem Value_default_is_never_used cfile section entry value :
  Value_default cfile section entry value
  = match cfile !! (section +:+ "/" +:+ entry) with
    | Some v => Ok (v, cfile)
    | None => Throw (runtime_error "does not exist")
    end.
Proof. unfold Value_default, Value. by destruct (cfile !! _). Qed.


(** *** The tables read from the configuration *)

Section TableFacts.

Variable inet_pton : string -> bool.
Variable indeterminate : string -> Z.

Lemma table_fresh_empty : table_fresh inet_pton ∅.
Proof. intros name info H. by rewrite lookup_empty in H. Qed.

Lemma readAddress_fresh secName addrType iname esstream i m :
  table_fresh inet_pton m ->
  exists m1, (readAddress inet_pton indeterminate secName addrType iname esstream i m).2 = Ok m1 /\
             table_fresh inet_pton m1 /\ dom m ⊆ dom m1.
Proof.
  intros Hm. unfold readAddress.
  destruct (getline (ws esstream) " ") as [[iaddr rest]|]; [|by exists m].
  destruct (inet_pton iaddr) eqn:Ha; [|by exists m].
  set (f := match addrType with SERVER => setAddrSrv iaddr | CLIENT => setAddrCli iaddr end).
  set (m0 := match m !! iname with
             | None =>
                 <[iname := MkIfaceInfo "" "" None UNINITIALIZED_FD (indeterminate iname) i]> m
             | Some _ => m
             end).
  assert (Hm0 : table_fresh inet_pton m0).
  { subst m0. destruct (m !! iname) eqn:E; [done|].
    intros name info. rewrite lookup_insert. case_decide; [|apply Hm].
    intros [= <-]. cbn. by repeat split; left. }
  assert (Hdom0 : dom m ⊆ dom m0).
  { subst m0. destruct (m !! iname); [done|]. set_solver. }
  exists (alter f iname m0). split; [by destruct addrType|]. split.
  - intros name info. rewrite lookup_alter. case_decide as Hn; [|apply Hm0].
    destruct (m0 !! iname) as [x|] eqn:E; [|done]. cbn. intros [= <-].
    destruct (Hm0 _ _ E) as (Hfd & Hs & Hc).
    subst f. destruct addrType; cbn; repeat split; try done; by right.
  - intros name Hn. apply Hdom0 in Hn. apply elem_of_dom in Hn as [x Hx].
    apply elem_of_dom. rewrite lookup_alter. case_decide; [subst|]; rewrite Hx; by eexists.
Qed.

Lemma readIfacesLoop_fresh secName addrType fuel :
  forall sstream i m,
  table_fresh inet_pton m ->
  exists m', (readIfacesLoop inet_pton indeterminate secName addrType fuel sstream i m).2 = Ok m' /\
             table_fresh inet_pton m' /\ dom m ⊆ dom m'.
Proof.
  induction fuel as [|fuel IH]; intros sstream i m Hm; [by exists m|].
  cbn [readIfacesLoop].
  destruct (getline (ws sstream) ",") as [[ientry rest]|]; [|by exists m].
  destruct (getline (ws ientry) " ") as [[iname esstream]|].
  - destruct (readAddress_fresh secName addrType iname esstream i m Hm)
      as (m1 & Hm1 & Hf1 & Hd1).
    destruct (IH rest (i + 1) m1 Hf1) as (m' & Hm' & Hf' & Hd').
    exists m'. split; [|split; [done|set_solver]].
    unfold lbind. rewrite Hm1. cbn [fst snd]. by rewrite Hm'.
  - destruct (IH rest i m Hm) as (m' & Hm' & Hf' & Hd').
    exists m'. split; [|done]. unfold lbind, LOG. cbn [fst snd]. by rewrite Hm'.
Qed.

Lemma readIfaces_fresh cfile secName addrType m m' :
  table_fresh inet_pton m ->
  (readIfaces inet_pton indeterminate cfile secName addrType m).2 = Ok m' ->
  table_fresh inet_pton m' /\ dom m ⊆ dom m'.
Proof.
  intros Hm Hrun. unfold readIfaces in Hrun.
  apply lbind_Ok in Hrun as (s & _ & Hrun).
  apply lbind_Ok in Hrun as (m1 & Hloop & Hrun).
  case_decide; [done|]. cbn in Hrun. injection Hrun as <-.
  destruct (readIfacesLoop_fresh secName addrType (S (String.length s)) s 0 m Hm)
    as (m1' & Hm1' & Hf & Hd).
  rewrite Hloop in Hm1'. by injection Hm1' as <-.
Qed.

(** The table that [DataReceiver::readConfig] leaves. *)
Lemma DataReceiver_table_fresh cfile cfg :
  (DataReceiver_readConfig inet_pton indeterminate cfile).2 = Ok cfg ->
  forall name info, ifaceMap (dr_shared cfg) !! name = Some info ->
    sockfd info = UNINITIALIZED_FD /\
    inet_pton (addrSrv info) = true /\ inet_pton (addrCli info) = true.
Proof.
  intros Hcfg name info Hinfo.
  unfold DataReceiver_readConfig in Hcfg.
  apply lbind_Ok in Hcfg as (lvl & _ & Hcfg).
  apply lbind_Ok in Hcfg as (portSrv & _ & Hcfg).
  apply lbind_Ok in Hcfg as (m1 & Hm1 & Hcfg).
  apply lbind_Ok in Hcfg as (portCli & _ & Hcfg).
  apply lbind_Ok in Hcfg as (m2 & Hm2 & Hcfg).
  case_decide as Hsize; [done|]. cbn in Hcfg. injection Hcfg as <-.
  cbn [dr_shared ifaceMap] in Hinfo.
  apply map_lookup_filter_Some in Hinfo as [Hinfo [Hsrv Hcli]]. cbn in Hsrv, Hcli.
  destruct (readIfaces_fresh _ _ _ _ _ table_fresh_empty Hm1) as [Hf1 _].
  destruct (readIfaces_fresh _ _ _ _ _ Hf1 Hm2) as [Hf2 _].
  destruct (Hf2 _ _ Hinfo) as (Hfd & [?|Hs] & [?|Hc]); done.
Qed.

End TableFacts.

Section TableTheorems.

Variable inet_pton : string -> bool.
Variable indeterminate : string -> Z.

Lemma in_order_lookup {V : Type} (m : gmap string V) entry :
  entry ∈ in_order m -> m !! entry.1 = Some entry.2.
Proof.
  rewrite in_order_Permutation. destruct entry as [k v]. apply elem_of_map_to_list.
Qed.

Lemma closeIfaceSocks_unset ifaces w :
  (forall name info, ifaces !! name = Some info -> sockfd info = UNINITIALIZED_FD) ->
  closeIfaceSocks ifaces w = w.
Proof.
  intros Hfd. unfold closeIfaceSocks.
  assert (Hall : forall entry, entry ∈ in_order ifaces -> sockfd entry.2 = UNINITIALIZED_FD).
  { intros entry He. apply (Hfd entry.1). by apply in_order_lookup. }
  induction (in_order ifaces) as [|entry rest IH]; [done|].
  cbn [foldl]. rewrite decide_False.
  - apply IH. intros e He. apply Hall. by right.
  - intros Hne. apply Hne, Hall. by left.
Qed.

(** X7.  [readIfaces] marks the handle of every interface it adds as not
    initialised, so that the table [DataReceiver::readConfig] leaves has
    no handle set: [closeIfaceSocks], which the start-up code calls
    before it ends the program on an error, then closes nothing. *)
Theorem DataReceiver_config_closes_nothing cfile cfg w :
  (DataReceiver_readConfig inet_pton indeterminate cfile).2 = Ok cfg ->
  (forall name info, ifaceMap (dr_shared cfg) !! name = Some info ->
     sockfd info = UNINITIALIZED_FD) /\
  closeIfaceSocks (ifaceMap (dr_shared cfg)) w = w.
Proof.
  intros Hcfg.
  assert (Hfd : forall name info, ifaceMap (dr_shared cfg) !! name = Some info ->
            sockfd info = UNINITIALIZED_FD).
  { intros name info Hinfo.
    by destruct (DataReceiver_table_fresh inet_pton indeterminate cfile cfg Hcfg name info Hinfo). }
  split; [done|]. by apply closeIfaceSocks_unset.
Qed.

(** X8.  Every address of the table that [DataReceiver::readConfig]
    leaves has passed [inet_pton]: [createSockaddr] builds the socket
    address of each interface, for the server and for the client side,
    without reaching its fatal branch, and touches nothing else. *)
Theorem DataReceiver_config_addresses_resolve cfile cfg name info host port w :
  (DataReceiver_readConfig inet_pton indeterminate cfile).2 = Ok cfg ->
  ifaceMap (dr_shared cfg) !! name = Some info ->
  createSockaddr inet_pton host (ifaceMap (dr_shared cfg)) (addrSrv info) port w
    = (w, Ok (MkSockaddr (addrSrv info) (htons host port))) /\
  createSockaddr inet_pton host (ifaceMap (dr_shared cfg)) (addrCli info) port w
    = (w, Ok (MkSockaddr (addrCli info) (htons host port))).
Proof.
  intros Hcfg Hinfo.
  destruct (DataReceiver_table_fresh inet_pton indeterminate cfile cfg Hcfg name info Hinfo)
    as (_ & Hs & Hc).
  unfold createSockaddr. rewrite Hs, Hc. by rewrite decide_False by (by intros []).
Qed.

End TableTheorems.

Lemma DataReceiver_config_closes_nothing_witness :
  (DataReceiver_readConfig inet_pton4 staleCounter loopbackConfig).2 = Ok loopbackReceiver /\
  (forall name info, ifaceMap (dr_shared loopbackReceiver) !! name = Some info ->
     sockfd info = UNINITIALIZED_FD) /\
  closeIfaceSocks (ifaceMap (dr_shared loopbackReceiver)) (MkWorld {[0; 1; 2]} [] [])
    = MkWorld {[0; 1; 2]} [] [].
Proof.
  assert (H : (DataReceiver_readConfig inet_pton4 staleCounter loopbackConfig).2
              = Ok loopbackReceiver) by (by vm_compute).
  exact (conj H (DataReceiver_config_closes_nothing inet_pton4 staleCounter loopbackConfig
                   loopbackReceiver (MkWorld {[0; 1; 2]} [] []) H)).
Defined.

Lemma DataReceiver_config_addresses_resolve_witness :
  let info := MkIfaceInfo "127.0.0.1" "127.0.0.1" None UNINITIALIZED_FD (staleCounter "lo") 0 in
  let w := MkWorld {[0; 1; 2]} [] [] in
  (DataReceiver_readConfig inet_pton4 staleCounter loopbackConfig).2 = Ok loopbackReceiver /\
  ifaceMap (dr_shared loopbackReceiver) !! "lo" = Some info /\
  createSockaddr inet_pton4 LittleEndian (ifaceMap (dr_shared loopbackReceiver))
      (addrSrv info) 44444 w
    = (w, Ok (MkSockaddr (addrSrv info) (htons LittleEndian 44444))) /\
  createSockaddr inet_pton4 LittleEndian (ifaceMap (dr_shared loopbackReceiver))
      (addrCli info) 44444 w
    = (w, Ok (MkSockaddr (addrCli info) (htons LittleEndian 44444))).
Proof.
  intros info w.
  assert (H : (DataReceiver_readConfig inet_pton4 staleCounter loopbackConfig).2
              = Ok loopbackReceiver) by (by vm_compute).
  assert (H2 : ifaceMap (dr_shared loopbackReceiver) !! "lo" = Some info) by (by vm_compute).
  exact (conj H (conj H2
    (DataReceiver_config_addresses_resolve inet_pton4 staleCounter loopbackConfig
       loopbackReceiver "lo" info LittleEndian 44444 w H H2))).
Defined.

Section NamesCover.

Variable inet_pton : string -> bool.
Variable indeterminate : string -> Z.

(** X9.  Every interface of the table that [DataReceiver::readConfig]
    leaves is among the names that [readIfnames] returns for the
    data-receiver section, and [readIfnames] does return: the report of
    [FeedbackSender], which has one block for each of these names, leaves
    out no interface that the receiver counts. *)
Theorem every_counted_interface_is_named cfile cfg :
  (DataReceiver_readConfig inet_pton indeterminate cfile).2 = Ok cfg ->
  exists ifnames,
    (readIfnames cfile "data-receiver").2 = Ok ifnames /\
    forall name, is_Some (ifaceMap (dr_shared cfg) !! name) -> name ∈ ifnames.
Proof.
  intros Hcfg. unfold DataReceiver_readConfig in Hcfg.
  apply lbind_Ok in Hcfg as (lvl & _ & Hcfg).
  apply lbind_Ok in Hcfg as (portSrv & _ & Hcfg).
  apply lbind_Ok in Hcfg as (m1 & Hm1 & Hcfg).
  apply lbind_Ok in Hcfg as (portCli & _ & Hcfg).
  apply lbind_Ok in Hcfg as (m2 & Hm2 & Hcfg).
  case_decide as Hsize; [done|]. cbn in Hcfg. injection Hcfg as <-.
  cbn [dr_shared ifaceMap].
  (* the client pass *)
  unfold readIfaces in Hm2.
  apply lbind_Ok in Hm2 as (s2 & _ & Hm2).
  apply lbind_Ok in Hm2 as (m2' & Hloop2 & Hm2).
  case_decide; [done|]. cbn in Hm2. injection Hm2 as ->.
  (* the server pass *)
  unfold readIfaces in Hm1.
  apply lbind_Ok in Hm1 as (s1 & Hs1 & Hm1).
  apply lbind_Ok in Hm1 as (m1' & Hloop1 & Hm1).
  case_decide; [done|]. cbn in Hm1. injection Hm1 as ->.
  destruct (readIfacesLoop_positions inet_pton indeterminate "data-receiver" "data-receiver"
              _ _ _ _ [] _ Hloop1 eq_refl) as (names & Hn & Hpos).
  { intros n x Hx. by rewrite lookup_empty in Hx. }
  assert (Hin : forall name, is_Some (filter (paired) m2 !! name) -> name ∈ names).
  { intros name [info Hinfo].
    apply map_lookup_filter_Some in Hinfo as [Hinfo [Hsrv _]]. cbn in Hsrv.
    destruct (readIfacesLoop_client inet_pton indeterminate _ _ _ _ _ _ Hloop2 name info Hinfo)
      as [(info1 & Hinfo1 & _)|(_ & Hempty)]; [|done].
    destruct (Hpos name info1 Hinfo1) as (p & Hp & _).
    by eapply list_elem_of_lookup_2. }
  exists names. split; [|done].
  unfold readIfnames, lbind.
  destruct (readIfacesStr cfile "data-receiver") as [l1 o1] eqn:Estr.
  cbn [fst snd] in *. rewrite Hs1. cbn [fst snd]. rewrite Hn.
  destruct names as [|n0 names']; [|done].
  exfalso. apply Hsize. apply map_size_empty_iff, map_empty.
  intros name. destruct (filter paired m2 !! name) eqn:E; [|done].
  assert (Hx : name ∈ @nil string) by (apply Hin; by eexists).
  by apply elem_of_nil in Hx.
Qed.

End NamesCover.

Lemma every_counted_interface_is_named_witness :
  (DataReceiver_readConfig inet_pton4 staleCounter loopbackConfig).2 = Ok loopbackReceiver /\
  exists ifnames,
    (readIfnames loopbackConfig "data-receiver").2 = Ok ifnames /\
    forall name, is_Some (ifaceMap (dr_shared loopbackReceiver) !! name) -> name ∈ ifnames.
Proof.
  assert (H : (DataReceiver_readConfig inet_pton4 staleCounter loopbackConfig).2
              = Ok loopbackReceiver) by (by vm_compute).
  exact (conj H (every_counted_interface_is_named inet_pton4 staleCounter loopbackConfig
                   loopbackReceiver H)).
Defined.

Section BlankList.

Variable inet_pton : string -> bool.
Variable indeterminate : string -> Z.

(** X10.  An interface list that is empty or blank ends the program: the
    loops of [readIfaces] and of [readIfnames] find no entry, and both
    log a fatal message and call [exit(1)]. *)
Theorem blank_interface_list_exits cfile secName addrType s :
  cfile !! (secName +:+ "/" +:+ "ifaces") = Some s -> ws s = "" ->
  (exists msg, readIfaces inet_pton indeterminate cfile secName addrType ∅
               = ([(FATAL, msg)], Exit 1)) /\
  (exists msg, readIfnames cfile secName = ([(FATAL, msg)], Exit 1)).
Proof.
  intros Hkey Hblank. split.
  - unfold readIfaces, readIfacesStr, try_catch_char_ptr, lift, Value. rewrite Hkey.
    unfold lbind. cbn [fst snd readIfacesLoop]. rewrite Hblank. cbn [getline fst snd lret].
    rewrite decide_True by done. cbn. by eexists.
  - unfold readIfnames, readIfacesStr, try_catch_char_ptr, lift, Value. rewrite Hkey.
    unfold lbind. cbn [fst snd readIfnamesLoop]. rewrite Hblank. cbn. by eexists.
Qed.

End BlankList.

Lemma blank_interface_list_exits_witness :
  (<["data-receiver/ifaces" := "   "]> ∅ : gmap string string)
    !! ("data-receiver" +:+ "/" +:+ "ifaces") = Some "   " /\
  ws "   " = "" /\
  (exists msg, readIfaces inet_pton4 staleCounter (<["data-receiver/ifaces" := "   "]> ∅)
                 "data-receiver" SERVER ∅ = ([(FATAL, msg)], Exit 1)) /\
  (exists msg, readIfnames (<["data-receiver/ifaces" := "   "]> ∅) "data-receiver"
               = ([(FATAL, msg)], Exit 1)).
Proof.
  assert (H1 : (<["data-receiver/ifaces" := "   "]> ∅ : gmap string string)
                 !! ("data-receiver" +:+ "/" +:+ "ifaces") = Some "   ") by (by vm_compute).
  assert (H2 : ws "   " = "") by reflexivity.
  exact (conj H1 (conj H2 (blank_interface_list_exits inet_pton4 staleCounter _
                             "data-receiver" SERVER
                             "   " H1 H2))).
Defined.

Section RenderedLists.

Implicit Types (entries : list (string * string)).

Lemma ifacesValue_one e : ifacesValue [e] = ifacesEntry e.
Proof. reflexivity. Qed.

Lemma ifacesValue_more e e' entries :
  ifacesValue (e :: e' :: entries) = ifacesEntry e +:+ ", " +:+ ifacesValue (e' :: entries).
Proof. reflexivity. Qed.

Lemma ws_spaces pad s : str_all isspace pad = true -> ws (pad +:+ s) = ws s.
Proof.
  induction pad as [|c pad IH]; intros Hpad; [done|].
  cbn in Hpad. apply andb_true_iff in Hpad as [Hc Hpad].
  rewrite str_app_cons. cbn [ws]. rewrite Hc. by apply IH.
Qed.

Lemma token_no_space s :
  token s -> str_all (fun x => negb (bool_decide (x = " "%char))) s = true.
Proof.
  intros [_ H]. eapply str_all_impl; [|exact H]. intros c Hc. cbn beta in Hc.
  apply andb_true_iff in Hc as [Hc _]. apply negb_true_iff.
  apply bool_decide_eq_false. intros ->. done.
Qed.

Lemma token_no_comma s :
  token s -> str_all (fun x => negb (bool_decide (x = ","%char))) s = true.
Proof.
  intros [_ H]. eapply str_all_impl; [|exact H]. intros c Hc. cbn beta in Hc.
  by apply andb_true_iff in Hc as [_ Hc].
Qed.

Lemma ws_token s t : token s -> ws (s +:+ t) = s +:+ t.
Proof.
  intros [Hne H]. destruct s as [|c s]; [done|]. cbn in H.
  apply andb_true_iff in H as [Hc _]. apply andb_true_iff in Hc as [Hc _].
  rewrite str_app_cons. cbn [ws]. apply negb_true_iff in Hc. by rewrite Hc.
Qed.

Lemma token_length s : token s -> (0 < String.length s)%nat.
Proof. intros [Hne _]. destruct s; [done|cbn; lia]. Qed.

(** The three extractions the readers make on a well-formed entry. *)
Lemma entry_name n a :
  token n -> token a -> getline (ws (ifacesEntry (n, a))) " " = Some (n, a).
Proof.
  intros Hn Ha. unfold ifacesEntry. cbn [fst snd]. rewrite ws_token by done.
  change (n +:+ " " +:+ a) with (n +:+ String " " a).
  apply getline_app. by apply token_no_space.
Qed.

Lemma entry_address a : token a -> getline (ws a) " " = Some (a, "").
Proof.
  intros Ha. rewrite <- (str_app_nil_r a) at 1. rewrite ws_token by done.
  rewrite str_app_nil_r. apply getline_whole; [apply Ha|by apply token_no_space].
Qed.

Lemma entry_no_comma n a :
  token n -> token a ->
  str_all (fun x => negb (bool_decide (x = ","%char))) (ifacesEntry (n, a)) = true.
Proof.
  intros Hn Ha. unfold ifacesEntry. cbn [fst snd].
  rewrite !str_all_app, (token_no_comma n), (token_no_comma a) by done. done.
Qed.

Lemma ws_entry n a t : token n -> ws (ifacesEntry (n, a) +:+ t) = ifacesEntry (n, a) +:+ t.
Proof.
  intros Hn. unfold ifacesEntry. cbn [fst snd]. rewrite str_app_assoc. by apply ws_token.
Qed.

Lemma entry_line pad n a entries :
  str_all isspace pad = true -> token n -> token a ->
  getline (ws (pad +:+ ifacesValue ((n, a) :: entries))) ","
  = Some (ifacesEntry (n, a), afterEntry entries).
Proof.
  intros Hpad Hn Ha. rewrite ws_spaces by done.
  destruct entries as [|e' entries].
  - rewrite ifacesValue_one. rewrite <- (str_app_nil_r (ifacesEntry (n, a))) at 1.
    rewrite ws_entry by done. rewrite str_app_nil_r.
    apply getline_whole; [|by apply entry_no_comma].
    unfold ifacesEntry. cbn [fst snd]. destruct Hn as [Hne _]. by destruct n.
  - rewrite ifacesValue_more. rewrite ws_entry by done.
    change (", " +:+ ifacesValue (e' :: entries))
      with (String "," (" " +:+ ifacesValue (e' :: entries))).
    apply getline_app. by apply entry_no_comma.
Qed.

Lemma afterEntry_pad entries :
  exists pad, str_all isspace pad = true /\ afterEntry entries = pad +:+ ifacesValue entries.
Proof.
  destruct entries as [|e entries].
  - by exists "".
  - by exists " ".
Qed.

Lemma ifacesValue_length entries :
  Forall (fun e => token e.1 /\ token e.2) entries ->
  (length entries <= String.length (ifacesValue entries))%nat.
Proof.
  induction 1 as [|[n a] entries [Hn Ha] Hall IH]; [done|].
  apply token_length in Hn, Ha. cbn [fst snd] in Hn, Ha.
  destruct entries as [|e' entries].
  - rewrite ifacesValue_one. unfold ifacesEntry. cbn [fst snd length].
    rewrite !str_length_app. lia.
  - rewrite ifacesValue_more. unfold ifacesEntry at 1. cbn [fst snd].
    rewrite !str_length_app. cbn [length] in *. lia.
Qed.

End RenderedLists.

Section RenderedLoops.

Variable inet_pton : string -> bool.
Variable indeterminate : string -> Z.

Lemma lbind_lret {A B : Type} (a : A) (k : A -> logged B) : lbind ([], Ok a) k = k a.
Proof. unfold lbind. cbn. by destruct (k a). Qed.

Lemma ws_only_spaces pad : str_all isspace pad = true -> ws pad = "".
Proof.
  intros Hpad. rewrite <- (str_app_nil_r pad). by rewrite ws_spaces.
Qed.

Lemma readIfnamesLoop_rendered secName :
  forall entries pad ifnames fuel,
  str_all isspace pad = true ->
  Forall (fun e : string * string => token e.1 /\ token e.2) entries ->
  (length entries < fuel)%nat ->
  readIfnamesLoop secName fuel (pad +:+ ifacesValue entries) ifnames
  = ([], Ok (ifnames ++ entries.*1)).
Proof.
  induction entries as [|[n a] entries IH]; intros pad ifnames fuel Hpad Hall Hfuel.
  - destruct fuel as [|fuel]; [cbn in Hfuel; lia|]. cbn [readIfnamesLoop].
    change (ifacesValue []) with "". rewrite str_app_nil_r, ws_only_spaces by done.
    cbn. by rewrite app_nil_r.
  - destruct fuel as [|fuel]; [cbn in Hfuel; lia|]. cbn [readIfnamesLoop].
    apply Forall_cons in Hall as [[Hn Ha] Hall]. cbn [fst snd] in Hn, Ha.
    rewrite entry_line, entry_name by done.
    destruct (afterEntry_pad entries) as (pad' & Hpad' & ->).
    rewrite IH; [|done|done|cbn [length] in Hfuel; lia].
    cbn [fmap list_fmap fst]. by rewrite <- app_assoc.
Qed.

Lemma readAddress_rendered secName addrType n a i (m : IfaceInfoMap) :
  token a -> inet_pton a = true -> m !! n = None ->
  readAddress inet_pton indeterminate secName addrType n a i m
  = ([], Ok (<[n := (match addrType with
                     | SERVER => setAddrSrv a
                     | CLIENT => setAddrCli a
                     end) (MkIfaceInfo "" "" None UNINITIALIZED_FD (indeterminate n) i)]> m)).
Proof.
  intros Ha Hok Hnone. unfold readAddress. rewrite entry_address, Hok, Hnone by done.
  destruct addrType; unfold lret; by rewrite alter_insert_eq.
Qed.

Lemma readIfacesLoop_rendered secName addrType :
  forall entries pad i (m : IfaceInfoMap) fuel,
  str_all isspace pad = true ->
  Forall (fun e : string * string => token e.1 /\ token e.2 /\ inet_pton e.2 = true) entries ->
  NoDup entries.*1 ->
  (forall n, n ∈ entries.*1 -> m !! n = None) ->
  (length entries < fuel)%nat ->
  exists m',
    readIfacesLoop inet_pton indeterminate secName addrType fuel
      (pad +:+ ifacesValue entries) i m
      = ([], Ok m') /\
    (forall (k : nat) n a, entries !! k = Some (n, a) ->
       m' !! n = Some ((match addrType with
                        | SERVER => setAddrSrv a
                        | CLIENT => setAddrCli a
                        end) (MkIfaceInfo "" "" None UNINITIALIZED_FD (indeterminate n)
                                (i + Z.of_nat k)))) /\
    (forall n, n ∉ entries.*1 -> m' !! n = m !! n).
Proof.
  induction entries as [|[n a] entries IH]; intros pad i m fuel Hpad Hall Hnd Hnew Hfuel.
  - destruct fuel as [|fuel]; [cbn in Hfuel; lia|]. cbn [readIfacesLoop].
    change (ifacesValue []) with "". rewrite str_app_nil_r, ws_only_spaces by done.
    exists m. split; [done|]. split; [|done]. intros k n a Hk. by rewrite lookup_nil in Hk.
  - destruct fuel as [|fuel]; [cbn in Hfuel; lia|]. cbn [readIfacesLoop].
    apply Forall_cons in Hall as [(Hn & Ha & Hok) Hall]. cbn [fst snd] in Hn, Ha, Hok.
    cbn [fmap list_fmap fst] in Hnd, Hnew. apply NoDup_cons in Hnd as [Hfirst Hnd].
    rewrite entry_line, entry_name by done.
    rewrite readAddress_rendered; [|done|done|apply Hnew; by left].
    rewrite lbind_lret.
    destruct (afterEntry_pad entries) as (pad' & Hpad' & ->).
    set (m1 := <[n := _]> m).
    destruct (IH pad' (i + 1) m1 fuel Hpad' Hall Hnd) as (m' & Hrun & Hin & Hout).
    { intros n' Hn'. subst m1. rewrite lookup_insert_ne by (by intros ->).
      apply Hnew. by right. }
    { cbn [length] in Hfuel. lia. }
    exists m'. split; [done|]. split.
    + intros [|k] n' a' Hk.
      * cbn in Hk. injection Hk as <- <-. rewrite Hout by done. subst m1.
        rewrite lookup_insert_eq. by rewrite Z.add_0_r.
      * cbn in Hk. rewrite (Hin k n' a' Hk). do 3 f_equal. lia.
    + intros n' Hn'. cbn [fmap list_fmap fst] in Hn'.
      apply not_elem_of_cons in Hn' as [Hne Hn']. rewrite Hout by done.
      subst m1. by rewrite lookup_insert_ne.
Qed.

End RenderedLoops.

(** X11.  [readIfnames] reads back the names of a list written as
    [name address, name address, ...]: for entries whose words hold
    neither white space nor a comma it returns the names in the order they
    are written, with nothing logged. *)
Theorem readIfnames_reads_the_names cfile secName (entries : list (string * string)) :
  entries <> [] ->
  Forall (fun e : string * string => token e.1 /\ token e.2) entries ->
  cfile !! (secName +:+ "/" +:+ "ifaces") = Some (ifacesValue entries) ->
  readIfnames cfile secName = ([], Ok entries.*1).
Proof.
  intros Hne Hall Hkey.
  unfold readIfnames, readIfacesStr, try_catch_char_ptr, lift, Value. rewrite Hkey.
  cbn [fst snd]. rewrite lbind_lret.
  rewrite <- (str_app_nil_l (ifacesValue entries)) at 2.
  rewrite readIfnamesLoop_rendered; [|done|done|].
  - rewrite lbind_lret. cbn [app]. by destruct entries.
  - pose proof (ifacesValue_length entries Hall). lia.
Qed.

Lemma readIfnames_reads_the_names_witness :
  let entries := [("wlan0", "10.0.0.1"); ("eth0", "192.168.1.7")] in
  let cfile : gmap string string := <["data-receiver/ifaces" := ifacesValue entries]> ∅ in
  entries <> [] /\
  Forall (fun e : string * string => token e.1 /\ token e.2) entries /\
  cfile !! ("data-receiver" +:+ "/" +:+ "ifaces") = Some (ifacesValue entries) /\
  readIfnames cfile "data-receiver" = ([], Ok entries.*1).
Proof.
  intros entries cfile.
  assert (H1 : entries <> []) by done.
  assert (H2 : Forall (fun e : string * string => token e.1 /\ token e.2) entries)
    by (repeat constructor; done).
  assert (H3 : cfile !! ("data-receiver" +:+ "/" +:+ "ifaces") = Some (ifacesValue entries))
    by (by vm_compute).
  exact (conj H1 (conj H2 (conj H3
    (readIfnames_reads_the_names cfile "data-receiver" entries H1 H2 H3)))).
Defined.

(** X12.  [readIfaces] reads back a list written as
    [name address, name address, ...].  For entries with distinct names,
    words without white space or comma and addresses that [inet_pton]
    accepts, the table read into an empty map holds, for the entry at
    position [k], the address on the side asked for, the index [k] and
    no handle, and it holds no other name.  The counter [nbytesAcc] of a
    record is not written: it is what the memory of the new record
    held. *)
Theorem readIfaces_reads_the_entries inet_pton indeterminate cfile secName addrType
    (entries : list (string * string)) :
  entries <> [] ->
  Forall (fun e : string * string => token e.1 /\ token e.2 /\ inet_pton e.2 = true) entries ->
  NoDup entries.*1 ->
  cfile !! (secName +:+ "/" +:+ "ifaces") = Some (ifacesValue entries) ->
  exists ifaceMap : IfaceInfoMap,
    readIfaces inet_pton indeterminate cfile secName addrType ∅ = ([], Ok ifaceMap) /\
    (forall (k : nat) n a, entries !! k = Some (n, a) ->
       ifaceMap !! n
       = Some (match addrType with
               | SERVER =>
                   MkIfaceInfo a "" None UNINITIALIZED_FD (indeterminate n) (Z.of_nat k)
               | CLIENT =>
                   MkIfaceInfo "" a None UNINITIALIZED_FD (indeterminate n) (Z.of_nat k)
               end)) /\
    (forall n, is_Some (ifaceMap !! n) -> n ∈ entries.*1).
Proof.
  intros Hne Hall Hnd Hkey.
  assert (Htok : Forall (fun e : string * string => token e.1 /\ token e.2) entries).
  { eapply Forall_impl; [exact Hall|]. by intros e (? & ? & _). }
  destruct (readIfacesLoop_rendered inet_pton indeterminate secName addrType entries "" 0 ∅
              (S (String.length (ifacesValue entries)))) as (m' & Hrun & Hin & Hout);
    try done.
  { pose proof (ifacesValue_length entries Htok). lia. }
  rewrite str_app_nil_l in Hrun.
  exists m'.
  assert (Hsize : size m' <> 0%nat).
  { destruct entries as [|[n a] entries]; [done|].
    intros Hz. apply map_size_empty_iff in Hz.
    specialize (Hin 0%nat n a eq_refl). by rewrite Hz, lookup_empty in Hin. }
  split; [|split].
  - unfold readIfaces, readIfacesStr, try_catch_char_ptr, lift, Value. rewrite Hkey.
    cbn [fst snd]. rewrite lbind_lret, Hrun, lbind_lret. by rewrite decide_False.
  - intros k n a Hk. rewrite (Hin k n a Hk). by destruct addrType.
  - intros n [info Hinfo]. destruct (decide (n ∈ entries.*1)) as [|Hnot]; [done|].
    by rewrite Hout, lookup_empty in Hinfo.
Qed.

Lemma readIfaces_reads_the_entries_witness :
  let entries := [("wlan0", "10.0.0.1"); ("eth0", "192.168.1.7")] in
  let cfile : gmap string string := <["data-receiver/ifaces" := ifacesValue entries]> ∅ in
  entries <> [] /\
  Forall (fun e : string * string => token e.1 /\ token e.2 /\ inet_pton4 e.2 = true) entries /\
  NoDup entries.*1 /\
  cfile !! ("data-receiver" +:+ "/" +:+ "ifaces") = Some (ifacesValue entries) /\
  exists ifaceMap : IfaceInfoMap,
    readIfaces inet_pton4 staleCounter cfile "data-receiver" SERVER ∅ = ([], Ok ifaceMap) /\
    (forall (k : nat) n a, entries !! k = Some (n, a) ->
       ifaceMap !! n
       = Some (MkIfaceInfo a "" None UNINITIALIZED_FD (staleCounter n) (Z.of_nat k))) /\
    (forall n, is_Some (ifaceMap !! n) -> n ∈ entries.*1).
Proof.
  intros entries cfile.
  assert (H1 : entries <> []) by done.
  assert (H2 : Forall (fun e : string * string =>
                         token e.1 /\ token e.2 /\ inet_pton4 e.2 = true) entries)
    by (repeat constructor; done).
  assert (H3 : NoDup entries.*1) by (apply (bool_decide_unpack _); by vm_compute).
  assert (H4 : cfile !! ("data-receiver" +:+ "/" +:+ "ifaces") = Some (ifacesValue entries))
    by (by vm_compute).
  exact (conj H1 (conj H2 (conj H3 (conj H4
    (readIfaces_reads_the_entries inet_pton4 staleCounter cfile "data-receiver" SERVER entries
       H1 H2 H3 H4))))).
Defined.


(** *** Consecutive feedback cycles *)

Section CycleFacts.

(** The three entries of a block. *)
Lemma blockImage_entries host nbm si ts tm1 tm2 i name :
  history_wf tm1 -> history_wf tm2 ->
  let B := blockImage host nbm si ts tm1 tm2 i name in
  take 12 (drop 4 B) = sampleBytes ts (throughputOf (default 0 (nbm !! name)) si) /\
  take 12 (drop 16 B) = slot1 tm1 name /\
  take 12 (drop 28 B) = slot2 tm1 tm2 name.
Proof.
  intros Hwf1 Hwf2 B. subst B. unfold blockImage.
  set (a := host_bytes host 4 i).
  set (b := sampleBytes ts (throughputOf (default 0 (nbm !! name)) si)).
  set (c := slot1 tm1 name). set (d := slot2 tm1 tm2 name).
  assert (Ha : length a = 4%nat) by apply length_host_bytes.
  assert (Hb : length b = 12%nat) by apply length_sampleBytes.
  assert (Hc : length c = 12%nat) by (by apply length_slot1).
  assert (Hd : length d = 12%nat) by (by apply length_slot2).
  split; [|split].
  - rewrite drop_app_length' by done. by rewrite take_app_length' by done.
  - rewrite (app_assoc a b). rewrite drop_app_length' by (rewrite length_app; lia).
    by rewrite take_app_length' by done.
  - rewrite (app_assoc a b), (app_assoc (a ++ b) c).
    rewrite drop_app_length' by (rewrite !length_app; lia).
    rewrite take_ge by lia. done.
Qed.

Lemma first_untracked {V : Type} (m : gmap string V) (names : list string) name :
  name ∈ names -> m !! name = None ->
  exists pre x post, names = pre ++ x :: post /\ m !! x = None /\
                     forall n, n ∈ pre -> is_Some (m !! n).
Proof.
  induction names as [|n0 names IH]; intros Hin Hnone; [by apply elem_of_nil in Hin|].
  destruct (m !! n0) as [v|] eqn:E.
  - apply elem_of_cons in Hin as [->|Hin]; [congruence|].
    destruct (IH Hin Hnone) as (pre & x & post & -> & Hx & Hpre).
    exists (n0 :: pre), x, post. repeat split; [done|].
    intros n [->|Hn]%elem_of_cons; [by eexists|by apply Hpre].
  - exists [], n0, names. repeat split; [done|]. intros n Hn. by apply elem_of_nil in Hn.
Qed.

(** The loop over the names stops at the first one that has no counter:
    [find] answers [end()], which is dereferenced. *)
Lemma fillBlocks_untracked host nbytesMap si ts tm1 tm2 x rest :
  forall names i pre post t,
  (forall name, name ∈ names -> is_Some (nbytesMap !! name)) ->
  nbytesMap !! x = None ->
  si <> 0 -> 0 <= i -> 4 + 40 * (i + Z.of_nat (length names)) < 2^32 ->
  Z.of_nat (length pre) = 4 + 40 * i ->
  history_wf tm1 -> history_wf tm2 ->
  fillBlocks host nbytesMap si ts (htonll host ts) tm1 tm2 (names ++ x :: rest) i
    (pre ++ replicate (40 * length names) x00 ++ post, t)
  = Undefined.
Proof.
  induction names as [|name names IH]; intros i pre post t Hin Hx Hsi Hi Hfit Hpre Hwf1 Hwf2.
  - cbn [app fillBlocks]. unfold fillBlock. by rewrite Hx.
  - cbn [app fillBlocks length]. cbn [length] in Hfit.
    destruct (Hin name) as [nbytes Hn]; [by left|].
    replace (40 * S (length names))%nat with (40 + 40 * length names)%nat by lia.
    rewrite replicate_add, <- app_assoc.
    rewrite (fillBlock_spec _ _ _ _ _ _ _ _ _ _ _ nbytes) by (try done; lia).
    cbn [obind]. rewrite wrap32_small by lia.
    rewrite (app_assoc pre).
    apply IH; try done.
    + intros n' Hn'. apply Hin. by right.
    + lia.
    + lia.
    + rewrite length_app, length_blockImage by done. lia.
Qed.

End CycleFacts.

(** X13.  A name of [dataReceiverIfnames] for which the receiver keeps no
    counter makes the cycle undefined: [nbytesMap.find] answers [end()]
    for it, and the loop dereferences that iterator. *)
Theorem feedbackCycle_untracked_name host fi names st now rx name :
  wrap64 fi <> 0 -> sleepingInterval st <> 0 ->
  4 + 40 * Z.of_nat (length names) < 2^31 ->
  dom (nbytes_reset_value rx) ⊆ dom (ifaceMap rx) ->
  state_wf st ->
  name ∈ names -> ifaceMap rx !! name = None ->
  feedbackCycle host fi names st now rx = Undefined.
Proof.
  intros Hfi Hsi Hfit Hdom (Hwf2 & Hwf1 & Hwf0) Hin Hnone.
  assert (Hnone' : snapshot (ifaceMap rx) !! name = None)
    by (by rewrite snapshot_lookup, Hnone).
  destruct (first_untracked (snapshot (ifaceMap rx)) names name Hin Hnone')
    as (pre & x & post & -> & Hx & Hpre).
  rewrite length_app in Hfit. cbn [length] in Hfit.
  unfold feedbackCycle, alignedTimestamp, publish.
  rewrite decide_False by done. cbn [obind].
  rewrite decide_True by (by rewrite dom_snapshot). cbn [obind].
  unfold buildReport. rewrite length_app. cbn [length].
  rewrite (wrap32_small (Z.of_nat _)) by lia.
  rewrite (wrap32_small (_ * 40)) by lia.
  rewrite (wrap32_small (4 + _)) by lia.
  rewrite to_int32_small by lia. rewrite decide_False by lia.
  replace (Z.to_nat (4 + Z.of_nat (length pre + S (length post)) * 40))
    with (4 + (40 * length pre + 40 * S (length post)))%nat by lia.
  rewrite !replicate_add, host_bytes_htonl.
  rewrite write_at_prefix by (by rewrite length_be_bytes).
  cbn [defined obind].
  rewrite fillBlocks_untracked; try done; try lia.
Qed.

Lemma feedbackCycle_untracked_name_witness :
  let st := MkFeedbackSenderState ∅ ∅ ∅ 100 in
  let rx := MkDataReceiverShared
              (<["lo" := MkIfaceInfo "127.0.0.1" "127.0.0.1" None 3 6250 0]> ∅)
              (<["lo" := 0]> ∅) in
  wrap64 100 <> 0 /\ sleepingInterval st <> 0 /\
  4 + 40 * Z.of_nat (length ["lo"; "wlan0"]) < 2^31 /\
  dom (nbytes_reset_value rx) ⊆ dom (ifaceMap rx) /\
  state_wf st /\
  "wlan0" ∈ ["lo"; "wlan0"] /\ ifaceMap rx !! "wlan0" = None /\
  feedbackCycle LittleEndian 100 ["lo"; "wlan0"] st 1000 rx = Undefined.
Proof.
  intros st rx.
  assert (H1 : wrap64 100 <> 0) by (by vm_compute).
  assert (H2 : sleepingInterval st <> 0) by (by vm_compute).
  assert (H3 : 4 + 40 * Z.of_nat (length ["lo"; "wlan0"]) < 2^31) by (simpl; lia).
  assert (H4 : dom (nbytes_reset_value rx) ⊆ dom (ifaceMap rx))
    by (apply (bool_decide_unpack _); by vm_compute).
  assert (H5 : state_wf st)
    by (exact (conj history_wf_empty (conj history_wf_empty history_wf_empty))).
  assert (H6 : "wlan0" ∈ ["lo"; "wlan0"]) by (apply (bool_decide_unpack _); by vm_compute).
  assert (H7 : ifaceMap rx !! "wlan0" = None) by (by vm_compute).
  exact (conj H1 (conj H2 (conj H3 (conj H4 (conj H5 (conj H6 (conj H7
    (feedbackCycle_untracked_name LittleEndian 100 ["lo"; "wlan0"] st 1000 rx "wlan0"
       H1 H2 H3 H4 H5 H6 H7)))))))).
Defined.

Section History.

Lemma endOfCycle_runs fi st endTimestamp :
  0 < fi < 2^63 ->
  exists s, endOfCycle fi st endTimestamp
            = Ok (MkFeedbackSenderState (tm2Info st) (tm1Info st) (tInfo st) s) /\
            s = fi - endTimestamp mod fi /\ 1 <= s <= fi.
Proof.
  intros Hfi. unfold endOfCycle, sleepingIntervalOf.
  rewrite (wrap64_small fi) by lia. rewrite decide_False by lia. cbn [obind].
  pose proof (Z.mod_pos_bound endTimestamp fi ltac:(lia)).
  rewrite wrap64_small by lia. eexists. split; [done|]. lia.
Qed.

End History.

(** X14.  The redundancy of the reports.  The report of a cycle holds,
    in the entry t of every block, the sample of that cycle: its
    timestamp and the throughput of the interface.  The report of the
    next cycle holds the same twelve bytes in the entry t-1 of the block
    at the same position, and in its entry t-2 the twelve bytes that
    the first report has in its entry t-1, whatever the counters have
    become in between. *)
Theorem report_repeats_previous_samples host fi names st now1 rx end1 now2 rx2 :
  0 < fi < 2^63 ->
  cycle_ready fi names st rx ->
  (forall name, name ∈ names -> is_Some (ifaceMap rx2 !! name)) ->
  dom (nbytes_reset_value rx2) ⊆ dom (ifaceMap rx2) ->
  exists report1 st1 rx1 st1' report2 st2 rx2',
    feedbackCycle host fi names st now1 rx = Ok (report1, st1, rx1) /\
    endOfCycle fi st1 end1 = Ok st1' /\
    feedbackCycle host fi names st1' now2 rx2 = Ok (report2, st2, rx2') /\
    forall (i : nat) name, names !! i = Some name ->
      let sample :=
        sampleBytes (wrap64 (now1 - now1 mod wrap64 fi))
          (throughputOf (default 0 (snapshot (ifaceMap rx) !! name)) (sleepingInterval st)) in
      read_at report1 (4 + 40 * Z.of_nat i + 4) 12 = Some sample /\
      read_at report2 (4 + 40 * Z.of_nat i + 16) 12 = Some sample /\
      read_at report1 (4 + 40 * Z.of_nat i + 16) 12 = Some (slot1 (tInfo st) name) /\
      read_at report2 (4 + 40 * Z.of_nat i + 28) 12 = Some (slot1 (tInfo st) name).
Proof.
  intros Hfi Hready Hin2 Hdom2.
  pose proof Hready as (Hfi0 & Hsi & Hfit & Hin & Hdom & Hwf2 & Hwf1 & Hwf0).
  rewrite (feedbackCycle_spec host fi names st now1 rx Hready).
  set (ts1 := wrap64 (now1 - now1 mod wrap64 fi)).
  set (nbm1 := snapshot (ifaceMap rx)).
  set (st1 := MkFeedbackSenderState (tm1Info st) (tInfo st)
                (recorded nbm1 (sleepingInterval st) ts1 names ∅) (sleepingInterval st)).
  destruct (endOfCycle_runs fi st1 end1 Hfi) as (s & Hend & _ & Hs).
  set (st1' := MkFeedbackSenderState (tm2Info st1) (tm1Info st1) (tInfo st1) s) in *.
  assert (Hwfr : history_wf (recorded nbm1 (sleepingInterval st) ts1 names ∅)).
  { apply history_wf_recorded; [|apply history_wf_empty].
    subst ts1. unfold wrap64. apply Z.mod_pos_bound. lia. }
  assert (Hready2 : cycle_ready fi names st1' rx2).
  { refine (conj Hfi0 (conj _ (conj Hfit (conj Hin2 (conj Hdom2 (conj Hwf1 (conj Hwf0 Hwfr))))))).
    cbn. lia. }
  do 3 eexists. exists st1'. do 3 eexists.
  split; [reflexivity|]. split; [exact Hend|].
  rewrite (feedbackCycle_spec host fi names st1' now2 rx2 Hready2).
  split; [reflexivity|].
  intros i name Hi.
  replace (4 + 40 * Z.of_nat i + 16) with (4 + 40 * Z.of_nat i + Z.of_nat 16) by lia.
  replace (4 + 40 * Z.of_nat i + 28) with (4 + 40 * Z.of_nat i + Z.of_nat 28) by lia.
  replace (4 + 40 * Z.of_nat i + 4) with (4 + 40 * Z.of_nat i + Z.of_nat 4) by lia.
  rewrite !(report_read_block _ _ _ _ _ _ _ i name _ 12) by (done || lia).
  cbn [tInfo tm1Info tm2Info st1' st1 sleepingInterval].
  destruct (blockImage_entries host nbm1 (sleepingInterval st) ts1 (tInfo st) (tm1Info st)
              (Z.of_nat i) name Hwf0 Hwf1) as (E4 & E16 & _).
  destruct (blockImage_entries host (snapshot (ifaceMap rx2)) s
              (wrap64 (now2 - now2 mod wrap64 fi))
              (recorded nbm1 (sleepingInterval st) ts1 names ∅) (tInfo st)
              (Z.of_nat i) name Hwfr Hwf0) as (_ & F16 & F28).
  cbn zeta in E4, E16, F16, F28. rewrite E4, E16, F16, F28.
  assert (Hrec : recorded nbm1 (sleepingInterval st) ts1 names ∅ !! name
                 = Some (currentMessage nbm1 (sleepingInterval st) ts1 name)).
  { rewrite recorded_lookup, lookup_empty.
    by rewrite decide_True by (by eapply list_elem_of_lookup_2). }
  split; [done|]. split; [|split; [done|]].
  - unfold slot1. by rewrite Hrec.
  - unfold slot2, slot1. rewrite Hrec. by destruct (tInfo st !! name).
Qed.

Lemma report_repeats_previous_samples_witness :
  let st := MkFeedbackSenderState ∅ ∅ ∅ 100 in
  let rx := MkDataReceiverShared
              (<["lo" := MkIfaceInfo "127.0.0.1" "127.0.0.1" None 3 6250 0]> ∅)
              (<["lo" := 0]> ∅) in
  let rx2 := MkDataReceiverShared
              (<["lo" := MkIfaceInfo "127.0.0.1" "127.0.0.1" None 3 9000 0]> ∅)
              (<["lo" := 0]> ∅) in
  0 < 100 < 2^63 /\ cycle_ready 100 ["lo"] st rx /\
  (forall name, name ∈ ["lo"] -> is_Some (ifaceMap rx2 !! name)) /\
  dom (nbytes_reset_value rx2) ⊆ dom (ifaceMap rx2) /\
  exists report1 st1 rx1 st1' report2 st2 rx2',
    feedbackCycle LittleEndian 100 ["lo"] st 1000 rx = Ok (report1, st1, rx1) /\
    endOfCycle 100 st1 1001 = Ok st1' /\
    feedbackCycle LittleEndian 100 ["lo"] st1' 1100 rx2 = Ok (report2, st2, rx2') /\
    forall (i : nat) name, ["lo"] !! i = Some name ->
      let sample :=
        sampleBytes (wrap64 (1000 - 1000 mod wrap64 100))
          (throughputOf (default 0 (snapshot (ifaceMap rx) !! name)) (sleepingInterval st)) in
      read_at report1 (4 + 40 * Z.of_nat i + 4) 12 = Some sample /\
      read_at report2 (4 + 40 * Z.of_nat i + 16) 12 = Some sample /\
      read_at report1 (4 + 40 * Z.of_nat i + 16) 12 = Some (slot1 (tInfo st) name) /\
      read_at report2 (4 + 40 * Z.of_nat i + 28) 12 = Some (slot1 (tInfo st) name).
Proof.
  intros st rx rx2.
  assert (H1 : 0 < 100 < 2^63) by lia.
  assert (H2 : cycle_ready 100 ["lo"] st rx).
  { refine (conj _ (conj _ (conj _ (conj _ (conj _ (conj _ (conj _ _))))))).
    - vm_compute. discriminate.
    - vm_compute. discriminate.
    - simpl. lia.
    - intros name Hn.
      repeat (apply elem_of_cons in Hn as [->|Hn]); [by vm_compute; eexists..|].
      by apply elem_of_nil in Hn.
    - apply (bool_decide_unpack _). by vm_compute.
    - apply history_wf_empty.
    - apply history_wf_empty.
    - apply history_wf_empty. }
  assert (H3 : forall name, name ∈ ["lo"] -> is_Some (ifaceMap rx2 !! name)).
  { intros name Hn.
    repeat (apply elem_of_cons in Hn as [->|Hn]); [by vm_compute; eexists..|].
    by apply elem_of_nil in Hn. }
  assert (H4 : dom (nbytes_reset_value rx2) ⊆ dom (ifaceMap rx2))
    by (apply (bool_decide_unpack _); by vm_compute).
  exact (conj H1 (conj H2 (conj H3 (conj H4
    (report_repeats_previous_samples LittleEndian 100 ["lo"] st 1000 rx 1001 1100 rx2
       H1 H2 H3 H4))))).
Defined.

(** X15.  The timestamp of a report is the clock reading rounded down to
    a multiple of the feedback interval: it is a multiple of the
    interval, not after the reading and less than one interval before
    it, and every block carries it in its entry t. *)
Theorem report_timestamp_is_aligned host fi names st now rx :
  cycle_ready fi names st rx -> 0 < fi < 2^31 -> 0 <= now < 2^64 ->
  exists report st' rx' ts,
    feedbackCycle host fi names st now rx = Ok (report, st', rx') /\
    ts mod fi = 0 /\ now - fi < ts <= now /\
    forall (i : nat) name, names !! i = Some name ->
      read_at report (4 + 40 * Z.of_nat i + 4) 8 = Some (be_bytes 8 ts).
Proof.
  intros Hready Hfi Hnow.
  pose proof Hready as (Hfi0 & Hsi & Hfit & Hin & Hdom & Hwf2 & Hwf1 & Hwf0).
  rewrite (feedbackCycle_spec host fi names st now rx Hready).
  pose proof (Z.mod_pos_bound now fi ltac:(lia)) as Hmod.
  pose proof (Z.mod_le now fi ltac:(lia) ltac:(lia)) as Hle.
  rewrite (wrap64_small fi) by lia.
  rewrite (wrap64_small (now - now mod fi)) by lia.
  do 3 eexists. exists (now - now mod fi). split; [reflexivity|].
  split; [|split; [lia|]].
  - rewrite Zminus_mod, Z.mod_mod, Z.sub_diag by lia. apply Z.mod_0_l. lia.
  - intros i name Hi.
    replace (4 + 40 * Z.of_nat i + 4) with (4 + 40 * Z.of_nat i + Z.of_nat 4) by lia.
    rewrite (report_read_block _ _ _ _ _ _ _ i name 4 8) by (done || lia).
    f_equal. unfold blockImage, sampleBytes.
    rewrite drop_app_length' by (by rewrite length_host_bytes).
    rewrite <- app_assoc. by rewrite take_app_length' by (by rewrite length_be_bytes).
Qed.

Lemma report_timestamp_is_aligned_witness :
  let st := MkFeedbackSenderState ∅ ∅ ∅ 100 in
  let rx := MkDataReceiverShared
              (<["lo" := MkIfaceInfo "127.0.0.1" "127.0.0.1" None 3 6250 0]> ∅)
              (<["lo" := 0]> ∅) in
  cycle_ready 100 ["lo"] st rx /\ 0 < 100 < 2^31 /\ 0 <= 1667300000123 < 2^64 /\
  exists report st' rx' ts,
    feedbackCycle BigEndian 100 ["lo"] st 1667300000123 rx = Ok (report, st', rx') /\
    ts mod 100 = 0 /\ 1667300000123 - 100 < ts <= 1667300000123 /\
    forall (i : nat) name, ["lo"] !! i = Some name ->
      read_at report (4 + 40 * Z.of_nat i + 4) 8 = Some (be_bytes 8 ts).
Proof.
  intros st rx.
  assert (H1 : cycle_ready 100 ["lo"] st rx).
  { refine (conj _ (conj _ (conj _ (conj _ (conj _ (conj _ (conj _ _))))))).
    - vm_compute. discriminate.
    - vm_compute. discriminate.
    - simpl. lia.
    - intros name Hn.
      repeat (apply elem_of_cons in Hn as [->|Hn]); [by vm_compute; eexists..|].
      by apply elem_of_nil in Hn.
    - apply (bool_decide_unpack _). by vm_compute.
    - apply history_wf_empty.
    - apply history_wf_empty.
    - apply history_wf_empty. }
  assert (H2 : 0 < 100 < 2^31) by lia.
  assert (H3 : 0 <= 1667300000123 < 2^64) by lia.
  exact (conj H1 (conj H2 (conj H3
    (report_timestamp_is_aligned BigEndian 100 ["lo"] st 1667300000123 rx H1 H2 H3)))).
Defined.

(** X16.  The wait between two cycles ends on a multiple of the feedback
    interval: the wait computed from the clock reading [endTimestamp] is
    between 1 and the interval, and the reading plus the wait is a
    multiple of the interval; the same holds for the wait that precedes
    the first cycle. *)
Theorem wait_ends_on_a_multiple fi st endTimestamp :
  0 < fi < 2^31 -> 0 <= endTimestamp < 2^64 ->
  exists st' st0,
    endOfCycle fi st endTimestamp = Ok st' /\
    tInfo st' = tInfo st /\ tm1Info st' = tm1Info st /\ tm2Info st' = tm2Info st /\
    1 <= sleepingInterval st' <= fi /\
    (endTimestamp + sleepingInterval st') mod fi = 0 /\
    startOfLoop fi endTimestamp = Ok st0 /\
    sleepingInterval st0 = sleepingInterval st'.
Proof.
  intros Hfi Hend.
  destruct (endOfCycle_runs fi st endTimestamp ltac:(lia)) as (s & Hrun & Hs & Hrange).
  exists (MkFeedbackSenderState (tm2Info st) (tm1Info st) (tInfo st) s),
         (MkFeedbackSenderState ∅ ∅ ∅ s).
  split; [exact Hrun|]. cbn [tInfo tm1Info tm2Info sleepingInterval].
  split; [done|]. split; [done|]. split; [done|]. split; [lia|]. split; [|split; [|done]].
  - rewrite Hs.
    replace (endTimestamp + (fi - endTimestamp mod fi))
      with (endTimestamp - endTimestamp mod fi + 1 * fi) by lia.
    rewrite Z.mod_add by lia.
    rewrite Zminus_mod, Z.mod_mod, Z.sub_diag by lia. apply Z.mod_0_l. lia.
  - unfold startOfLoop, sleepingIntervalOf.
    rewrite (wrap64_small fi) by lia. rewrite decide_False by lia. cbn [obind].
    pose proof (Z.mod_pos_bound endTimestamp fi ltac:(lia)).
    rewrite wrap64_small by lia. by rewrite Hs.
Qed.

Lemma wait_ends_on_a_multiple_witness :
  let st := MkFeedbackSenderState ∅ ∅ ∅ 100 in
  0 < 100 < 2^31 /\ 0 <= 1050 < 2^64 /\
  exists st' st0,
    endOfCycle 100 st 1050 = Ok st' /\
    tInfo st' = tInfo st /\ tm1Info st' = tm1Info st /\ tm2Info st' = tm2Info st /\
    1 <= sleepingInterval st' <= 100 /\
    (1050 + sleepingInterval st') mod 100 = 0 /\
    startOfLoop 100 1050 = Ok st0 /\
    sleepingInterval st0 = sleepingInterval st'.
Proof.
  intros st.
  assert (H1 : 0 < 100 < 2^31) by lia.
  assert (H2 : 0 <= 1050 < 2^64) by lia.
  exact (conj H1 (conj H2 (wait_ends_on_a_multiple 100 st 1050 H1 H2))).
Defined.


(** *** Receiving a report *)

Section DecodeBounds.

Context {double : Type} (gt_half : double -> bool).
Implicit Types (currentInfo : GpsFix double) (buffer : list byte).

Lemma read_at_in_range buffer off n :
  0 <= off -> off + Z.of_nat n <= Z.of_nat (length buffer) ->
  read_at buffer off n = Some (take n (drop (Z.to_nat off) buffer)).
Proof. intros H1 H2. unfold read_at. by rewrite decide_True by lia. Qed.

Lemma read_at_out_of_range buffer off n :
  Z.of_nat (length buffer) < off + Z.of_nat n -> read_at buffer off n = None.
Proof. intros H. unfold read_at. by rewrite decide_False by lia. Qed.

Lemma readEntry_in_range host fi currentInfo buffer name offset j :
  0 <= offset -> 0 <= j < 3 -> offset + 40 < 2^32 ->
  offset + 4 + 12 * j + 12 <= Z.of_nat (length buffer) ->
  exists es, readEntry gt_half host fi currentInfo buffer name offset j = Ok es.
Proof.
  intros Hoff Hj Hfit Hlen. unfold readEntry.
  rewrite (wrap32_small (j * 12)) by lia.
  rewrite (wrap32_small (offset + 4 + j * 12)) by lia.
  rewrite read_at_in_range by lia. cbn [defined obind].
  case_decide; [|by eexists].
  rewrite read_at_in_range by lia. cbn [defined obind]. by eexists.
Qed.

Lemma readEntries_in_range host fi currentInfo buffer name offset :
  0 <= offset -> offset + 40 < 2^32 -> offset + 40 <= Z.of_nat (length buffer) ->
  exists es, readEntries gt_half host fi currentInfo buffer name offset = Ok es.
Proof.
  intros Hoff Hfit Hlen. unfold readEntries.
  destruct (readEntry_in_range host fi currentInfo buffer name offset 0) as [e0 ->]; try lia.
  destruct (readEntry_in_range host fi currentInfo buffer name offset 1) as [e1 ->]; try lia.
  destruct (readEntry_in_range host fi currentInfo buffer name offset 2) as [e2 ->]; try lia.
  by eexists.
Qed.

(** Blocks that lie inside the buffer, with a name for each, decode. *)
Lemma readBlocks_in_range host fi currentInfo buffer numberOfRats :
  4 + 40 * numberOfRats < 2^32 ->
  4 + 40 * numberOfRats <= Z.of_nat (length buffer) ->
  forall names i ifaces acc,
  0 <= i -> numberOfRats - i <= Z.of_nat (length names) ->
  exists r, readBlocks gt_half host fi currentInfo buffer numberOfRats names i ifaces acc = Ok r.
Proof.
  intros Hfit Hlen. induction names as [|name rest IH]; intros i ifaces acc Hi Hn.
  - cbn [readBlocks]. cbn [length] in Hn. rewrite decide_False by lia. by eexists.
  - cbn [readBlocks]. cbn [length] in Hn. case_decide as Hlt; [|by eexists].
    rewrite (wrap32_small (i * 40)), (wrap32_small (4 + i * 40)) by lia.
    rewrite read_at_in_range by lia. cbn [defined obind].
    destruct (readEntries_in_range host fi currentInfo buffer name (4 + i * 40))
      as [es ->]; try lia.
    cbn [obind]. rewrite (wrap32_small (i + 1)) by lia. apply IH; lia.
Qed.

(** A name list that ends before the blocks do: [at] throws. *)
Lemma readBlocks_short_names host fi currentInfo buffer numberOfRats :
  forall names i ifaces acc,
  0 <= i -> i + Z.of_nat (length names) < numberOfRats ->
  4 + 40 * (i + Z.of_nat (length names)) + 4 <= Z.of_nat (length buffer) ->
  4 + 40 * (i + Z.of_nat (length names)) + 40 < 2^32 ->
  readBlocks gt_half host fi currentInfo buffer numberOfRats names i ifaces acc
  = Throw (out_of_range "vector::_M_range_check").
Proof.
  induction names as [|name rest IH]; intros i ifaces acc Hi Hn Hlen Hfit.
  - cbn [readBlocks]. cbn [length] in *. rewrite decide_True by lia.
    rewrite (wrap32_small (i * 40)), (wrap32_small (4 + i * 40)) by lia.
    by rewrite read_at_in_range by lia.
  - cbn [readBlocks]. cbn [length] in *. rewrite decide_True by lia.
    rewrite (wrap32_small (i * 40)), (wrap32_small (4 + i * 40)) by lia.
    rewrite read_at_in_range by lia. cbn [defined obind].
    destruct (readEntries_in_range host fi currentInfo buffer name (4 + i * 40))
      as [es ->]; try lia.
    cbn [obind]. rewrite (wrap32_small (i + 1)) by lia. apply IH; lia.
Qed.

(** The third entry of a block that starts 36 bytes or less before the
    end of the buffer lies outside it. *)
Lemma readEntries_past_buffer host fi currentInfo buffer name offset :
  0 <= offset -> offset + 40 < 2^32 ->
  offset + 28 <= Z.of_nat (length buffer) < offset + 36 ->
  readEntries gt_half host fi currentInfo buffer name offset = Undefined.
Proof.
  intros Hoff Hfit Hlen. unfold readEntries.
  destruct (readEntry_in_range host fi currentInfo buffer name offset 0) as [e0 ->]; try lia.
  destruct (readEntry_in_range host fi currentInfo buffer name offset 1) as [e1 ->]; try lia.
  cbn [obind]. unfold readEntry.
  rewrite (wrap32_small (2 * 12)), (wrap32_small (offset + 4 + 2 * 12)) by lia.
  by rewrite read_at_out_of_range by lia.
Qed.

Lemma readBlocks_past_buffer host fi currentInfo buffer numberOfRats (B : Z) :
  B < numberOfRats -> 4 + 40 * B + 40 < 2^32 ->
  4 + 40 * B + 28 <= Z.of_nat (length buffer) < 4 + 40 * B + 36 ->
  forall names i ifaces acc,
  0 <= i <= B -> B - i < Z.of_nat (length names) ->
  readBlocks gt_half host fi currentInfo buffer numberOfRats names i ifaces acc = Undefined.
Proof.
  intros HB Hfit Hlen. induction names as [|name rest IH]; intros i ifaces acc Hi Hn.
  - cbn [length] in Hn. lia.
  - cbn [readBlocks]. cbn [length] in Hn. rewrite decide_True by lia.
    rewrite (wrap32_small (i * 40)), (wrap32_small (4 + i * 40)) by lia.
    rewrite read_at_in_range by lia. cbn [defined obind].
    destruct (decide (i = B)) as [->|Hne].
    + by rewrite readEntries_past_buffer by lia.
    + destruct (readEntries_in_range host fi currentInfo buffer name (4 + i * 40))
        as [es ->]; try lia.
      cbn [obind]. rewrite (wrap32_small (i + 1)) by lia. apply IH; lia.
Qed.

(** The count that [readFeedbackMessage] reads from a buffer. *)
Lemma readFeedbackMessage_count host fi names ifaces buffer currentInfo :
  (4 <= length buffer)%nat ->
  readFeedbackMessage gt_half host fi names ifaces buffer currentInfo
  = readBlocks gt_half host fi currentInfo buffer (be_value (take 4 buffer)) names 0 ifaces [] /\
  0 <= be_value (take 4 buffer) < 2^32.
Proof.
  intros Hlen. unfold readFeedbackMessage.
  rewrite read_at_in_range by lia. cbn [defined obind].
  change (Z.to_nat 0) with 0%nat. rewrite drop_0.
  assert (Hl : length (take 4 buffer) = 4%nat) by (rewrite length_take; lia).
  rewrite ntohl_host_value by done. split; [done|].
  pose proof (be_value_range (take 4 buffer)) as H. by rewrite Hl in H.
Qed.

End DecodeBounds.

Section DecodeTheorems.

Context {double : Type} (gt_half : double -> bool).

(** X17.  The receive buffer of [FeedbackReceiver] holds twelve blocks.
    With a name for every block, a message in that buffer is decoded when
    its count is at most 12; with a larger count the third entry of the
    thirteenth block is read past the end of the buffer. *)
Theorem rcvBuf_holds_twelve_blocks host fi names ifaces buffer (currentInfo : GpsFix double) :
  length buffer = Z.to_nat FEEDBACK_RCV_BUF_LEN ->
  be_value (take 4 buffer) <= Z.of_nat (length names) ->
  (be_value (take 4 buffer) <= 12 ->
   exists r, readFeedbackMessage gt_half host fi names ifaces buffer currentInfo = Ok r) /\
  (12 < be_value (take 4 buffer) ->
   readFeedbackMessage gt_half host fi names ifaces buffer currentInfo = Undefined).
Proof.
  intros Hlen Hnames. change (Z.to_nat FEEDBACK_RCV_BUF_LEN) with 512%nat in Hlen.
  destruct (readFeedbackMessage_count gt_half host fi names ifaces buffer currentInfo)
    as [-> Hcount]; [lia|].
  split; intros HN.
  - apply readBlocks_in_range; lia.
  - apply (readBlocks_past_buffer gt_half host fi currentInfo buffer _ 12); lia.
Qed.

(** X18.  A report with more blocks than the receiver has names ends the
    decoding with the [std::out_of_range] of [dataSenderIfnames.at(i)]:
    no block is attributed to a wrong name and nothing is read past the
    receive buffer. *)
Theorem short_name_list_throws host fi names ifaces buffer (currentInfo : GpsFix double) :
  length buffer = Z.to_nat FEEDBACK_RCV_BUF_LEN ->
  (length names <= 12)%nat ->
  Z.of_nat (length names) < be_value (take 4 buffer) ->
  readFeedbackMessage gt_half host fi names ifaces buffer currentInfo
  = Throw (out_of_range "vector::_M_range_check").
Proof.
  intros Hlen Hnames HN. change (Z.to_nat FEEDBACK_RCV_BUF_LEN) with 512%nat in Hlen.
  destruct (readFeedbackMessage_count gt_half host fi names ifaces buffer currentInfo)
    as [-> Hcount]; [lia|].
  apply readBlocks_short_names; lia.
Qed.

End DecodeTheorems.

Lemma rcvBuf_holds_twelve_blocks_witness :
  let buffer := be_bytes 4 13 ++ replicate 508 x00 in
  let names := replicate 13 "lo" in
  length buffer = Z.to_nat FEEDBACK_RCV_BUF_LEN /\
  be_value (take 4 buffer) <= Z.of_nat (length names) /\
  (be_value (take 4 buffer) <= 12 ->
   exists r, readFeedbackMessage (fun _ : unit => false) LittleEndian 100 names ∅ buffer
               (MkGpsFix tt tt tt tt) = Ok r) /\
  (12 < be_value (take 4 buffer) ->
   readFeedbackMessage (fun _ : unit => false) LittleEndian 100 names ∅ buffer
     (MkGpsFix tt tt tt tt) = Undefined).
Proof.
  intros buffer names.
  assert (H1 : length buffer = Z.to_nat FEEDBACK_RCV_BUF_LEN) by reflexivity.
  assert (H2 : be_value (take 4 buffer) <= Z.of_nat (length names)) by (by vm_compute).
  exact (conj H1 (conj H2 (rcvBuf_holds_twelve_blocks (fun _ : unit => false) LittleEndian 100
                             names ∅ buffer (MkGpsFix tt tt tt tt) H1 H2))).
Defined.

Lemma short_name_list_throws_witness :
  let buffer := be_bytes 4 2 ++ replicate 508 x00 in
  length buffer = Z.to_nat FEEDBACK_RCV_BUF_LEN /\
  (length ["lo"] <= 12)%nat /\
  Z.of_nat (length ["lo"]) < be_value (take 4 buffer) /\
  readFeedbackMessage (fun _ : unit => false) LittleEndian 100 ["lo"] ∅ buffer
    (MkGpsFix tt tt tt tt)
  = Throw (out_of_range "vector::_M_range_check").
Proof.
  intros buffer.
  assert (H1 : length buffer = Z.to_nat FEEDBACK_RCV_BUF_LEN) by reflexivity.
  assert (H2 : (length ["lo"] <= 12)%nat) by (simpl; lia).
  assert (H3 : Z.of_nat (length ["lo"]) < be_value (take 4 buffer)) by (by vm_compute).
  exact (conj H1 (conj H2 (conj H3 (short_name_list_throws (fun _ : unit => false)
                                      LittleEndian 100 ["lo"] ∅ buffer
                                      (MkGpsFix tt tt tt tt) H1 H2 H3)))).
Defined.

Section ReceiveLoop.

Lemma write_at_front (buf src : list byte) :
  (length src <= length buf)%nat ->
  write_at buf 0 src = Some (src ++ drop (length src) buf).
Proof.
  intros Hlen. unfold write_at. rewrite decide_True by lia.
  change (Z.to_nat 0) with 0%nat. by rewrite take_0, Nat.add_0_l.
Qed.

(** One [recv] of the loop, with [total] bytes counted so far. *)
Lemma recv_in_loop queue rcvBuf total :
  length rcvBuf = 512%nat -> 0 <= total <= 511 ->
  match queue with
  | [] => recv queue rcvBuf (wrap64 (FEEDBACK_RCV_BUF_LEN - total - 1)) = Ok (-1, rcvBuf, [])
  | d :: rest =>
      let n := Z.min (511 - total) (Z.of_nat (length d)) in
      recv queue rcvBuf (wrap64 (FEEDBACK_RCV_BUF_LEN - total - 1))
      = Ok (n, take (Z.to_nat n) d ++ drop (Z.to_nat n) rcvBuf, rest)
  end.
Proof.
  intros Hlen Htotal. destruct queue as [|d rest]; [done|]. cbn zeta.
  unfold recv, FEEDBACK_RCV_BUF_LEN. rewrite wrap64_small by lia.
  replace (512 - total - 1) with (511 - total) by lia.
  set (n := Z.min (511 - total) (Z.of_nat (length d))).
  assert (Hn : length (take (Z.to_nat n) d) = Z.to_nat n) by (rewrite length_take; lia).
  rewrite write_at_front by lia. cbn [defined obind]. by rewrite Hn.
Qed.

(** The loop keeps the count below the size of the buffer and writes
    inside it. *)
Lemma recvLoop_inside fuel :
  forall queue rcvBuf total,
  length rcvBuf = 512%nat -> 0 <= total <= 511 ->
  exists rcvBuf' total' rest,
    recvLoop fuel queue rcvBuf total = Ok (rcvBuf', total', rest) /\
    length rcvBuf' = 512%nat /\ total <= total' <= 511.
Proof.
  induction fuel as [|fuel IH]; intros queue rcvBuf total Hlen Htotal.
  - eexists _, _, _. split; [done|]. split; [done|lia].
  - cbn [recvLoop]. pose proof (recv_in_loop queue rcvBuf total Hlen Htotal) as Hrecv.
    destruct queue as [|d rest]; rewrite Hrecv; cbn [obind fst snd].
    + rewrite decide_False by (by vm_compute). eexists _, _, _. split; [done|]. split; [done|lia].
    + set (n := Z.min (511 - total) (Z.of_nat (length d))).
      assert (Hn : 0 <= n <= 511 - total) by lia.
      rewrite to_int32_small by lia. case_decide.
      * rewrite wrap64_small by lia.
        destruct (IH rest (take (Z.to_nat n) d ++ drop (Z.to_nat n) rcvBuf) (total + n))
          as (b & t & r & Hrun & Hb & Ht).
        { rewrite length_app, length_take, length_drop. lia. }
        { lia. }
        exists b, t, r. split; [done|]. split; [done|lia].
      * eexists _, _, _. split; [done|]. split; [|lia].
        rewrite length_app, length_take, length_drop. lia.
Qed.

(** Datagrams that fit are all taken, each written over the start of
    the buffer. *)
Lemma recvLoop_overwrites :
  forall queue rcvBuf total fuel,
  length rcvBuf = 512%nat -> 0 <= total ->
  total + Z.of_nat (length (concat queue)) <= 511 ->
  Forall (fun d => d <> []) queue ->
  (length queue < fuel)%nat ->
  recvLoop fuel queue rcvBuf total
  = Ok (foldl (fun buf d => d ++ drop (length d) buf) rcvBuf queue,
        total + Z.of_nat (length (concat queue)), []).
Proof.
  induction queue as [|d rest IH]; intros rcvBuf total fuel Hlen Htotal Hsum Hne Hfuel.
  - destruct fuel as [|fuel]; [cbn in Hfuel; lia|]. cbn [recvLoop].
    rewrite (recv_in_loop [] rcvBuf total) by (done || cbn in Hsum; lia).
    cbn [obind fst snd]. rewrite decide_False by (by vm_compute).
    cbn [concat length foldl]. by rewrite Z.add_0_r.
  - destruct fuel as [|fuel]; [cbn in Hfuel; lia|]. cbn [recvLoop].
    cbn [concat] in Hsum. rewrite length_app in Hsum.
    apply Forall_cons in Hne as [Hd Hne].
    assert (Hdl : (0 < length d)%nat) by (destruct d; [done|cbn; lia]).
    pose proof (recv_in_loop (d :: rest) rcvBuf total Hlen ltac:(lia)) as Hrecv.
    cbv beta iota zeta in Hrecv. rewrite Z.min_r in Hrecv by lia. rewrite Nat2Z.id in Hrecv.
    rewrite firstn_all in Hrecv. rewrite Hrecv. cbn [obind fst snd].
    rewrite to_int32_small by lia. rewrite decide_True by lia.
    rewrite wrap64_small by lia.
    rewrite IH; try done; try lia.
    + cbn [foldl concat]. rewrite length_app, Nat2Z.inj_add, Z.add_assoc. done.
    + rewrite length_app, length_drop. lia.
    + cbn [length] in Hfuel. lia.
Qed.

(** The loop never uses up a fuel above the length of the queue: any
    two such fuels give the same run. *)
Lemma recvLoop_fuel fuel :
  forall fuel' queue rcvBuf total,
  (length queue < fuel)%nat -> (length queue < fuel')%nat ->
  recvLoop fuel queue rcvBuf total = recvLoop fuel' queue rcvBuf total.
Proof.
  induction fuel as [|fuel IH]; intros fuel' queue rcvBuf total Hf Hf'; [lia|].
  destruct fuel' as [|fuel']; [lia|]. cbn [recvLoop].
  destruct queue as [|d rest]; [done|]. unfold recv.
  destruct (write_at rcvBuf 0 _) as [buf|]; [|done].
  cbn [defined obind fst snd]. case_decide; [|done].
  cbn [length] in Hf, Hf'. apply IH; lia.
Qed.

End ReceiveLoop.

(** X19.  The receive loop of [FeedbackReceiver] stays inside its buffer:
    whatever datagrams wait on the socket, the loop ends, the count of
    bytes received never exceeds 511, every [recv] writes within the 512
    bytes of [rcvBuf], and so does the terminating zero written at
    [rcvBuf[total]]. *)
Theorem recvLoop_stays_inside_rcvBuf queue :
  exists rcvBuf total rest rcvBuf',
    (forall fuel, (length queue < fuel)%nat ->
       recvLoop fuel queue (replicate (Z.to_nat FEEDBACK_RCV_BUF_LEN) x00) 0
       = Ok (rcvBuf, total, rest)) /\
    length rcvBuf = Z.to_nat FEEDBACK_RCV_BUF_LEN /\ 0 <= total <= 511 /\
    write_at rcvBuf total [x00] = Some rcvBuf'.
Proof.
  destruct (recvLoop_inside (S (length queue)) queue
              (replicate (Z.to_nat FEEDBACK_RCV_BUF_LEN) x00) 0)
    as (b & t & r & Hrun & Hb & Ht); [done|lia|].
  exists b, t, r. eexists. split; [|split; [done|split; [done|]]].
  - intros fuel Hfuel. rewrite <- Hrun. apply recvLoop_fuel; lia.
  - unfold write_at. by rewrite decide_True by (cbn [length]; lia).
Qed.

Section DecodedTable.

Lemma foldl_subscript_lookup (names : list string) :
  forall (ifaces : IfaceInfoMap) name,
  foldl subscript ifaces names !! name =
    match ifaces !! name with
    | Some info => Some info
    | None => if decide (name ∈ names) then Some IfaceInfo_zero else None
    end.
Proof.
  induction names as [|n rest IH]; intros ifaces name.
  - cbn [foldl]. destruct (ifaces !! name); [done|]. by rewrite decide_False by apply not_elem_of_nil.
  - cbn [foldl]. rewrite IH. unfold subscript.
    destruct (decide (name = n)) as [->|Hne].
    + destruct (ifaces !! n) as [info|] eqn:Hn.
      * by rewrite Hn.
      * rewrite lookup_insert_eq. rewrite decide_True by (by left). done.
    + assert (Hsame : (match ifaces !! n with
                       | Some _ => ifaces
                       | None => <[n:=IfaceInfo_zero]> ifaces
                       end) !! name = ifaces !! name).
      { destruct (ifaces !! n); [done|]. by rewrite lookup_insert_ne. }
      rewrite Hsame. destruct (ifaces !! name); [done|].
      destruct (decide (name ∈ rest)) as [Hin|Hin].
      * rewrite decide_True by (by right). done.
      * rewrite decide_False; [done|]. by intros [?|?]%elem_of_cons.
Qed.

Lemma closeIfaceSocks_closes ifaces w :
  closedFds (calls (closeIfaceSocks ifaces w)) = closedFds (calls w) ++ openedHandles ifaces.
Proof. unfold closeIfaceSocks, openedHandles. apply closedFds_fold. Qed.

Lemma openedHandles_lookup (ifaces : IfaceInfoMap) name info :
  ifaces !! name = Some info -> sockfd info <> UNINITIALIZED_FD ->
  sockfd info ∈ openedHandles ifaces.
Proof.
  intros Hlook Hfd. unfold openedHandles. apply list_elem_of_filter. split; [done|].
  apply list_elem_of_fmap. exists (name, info). split; [done|].
  rewrite in_order_Permutation. by apply elem_of_map_to_list.
Qed.

End DecodedTable.

Section ReceiveAndDecode.

Context {double : Type} (gt_half : double -> bool).

Lemma write_terminator (x post : list byte) total :
  Z.of_nat (length x) <= total < Z.of_nat (length x + length post) ->
  exists post', write_at (x ++ post) total [x00] = Some (x ++ post').
Proof.
  intros Htotal.
  rewrite (write_at_skip x post [x00] total (total - Z.of_nat (length x))) by lia.
  unfold write_at. rewrite decide_True by (cbn [length]; lia). by eexists.
Qed.

Lemma length_foldl_overwrite (queue : list (list byte)) :
  forall buf, (length (concat queue) <= length buf)%nat ->
  length (foldl (fun buf d => d ++ drop (length d) buf) buf queue) = length buf.
Proof.
  induction queue as [|d rest IH]; intros buf Hlen; [done|].
  cbn [foldl]. cbn [concat] in Hlen. rewrite length_app in Hlen.
  rewrite IH; rewrite length_app, length_drop; lia.
Qed.

End ReceiveAndDecode.

(** X20.  Reports that wait together on the feedback socket are not decoded
    one by one: every [recv] writes over the start of [rcvBuf], so that
    when the datagrams fit the buffer the pass decodes the last report
    alone and the records of the earlier ones never reach the database. *)
Theorem receiveFeedback_decodes_the_last_report {double : Type} (gt_half : double -> bool)
    host fi names ifaces (queue blocks : list (list byte)) (currentInfo : GpsFix double) :
  let report := be_bytes 4 (Z.of_nat (length blocks)) ++ concat blocks in
  Forall (fun d => d <> []) queue ->
  Forall (fun b => length b = 40%nat) blocks ->
  (length blocks <= length names)%nat ->
  Z.of_nat (length (concat (queue ++ [report]))) <= 511 ->
  receiveFeedback gt_half host fi names ifaces (queue ++ [report]) currentInfo
  = Ok (concat (zip_with (blockRecords gt_half fi currentInfo) names blocks),
        foldl subscript ifaces (take (length blocks) names), []).
Proof.
  intros report Hne Hall Hlen Hsum. unfold receiveFeedback.
  assert (Hrep : length report = (4 + length (concat blocks))%nat).
  { unfold report. by rewrite length_app, length_be_bytes. }
  assert (Hcat : length (concat (queue ++ [report]))
                 = (length (concat queue) + length report)%nat).
  { rewrite concat_app, length_app. cbn [concat]. by rewrite app_nil_r. }
  assert (Hblocks : length (concat blocks) = (40 * length blocks)%nat).
  { clear -Hall. induction Hall as [|b bs Hb _ IH]; [done|].
    cbn [concat length]. rewrite length_app, IH, Hb. lia. }
  rewrite recvLoop_overwrites; try done; try lia.
  2: { apply Forall_app. split; [done|]. constructor; [|done].
       unfold report. intros Hnil. apply (f_equal length) in Hnil.
       rewrite length_app, length_be_bytes in Hnil. cbn in Hnil. lia. }
  cbn [obind fst snd]. rewrite foldl_app. cbn [foldl].
  set (before := foldl (fun buf d => d ++ drop (length d) buf)
                   (replicate (Z.to_nat FEEDBACK_RCV_BUF_LEN) x00) queue).
  assert (Hbefore : length before = 512%nat).
  { unfold before. rewrite length_foldl_overwrite; [done|]. rewrite length_replicate.
    change (Z.to_nat FEEDBACK_RCV_BUF_LEN) with 512%nat. lia. }
  destruct (write_terminator report (drop (length report) before)
              (0 + Z.of_nat (length (concat (queue ++ [report]))))) as [post' Hw].
  { rewrite length_drop. lia. }
  rewrite Hw. cbn [defined obind]. rewrite decide_True by lia.
  unfold report. rewrite <- app_assoc.
  rewrite (readFeedbackMessage_spec gt_half host fi currentInfo names ifaces blocks post');
    try done; try lia.
Qed.

Lemma receiveFeedback_decodes_the_last_report_witness :
  let first := be_bytes 4 1 ++ concat [replicate 40 x01] in
  let blocks := [be_bytes 4 0 ++ be_bytes 8 5000 ++ be_bytes 4 7 ++ replicate 24 x00] in
  let report := be_bytes 4 (Z.of_nat (length blocks)) ++ concat blocks in
  Forall (fun d => d <> []) [first] /\
  Forall (fun b => length b = 40%nat) blocks /\
  (length blocks <= length ["wlan0"])%nat /\
  Z.of_nat (length (concat ([first] ++ [report]))) <= 511 /\
  receiveFeedback (fun speed : Z => bool_decide (speed > 0)) LittleEndian 1000 ["wlan0"] ∅
    ([first] ++ [report]) (MkGpsFix 0 0 0 0)
  = Ok (concat (zip_with (blockRecords (fun speed : Z => bool_decide (speed > 0)) 1000
                            (MkGpsFix 0 0 0 0)) ["wlan0"] blocks),
        foldl subscript ∅ (take (length blocks) ["wlan0"]), []).
Proof.
  intros first blocks report.
  assert (H1 : Forall (fun d => d <> []) [first]) by (by repeat constructor).
  assert (H2 : Forall (fun b => length b = 40%nat) blocks) by (by repeat constructor).
  assert (H3 : (length blocks <= length ["wlan0"])%nat) by (cbn; lia).
  assert (H4 : Z.of_nat (length (concat ([first] ++ [report]))) <= 511) by (by vm_compute).
  exact (conj H1 (conj H2 (conj H3 (conj H4
    (receiveFeedback_decodes_the_last_report (fun speed : Z => bool_decide (speed > 0))
       LittleEndian 1000 ["wlan0"] ∅ [first] blocks (MkGpsFix 0 0 0 0) H1 H2 H3 H4))))).
Defined.

(** X21.  [readFeedbackMessage] looks every decoded name up with
    [ifaceMap[name]].  A sender name that the table does not hold is
    thereby added to it with a zeroed record, whose handle is 0 and not
    [UNINITIALIZED_FD]: the [closeIfaceSocks] that ends the thread then
    calls [close] on descriptor 0. *)
Theorem decoding_adds_a_zeroed_interface {double : Type} (gt_half : double -> bool)
    host fi names ifaces (blocks : list (list byte)) post (currentInfo : GpsFix double)
    (i : nat) name w :
  Forall (fun b => length b = 40%nat) blocks ->
  (length blocks <= length names)%nat ->
  4 + 40 * Z.of_nat (length blocks) < 2^32 ->
  names !! i = Some name -> (i < length blocks)%nat ->
  ifaces !! name = None ->
  exists recs ifaces',
    readFeedbackMessage gt_half host fi names ifaces
      (be_bytes 4 (Z.of_nat (length blocks)) ++ concat blocks ++ post) currentInfo
      = Ok (recs, ifaces') /\
    ifaces' !! name = Some IfaceInfo_zero /\
    (forall other info, ifaces !! other = Some info -> ifaces' !! other = Some info) /\
    0 ∈ closedFds (calls (closeIfaceSocks ifaces' w)).
Proof.
  intros Hall Hlen Hfit Hname Hi Hnone.
  rewrite (readFeedbackMessage_spec gt_half host fi currentInfo names ifaces blocks post)
    by done.
  eexists _, _. split; [done|].
  assert (Hin : name ∈ take (length blocks) names).
  { apply list_elem_of_lookup. exists i. by rewrite lookup_take_lt. }
  assert (Hzero : foldl subscript ifaces (take (length blocks) names) !! name
                  = Some IfaceInfo_zero).
  { rewrite foldl_subscript_lookup, Hnone. by rewrite decide_True. }
  split; [done|]. split.
  - intros other info Hother. by rewrite foldl_subscript_lookup, Hother.
  - rewrite closeIfaceSocks_closes. apply elem_of_app. right.
    by apply (openedHandles_lookup _ name IfaceInfo_zero).
Qed.

Lemma decoding_adds_a_zeroed_interface_witness :
  let blocks := [be_bytes 4 0 ++ be_bytes 8 5000 ++ be_bytes 4 7 ++ replicate 24 x00] in
  Forall (fun b => length b = 40%nat) blocks /\
  (length blocks <= length ["wlan1"])%nat /\
  4 + 40 * Z.of_nat (length blocks) < 2^32 /\
  ["wlan1"] !! 0%nat = Some "wlan1" /\ (0 < length blocks)%nat /\
  (∅ : IfaceInfoMap) !! "wlan1" = None /\
  exists recs ifaces',
    readFeedbackMessage (fun speed : Z => bool_decide (speed > 0)) BigEndian 1000 ["wlan1"] ∅
      (be_bytes 4 (Z.of_nat (length blocks)) ++ concat blocks ++ []) (MkGpsFix 0 0 0 0)
      = Ok (recs, ifaces') /\
    ifaces' !! "wlan1" = Some IfaceInfo_zero /\
    (forall other info, (∅ : IfaceInfoMap) !! other = Some info -> ifaces' !! other = Some info) /\
    0 ∈ closedFds (calls (closeIfaceSocks ifaces' (MkWorld ∅ [] []))).
Proof.
  intros blocks.
  assert (H1 : Forall (fun b => length b = 40%nat) blocks) by (by repeat constructor).
  assert (H2 : (length blocks <= length ["wlan1"])%nat) by (cbn; lia).
  assert (H3 : 4 + 40 * Z.of_nat (length blocks) < 2^32) by (cbn; lia).
  assert (H4 : ["wlan1"] !! 0%nat = Some "wlan1") by reflexivity.
  assert (H5 : (0 < length blocks)%nat) by (cbn; lia).
  assert (H6 : (∅ : IfaceInfoMap) !! "wlan1" = None) by apply lookup_empty.
  exact (conj H1 (conj H2 (conj H3 (conj H4 (conj H5 (conj H6
    (decoding_adds_a_zeroed_interface (fun speed : Z => bool_decide (speed > 0))
       BigEndian 1000 ["wlan1"] ∅ blocks [] (MkGpsFix 0 0 0 0) 0%nat "wlan1"
       (MkWorld ∅ [] []) H1 H2 H3 H4 H5 H6))))))).
Defined.


(** *** The sender, byte order, ports and counters *)

Section OneInterfaceFacts.

Variable draw : Z -> Z -> Z.

Lemma pickRandomIface_lookup (ifaces : IfaceInfoMap) name :
  pickRandomIface draw ifaces = Ok name -> is_Some (ifaces !! name).
Proof.
  unfold pickRandomIface.
  destruct (in_order ifaces !! _) as [[n info]|] eqn:Hl; [|done].
  intros [= <-]. exists info. apply elem_of_map_to_list.
  rewrite <- in_order_Permutation. by eapply list_elem_of_lookup_2.
Qed.

Lemma subscript_present (ifaces : IfaceInfoMap) name :
  is_Some (ifaces !! name) -> subscript ifaces name = ifaces.
Proof. intros [info H]. unfold subscript. by rewrite H. Qed.

Lemma sendOneInterface_turn_same now ifaces name info expires :
  pickRandomIface draw ifaces = Ok name -> ifaces !! name = Some info ->
  exists expires',
    sendOneInterface_turn draw now (MkOneInterface ifaces name expires name)
    = Ok (MkOneInterface ifaces name expires' name, sockfd info).
Proof.
  intros Hpick Hinfo. unfold sendOneInterface_turn. cbn [oi_decisionExpiresAt oi_ifaceMap oi_iinfo].
  case_decide.
  - rewrite Hpick. cbn [obind]. rewrite subscript_present by (by eexists).
    rewrite Hinfo. cbn [defined obind oi_ifaceMap oi_iinfo].
    rewrite insert_id by done. rewrite Hinfo. cbn [defined obind]. by eexists.
  - cbn [obind oi_ifaceMap oi_iinfo]. rewrite Hinfo. cbn [defined obind]. by eexists.
Qed.

Lemma sendOneInterface_loop_same now ifaces name info turns :
  pickRandomIface draw ifaces = Ok name -> ifaces !! name = Some info ->
  forall expires, exists expires',
    sendOneInterface_loop draw now turns (MkOneInterface ifaces name expires name)
    = Ok (MkOneInterface ifaces name expires' name, replicate turns (sockfd info)).
Proof.
  intros Hpick Hinfo. induction turns as [|turns IH]; intros expires; [by eexists|].
  cbn [sendOneInterface_loop].
  destruct (sendOneInterface_turn_same now ifaces name info expires Hpick Hinfo) as [e1 ->].
  cbn [obind fst snd]. destruct (IH e1) as [e2 ->]. cbn [obind fst snd replicate]. by eexists.
Qed.

End OneInterfaceFacts.

(** X22.  [sendOneInterface] never changes interface.  Every call of
    [pickRandomIface] builds its engine from the same seed, so each new
    decision is the first one again: when the first pick is a name of the
    table, all the turns of the loop send on the handle of that one
    interface, and the table is left as it was. *)
Theorem sendOneInterface_keeps_one_interface draw now turns (ifaces : IfaceInfoMap) name info :
  pickRandomIface draw ifaces = Ok name -> ifaces !! name = Some info ->
  exists st,
    sendOneInterface draw now turns ifaces = Ok (st, replicate turns (sockfd info)) /\
    oi_ifaceMap st = ifaces /\ oi_decision st = name.
Proof.
  intros Hpick Hinfo. unfold sendOneInterface, sendOneInterface_start.
  rewrite Hpick. cbn [obind]. rewrite subscript_present by (by eexists).
  destruct (sendOneInterface_loop_same draw now ifaces name info turns Hpick Hinfo 0)
    as [e ->].
  by eexists.
Qed.

Lemma sendOneInterface_keeps_one_interface_witness :
  let ifaces : IfaceInfoMap :=
    <["eth0" := MkIfaceInfo "10.0.0.1" "10.0.0.2" None 4 0 0]>
      (<["wlan0" := MkIfaceInfo "10.0.1.1" "10.0.1.2" None 5 0 1]> ∅) in
  let info := MkIfaceInfo "10.0.1.1" "10.0.1.2" None 5 0 1 in
  pickRandomIface libstdcxx_draw ifaces = Ok "wlan0" /\ ifaces !! "wlan0" = Some info /\
  exists st,
    sendOneInterface libstdcxx_draw 1667300000123 3 ifaces
      = Ok (st, replicate 3 (sockfd info)) /\
    oi_ifaceMap st = ifaces /\ oi_decision st = "wlan0".
Proof.
  intros ifaces info.
  assert (H1 : pickRandomIface libstdcxx_draw ifaces = Ok "wlan0") by (by vm_compute).
  assert (H2 : ifaces !! "wlan0" = Some info) by (by vm_compute).
  exact (conj H1 (conj H2
    (sendOneInterface_keeps_one_interface libstdcxx_draw 1667300000123 3 ifaces
       "wlan0" info H1 H2))).
Defined.

Section ByteOrder.

Lemma htonll_range host value : 0 <= value < 2^64 -> 0 <= htonll host value < 2^64.
Proof.
  intros Hv. destruct host; unfold htonll; cbn [is_little]; [|done].
  unfold htonl; cbn [is_little].
  set (hi := bswap32 (wrap32 (Z.shiftr value 32))).
  set (lo := bswap32 (wrap32 (Z.land value 4294967295))).
  pose proof (bswap32_range (wrap32 (Z.shiftr value 32))) as Hhi. fold hi in Hhi.
  pose proof (bswap32_range (wrap32 (Z.land value 4294967295))) as Hlo. fold lo in Hlo.
  assert (Hw : wrap64 (Z.shiftl lo 32) = Z.shiftl lo 32).
  { unfold wrap64. rewrite Z.shiftl_mul_pow2 by lia. apply Z.mod_small. lia. }
  rewrite Hw, lor_shifted_small by lia. lia.
Qed.

Lemma host_value_host_bytes host n v :
  host_value host (host_bytes host n v) = v mod 2 ^ (8 * Z.of_nat n).
Proof.
  destruct host; unfold host_value, host_bytes; cbn [is_little].
  - apply le_value_le_bytes.
  - apply be_value_be_bytes.
Qed.

End ByteOrder.

(** X23.  [ntohll] undoes [htonll]: a 64-bit value that one host converts
    with [htonll] and stores is read back with [ntohll] by a host of
    either byte order, and on one host [ntohll (htonll value)] is
    [value]. *)
Theorem htonll_wire_roundtrip hostS hostR value :
  0 <= value < 2^64 ->
  ntohll hostR (host_value hostR (host_bytes hostS 8 (htonll hostS value))) = value /\
  ntohll hostS (htonll hostS value) = value.
Proof.
  intros Hv.
  assert (Hwire : forall hostR,
            ntohll hostR (host_value hostR (host_bytes hostS 8 (htonll hostS value))) = value).
  { intros h. rewrite host_bytes_htonll, ntohll_host_value by apply length_be_bytes.
    rewrite be_value_be_bytes. apply Z.mod_small. exact Hv. }
  split; [apply Hwire|].
  rewrite <- (Hwire hostS) at 2. f_equal.
  rewrite host_value_host_bytes. symmetry. apply Z.mod_small.
  by apply htonll_range.
Qed.

Lemma htonll_wire_roundtrip_witness :
  0 <= 1667300000123 < 2^64 /\
  ntohll BigEndian
    (host_value BigEndian (host_bytes LittleEndian 8 (htonll LittleEndian 1667300000123)))
    = 1667300000123 /\
  ntohll LittleEndian (htonll LittleEndian 1667300000123) = 1667300000123.
Proof.
  assert (H : 0 <= 1667300000123 < 2^64) by lia.
  exact (conj H (htonll_wire_roundtrip LittleEndian BigEndian 1667300000123 H)).
Defined.

Section PortFacts.

Lemma Value_throws cfile section entry e :
  Value cfile section entry = Throw e -> e = runtime_error "does not exist".
Proof. unfold Value. destruct (cfile !! _); [done|]. by intros [= <-]. Qed.

Lemma stoi_throws str e :
  stoi str = Throw e -> e = invalid_argument "stoi" \/ e = out_of_range "stoi".
Proof.
  unfold stoi. destruct (digits _ None); [|intros [= <-]; by left].
  case_decide; [done|]. intros [= <-]. by right.
Qed.

End PortFacts.

(** X24.  Whatever the configuration holds, [readPort] ends in one of three
    ways: it returns a port of the range 1024 to 49151 and logs nothing;
    it returns the caller's default and logs one error, which happens for
    a number outside the range only; or an exception of
    [ConfigFile::Value] or [std::stoi] leaves it.  It never ends the
    program and never returns a port outside the range other than the
    default. *)
Theorem readPort_outcomes cfile secName defPort :
  (exists port, readPort cfile secName defPort = ([], Ok port) /\ 1024 <= port <= 49151) \/
  (exists msg portv, readPort cfile secName defPort = ([(ERROR, msg)], Ok defPort) /\
     (do v <- Value cfile secName "port"; stoi v) = Ok portv /\
     ~ (1024 <= portv <= 49151)) \/
  (exists e, readPort cfile secName defPort = ([], Throw e) /\
     (e = runtime_error "does not exist" \/ e = invalid_argument "stoi"
      \/ e = out_of_range "stoi")).
Proof.
  destruct (Value cfile secName "port") as [v|e| |c] eqn:Ev.
  - destruct (stoi v) as [portv|e| |c] eqn:Es.
    + destruct (decide (1024 <= portv <= 49151)) as [Hin|Hout].
      * left. exists portv. split; [|done]. by apply (readPort_in_range _ _ _ v).
      * right. left.
        destruct (readPort_out_of_range cfile secName defPort v portv Ev Es Hout) as [msg H].
        exists msg, portv. split; [done|]. cbn [obind]. by rewrite Es.
    + right. right. exists e.
      assert (He : e = invalid_argument "stoi" \/ e = out_of_range "stoi")
        by (by apply (stoi_throws v)).
      split; [|tauto].
      unfold readPort. rewrite Ev. cbn [obind]. rewrite Es.
      by destruct He as [-> | ->].
    + exfalso. unfold stoi in Es. destruct (digits _ None); [case_decide|]; done.
    + exfalso. unfold stoi in Es. destruct (digits _ None); [case_decide|]; done.
  - right. right. exists e.
    assert (He : e = runtime_error "does not exist")
      by (by apply (Value_throws cfile secName "port")).
    split; [|by left].
    unfold readPort. rewrite Ev. by subst e.
  - exfalso. unfold Value in Ev. by destruct (cfile !! _).
  - exfalso. unfold Value in Ev. by destruct (cfile !! _).
Qed.

(** X25.  In broadcast mode (decision level 0) the sender closes its
    sockets twice when it ends: [sendEveryInterface] calls
    [closeIfaceSocks] after joining its workers and [commThread] calls it
    again, so [close] is called two times on every opened handle of the
    table, the second time on a descriptor that is no longer the
    socket. *)
Theorem DataSender_broadcast_closes_twice ifaces w fd :
  fd ∈ openedHandles ifaces ->
  exists before between after,
    closedFds (calls (DataSender_cleanup 0 ifaces w))
    = closedFds (calls w) ++ before ++ fd :: between ++ fd :: after.
Proof.
  intros Hfd. rewrite DataSender_cleanup_broadcast.
  apply list_elem_of_split in Hfd as (l1 & l2 & ->).
  exists l1, (l2 ++ l1), l2. f_equal. by rewrite <- !app_assoc.
Qed.

Lemma DataSender_broadcast_closes_twice_witness :
  let ifaces : IfaceInfoMap :=
    <["lo" := MkIfaceInfo "127.0.0.1" "127.0.0.1" None 3 0 0]> ∅ in
  3 ∈ openedHandles ifaces /\
  exists before between after,
    closedFds (calls (DataSender_cleanup 0 ifaces (MkWorld {[3]} [] [])))
    = closedFds (calls (MkWorld {[3]} [] [])) ++ before ++ 3 :: between ++ 3 :: after.
Proof.
  intros ifaces.
  assert (H : 3 ∈ openedHandles ifaces) by (apply (bool_decide_unpack _); by vm_compute).
  exact (conj H (DataSender_broadcast_closes_twice ifaces (MkWorld {[3]} [] []) 3 H)).
Defined.

Section CountersOfAConfiguredReceiver.

Variable inet_pton : string -> bool.
Variable indeterminate : string -> Z.

Lemma DataReceiver_reset_values cfile cfg :
  (DataReceiver_readConfig inet_pton indeterminate cfile).2 = Ok cfg ->
  nbytes_reset_value (dr_shared cfg) = (fun _ => 0) <$> ifaceMap (dr_shared cfg).
Proof.
  intros Hcfg. unfold DataReceiver_readConfig in Hcfg.
  apply lbind_Ok in Hcfg as (lvl & _ & Hcfg).
  apply lbind_Ok in Hcfg as (portSrv & _ & Hcfg).
  apply lbind_Ok in Hcfg as (m1 & _ & Hcfg).
  apply lbind_Ok in Hcfg as (portCli & _ & Hcfg).
  apply lbind_Ok in Hcfg as (m2 & _ & Hcfg).
  case_decide; [done|]. cbn in Hcfg. by injection Hcfg as <-.
Qed.

(** A loop that ends has set the counter of every element it visited to
    zero, has left the other elements as they were, and has neither
    added nor removed a name. *)
Lemma attachLoop_counters host sys portSrv entries :
  forall ifaces w w' ifaces',
  attachLoop inet_pton host sys portSrv entries ifaces w = (w', Ok ifaces') ->
  (forall name, is_Some (ifaces' !! name) <-> is_Some (ifaces !! name)) /\
  forall name info', ifaces' !! name = Some info' ->
    (name ∈ entries.*1 -> nbytesAcc info' = 0) /\
    (name ∉ entries.*1 -> ifaces !! name = Some info').
Proof.
  induction entries as [|[iname ifaceInfo] entries IH]; intros ifaces w w' ifaces' Hrun.
  - cbn in Hrun. injection Hrun as _ <-. split; [done|].
    intros name info' Hinfo. split; [|done]. intros Hin. by apply elem_of_nil in Hin.
  - cbn [attachLoop] in Hrun. cbv zeta in Hrun.
    case_decide; [done|]. case_decide; [done|].
    destruct (createSockaddr _ _ _ _ _ _) as [w1 [sockaddr|e| |code]]; cbn [fst snd] in Hrun;
      try done.
    case_decide; [done|].
    apply IH in Hrun as [Hdom Hrest].
    assert (Halter : forall name,
              alter (attached (socket_ret (sys iname))) iname ifaces !! name
              = if decide (iname = name)
                then attached (socket_ret (sys iname)) <$> ifaces !! iname
                else ifaces !! name).
    { intros name. by rewrite lookup_alter. }
    split.
    + intros name. rewrite Hdom, Halter. case_decide; [subst|done].
      by rewrite fmap_is_Some.
    + intros name info' Hinfo. destruct (Hrest name info' Hinfo) as [Hin Hout].
      cbn [fmap list_fmap fst]. split.
      * intros Hname. destruct (decide (name ∈ entries.*1)) as [|Hnot]; [by apply Hin|].
        apply elem_of_cons in Hname as [->|]; [|done].
        specialize (Hout Hnot). rewrite Halter, decide_True in Hout by done.
        destruct (ifaces !! iname); [|done]. cbn in Hout. by injection Hout as <-.
      * intros Hname. apply not_elem_of_cons in Hname as [Hne Hnot].
        specialize (Hout Hnot). rewrite Halter, decide_False in Hout by done. done.
Qed.

Lemma DataReceiver_attach_counters host sys portSrv ifaces w ifaces' :
  (DataReceiver_attach inet_pton host sys portSrv ifaces w).2 = Ok ifaces' ->
  (forall name, is_Some (ifaces' !! name) <-> is_Some (ifaces !! name)) /\
  forall name info', ifaces' !! name = Some info' -> nbytesAcc info' = 0.
Proof.
  unfold DataReceiver_attach. cbv zeta.
  destruct (attachLoop _ _ _ _ _ _ _) as [w1 [m|e| |code]] eqn:Hloop; cbn [fst snd]; try done.
  intros [= ->].
  destruct (attachLoop_counters _ _ _ _ _ _ _ _ Hloop) as [Hdom Hall].
  split; [done|]. intros name info' Hinfo.
  apply (Hall name info' Hinfo).
  assert (Hsome : is_Some (ifaces !! name)) by (apply Hdom; by eexists).
  destruct Hsome as [info Hi].
  apply list_elem_of_fmap. exists (name, info). split; [done|].
  rewrite in_order_Permutation. by apply elem_of_map_to_list.
Qed.

Lemma attached_receiver_settled host sys cfile cfg w ifaces :
  (DataReceiver_readConfig inet_pton indeterminate cfile).2 = Ok cfg ->
  (DataReceiver_attach inet_pton host sys (dr_portSrv cfg) (ifaceMap (dr_shared cfg)) w).2
    = Ok ifaces ->
  let start :=
    MkHandoffState (MkDataReceiverShared ifaces (nbytes_reset_value (dr_shared cfg))) None in
  handoff_settled start /\
  forall name, is_Some (ifaces !! name) -> accOf start name = Some 0.
Proof.
  intros Hcfg Hattach start.
  pose proof (DataReceiver_reset_values cfile cfg Hcfg) as Hreset.
  destruct (DataReceiver_attach_counters _ _ _ _ _ _ Hattach) as [Hdom Hzero].
  assert (Hacc : forall name acc, accOf start name = Some acc -> acc = 0).
  { intros name acc. unfold accOf, start. cbn [hs_shared ifaceMap].
    destruct (ifaces !! name) as [info|] eqn:Hinfo; [|done].
    cbn. intros [= <-]. by apply (Hzero name). }
  assert (Hpending : forall name pending, pendingOf start name = Some pending ->
            pending = 0 /\ is_Some (ifaces !! name)).
  { intros name pending. unfold pendingOf, start. cbn [hs_shared nbytes_reset_value].
    rewrite Hreset, lookup_fmap.
    destruct (ifaceMap (dr_shared cfg) !! name) as [info|] eqn:Hinfo; [|done].
    cbn. intros [= <-]. split; [done|]. apply Hdom. by eexists. }
  split.
  - split; [done|]. split; [|split].
    + intros name pending Hp. destruct (Hpending _ _ Hp) as [-> [info Hinfo]].
      split; [lia|]. unfold accOf, start. cbn [hs_shared ifaceMap]. rewrite Hinfo. by eexists.
    + intros name acc H. rewrite (Hacc _ _ H). lia.
    + intros name acc pending Ha Hp. rewrite (Hacc _ _ Ha).
      destruct (Hpending _ _ Hp) as [-> _]. lia.
  - intros name [info Hinfo]. unfold accOf, start. cbn [hs_shared ifaceMap].
    rewrite Hinfo. cbn. f_equal. by apply (Hzero name).
Qed.

End CountersOfAConfiguredReceiver.

(** X26.  [readIfaces] leaves the counters of the table unwritten;
    [DataReceiver::readConfig] starts every pending drain at zero, and
    the loop of [commThread] that attaches the interfaces sets every
    counter to zero before a worker starts.  From there, as long as no
    step of a worker comes between the read of the counters by
    [FeedbackSender] and its write of [nbytes_reset_value], the counter
    of an interface is the bytes received on it minus the bytes drained
    from it, whatever the memory of the records held, and no pending
    drain exceeds its counter. *)
Theorem configured_receiver_counts_exactly inet_pton indeterminate host sys cfile cfg w
    ifaces evs st' :
  (DataReceiver_readConfig inet_pton indeterminate cfile).2 = Ok cfg ->
  (DataReceiver_attach inet_pton host sys (dr_portSrv cfg) (ifaceMap (dr_shared cfg)) w).2
    = Ok ifaces ->
  let start :=
    MkHandoffState (MkDataReceiverShared ifaces (nbytes_reset_value (dr_shared cfg))) None in
  runHandoff start (expand evs) = Some st' ->
  (forall name, receivedBy name (expand evs) < 2^64) ->
  (forall name, is_Some (ifaces !! name) <-> is_Some (ifaceMap (dr_shared cfg) !! name)) /\
  pending_bounded st' /\
  forall name, is_Some (ifaces !! name) ->
    accOf st' name
    = Some (receivedBy name (expand evs) - drainedBy name start (expand evs)).
Proof.
  intros Hcfg Hattach start Hrun Hroom.
  destruct (attached_receiver_settled inet_pton indeterminate host sys cfile cfg w ifaces
              Hcfg Hattach) as [Hset Hzero].
  fold start in Hset, Hzero.
  destruct (serialized_handoff_exact evs start st' Hset Hrun) as [Hset' Hacc].
  { intros name acc Ha.
    assert (Hsome : is_Some (ifaces !! name)).
    { unfold accOf, start in Ha. cbn [hs_shared ifaceMap] in Ha.
      destruct (ifaces !! name); [by eexists|done]. }
    rewrite (Hzero name Hsome) in Ha. injection Ha as <-. specialize (Hroom name). lia. }
  split; [|split; [apply Hset'|]].
  - by destruct (DataReceiver_attach_counters inet_pton host sys _ _ w ifaces Hattach).
  - intros name Hsome. rewrite Hacc, (Hzero name Hsome). cbn. f_equal; lia.
Qed.

Lemma configured_receiver_counts_exactly_witness :
  let sys := fun _ : string => MkAttachAnswers 3 0 0 "" in
  let w := MkWorld {[0; 1; 2]} [] [] in
  let ifaces : IfaceInfoMap :=
    <["lo" := MkIfaceInfo "127.0.0.1" "127.0.0.1" None 3 0 0]> ∅ in
  let evs := [SReceive "lo" 100; SHandoff; SReceive "lo" 50; SApplyDrain "lo"] in
  let start :=
    MkHandoffState
      (MkDataReceiverShared ifaces (nbytes_reset_value (dr_shared loopbackReceiver))) None in
  let st' :=
    MkHandoffState
      (MkDataReceiverShared
         (<["lo" := MkIfaceInfo "127.0.0.1" "127.0.0.1" None 3 50 0]> ∅)
         (<["lo" := 0]> ∅))
      None in
  (DataReceiver_readConfig inet_pton4 staleCounter loopbackConfig).2 = Ok loopbackReceiver /\
  (DataReceiver_attach inet_pton4 LittleEndian sys (dr_portSrv loopbackReceiver)
     (ifaceMap (dr_shared loopbackReceiver)) w).2 = Ok ifaces /\
  runHandoff start (expand evs) = Some st' /\
  (forall name, receivedBy name (expand evs) < 2^64) /\
  (forall name, is_Some (ifaces !! name)
                <-> is_Some (ifaceMap (dr_shared loopbackReceiver) !! name)) /\
  pending_bounded st' /\
  forall name, is_Some (ifaces !! name) ->
    accOf st' name
    = Some (receivedBy name (expand evs) - drainedBy name start (expand evs)).
Proof.
  intros sys w ifaces evs start st'.
  assert (H1 : (DataReceiver_readConfig inet_pton4 staleCounter loopbackConfig).2
               = Ok loopbackReceiver) by (by vm_compute).
  assert (H2 : (DataReceiver_attach inet_pton4 LittleEndian sys (dr_portSrv loopbackReceiver)
                  (ifaceMap (dr_shared loopbackReceiver)) w).2 = Ok ifaces)
    by (by vm_compute).
  assert (H3 : runHandoff start (expand evs) = Some st') by (by vm_compute).
  assert (H4 : forall name, receivedBy name (expand evs) < 2^64).
  { intros name. cbn. repeat case_decide; lia. }
  exact (conj H1 (conj H2 (conj H3 (conj H4
    (configured_receiver_counts_exactly inet_pton4 staleCounter LittleEndian sys
       loopbackConfig loopbackReceiver w ifaces evs st' H1 H2 H3 H4))))).
Defined.

(** X27.  [ratToIface] and [ifaceToRat] are inverse to each other on the
    four technologies that have a name: a name that [ifaceToRat] accepts
    is given back by [ratToIface], and a technology comes back from its
    name, except [g5nr], which has no name and comes back as
    [invalid]. *)
Theorem rat_names_roundtrip rat ifaceName :
  ifaceToRat (ratToIface rat) = (if decide (rat = g5nr) then RAT_invalid else rat) /\
  (ifaceToRat ifaceName <> RAT_invalid -> ratToIface (ifaceToRat ifaceName) = ifaceName).
Proof.
  split; [by destruct rat|].
  unfold ifaceToRat. repeat case_decide; subst; done.
Qed.

